(** * Dataset preparation for MedGemma fine-tuning

    A shallow embedding of [scripts/prepare-training-data.py] and the
    properties of its stages: the JSONL loader, the category balancer, the
    prompt augmenter, the format adapter, the shuffle, the two output files
    and the statistics report.

    Python values are modelled by the JSON values [json.loads] can return.
    A [str] is held as the bytes of its UTF-8 encoding, a lone surrogate
    (which [json.loads] builds from an escape) as the three bytes of its code
    point.  Exceptions are modelled by the [result] type, the ambient
    [random] module by an explicit stream of draws, and the two output files
    by the list of write events of a run.  The messages printed on the
    console and the creation of the output directory are left out, and so is
    a file that is not UTF-8, which cannot be read. *)

From stdpp Require Import base list gmap strings pretty.
From Stdlib Require Import Ascii ZArith NArith.

(** ** Exceptions

    The exceptions the script can raise.  [Unfinished] is none of them: it
    stands for a run that is still drawing when the draws it is followed
    for are used up (see [random_sample]). *)

Inductive pyerror :=
  | KeyError
  | TypeError
  | AttributeError
  | ValueError
  | IndexError
  | JSONDecodeError
  | UnicodeEncodeError
  | Unfinished.

Inductive result (A : Type) :=
  | Ok (a : A)
  | Raise (e : pyerror).
Arguments Ok {A} a.
Arguments Raise {A} e.

#[global] Instance result_ret : MRet result := fun A a => Ok a.
#[global] Instance result_bind : MBind result := fun A B f m =>
  match m with
  | Ok a => f a
  | Raise e => Raise e
  end.

Definition is_ok {A} (r : result A) : bool :=
  match r with Ok _ => true | Raise _ => false end.

(** The value of a computation that did not raise. *)
Definition returned {A} (r : result A) : option A :=
  match r with Ok a => Some a | Raise _ => None end.

(** ** Python values

    The values [json.loads] builds: [None], booleans, integers, strings,
    lists and dicts with string keys.  A dict keeps its insertion order, so
    it is an association list; [dict_set] keeps the keys unique.  JSON reals
    are left out: the script never inspects a number. *)

#[warnings="-register-all"]
Inductive json :=
  | JNull
  | JBool (b : bool)
  | JNum (n : Z)
  | JStr (s : string)
  | JArr (l : list json)
  | JObj (d : list (string * json)).

Fixpoint dict_lookup (k : string) (d : list (string * json)) : option json :=
  match d with
  | [] => None
  | (k', v) :: d' => if String.eqb k k' then Some v else dict_lookup k d'
  end.

(** [d[k] = v]: an existing key keeps its place, a new key goes last. *)
Fixpoint dict_set (k : string) (v : json) (d : list (string * json))
  : list (string * json) :=
  match d with
  | [] => [(k, v)]
  | (k', v') :: d' =>
      if String.eqb k k' then (k, v) :: d' else (k', v') :: dict_set k v d'
  end.

Fixpoint dict_del (k : string) (d : list (string * json))
  : list (string * json) :=
  match d with
  | [] => []
  | (k', v') :: d' =>
      if String.eqb k k' then dict_del k d' else (k', v') :: dict_del k d'
  end.

(** [v[k]] for a string [k]: [KeyError] on a dict without the key,
    [TypeError] on anything that is not a dict. *)
Definition getitem (v : json) (k : string) : result json :=
  match v with
  | JObj d =>
      match dict_lookup k d with
      | Some x => Ok x
      | None => Raise KeyError
      end
  | _ => Raise TypeError
  end.

(** [v[k] = x]. *)
Definition setitem (v : json) (k : string) (x : json) : result json :=
  match v with
  | JObj d => Ok (JObj (dict_set k x d))
  | _ => Raise TypeError
  end.

(** [v.get(k)]: only dicts have the method; a missing key gives [None]. *)
Definition dict_get (v : json) (k : string) : result json :=
  match v with
  | JObj d => Ok (default JNull (dict_lookup k d))
  | _ => Raise AttributeError
  end.

(** [v.copy()], a shallow copy: dicts and lists have the method. *)
Definition py_copy (v : json) : result json :=
  match v with
  | JObj _ | JArr _ => Ok v
  | _ => Raise AttributeError
  end.

(** Truth value of a Python object, as tested by [if]. *)
Definition truthy (v : json) : bool :=
  match v with
  | JNull => false
  | JBool b => b
  | JNum n => negb (n =? 0)%Z
  | JStr s => negb (String.eqb s "")
  | JArr l => match l with [] => false | _ => true end
  | JObj d => match d with [] => false | _ => true end
  end.

(** [v != s] for a string literal [s]. *)
Definition py_ne_str (v : json) (s : string) : bool :=
  match v with
  | JStr t => negb (String.eqb t s)
  | _ => true
  end.

(** ** Hashable keys

    Keys of a dict or members of a set: lists and dicts are unhashable
    ([TypeError]); [True] and [1], [False] and [0] are the same key. *)

Inductive pykey :=
  | KNone
  | KInt (n : Z)
  | KStr (s : string).

#[global] Instance pykey_eq_dec : EqDecision pykey.
Proof. solve_decision. Defined.

#[global] Instance pykey_countable : Countable pykey.
Proof.
  refine (inj_countable'
    (fun k => match k with
              | KNone => inl ()
              | KInt n => inr (inl n)
              | KStr s => inr (inr s)
              end)
    (fun x => match x with
              | inl _ => KNone
              | inr (inl n) => KInt n
              | inr (inr s) => KStr s
              end) _).
  by intros [].
Defined.

Definition hash_key (v : json) : result pykey :=
  match v with
  | JNull => Ok KNone
  | JBool b => Ok (KInt (if b then 1 else 0))
  | JNum n => Ok (KInt n)
  | JStr s => Ok (KStr s)
  | JArr _ | JObj _ => Raise TypeError
  end.

(** ** Strings *)

(** [s.replace(old, new)]: every occurrence of [old], leftmost first and
    without overlap.  [skip] counts the characters of a matched occurrence
    still to be passed over. *)
Fixpoint replace_from (old new : string) (skip : nat) (s : string) : string :=
  match s with
  | EmptyString => EmptyString
  | String c s' =>
      match skip with
      | S k => replace_from old new k s'
      | O =>
          if String.prefix old s
          then new +:+ replace_from old new (String.length old - 1) s'
          else String c (replace_from old new 0 s')
      end
  end.

(** With an empty [old], Python puts [new] before every character and at
    the end. *)
Fixpoint intersperse_str (new s : string) : string :=
  match s with
  | EmptyString => new
  | String c s' => new +:+ String c (intersperse_str new s')
  end.

Definition str_replace (s old new : string) : string :=
  match old with
  | EmptyString => intersperse_str new s
  | _ => replace_from old new 0 s
  end.

(** [v.replace(old, new)]: only strings have the method. *)
Definition method_replace (v : json) (old new : string) : result json :=
  match v with
  | JStr s => Ok (JStr (str_replace s old new))
  | _ => Raise AttributeError
  end.

(** ** Prompt augmenter *)

Definition alternative_prompts : list string :=
  [ "Analyze this endoscopic image and describe any pathological findings.";
    "What abnormalities can you identify in this endoscopy image? Provide clinical assessment.";
    "Examine this endoscopic image for lesions. Include classification and recommendations.";
    "Perform a detailed analysis of this endoscopy image, noting any concerning features." ].

Definition baseline_prompt : string :=
  "Analyze this endoscopic image and provide a detailed clinical assessment.".

(** The body of [for alt_prompt in alternative_prompts[:2]]. *)
Fixpoint augment_loop (entry : json) (alts : list string)
    (augmented : list json) : result (list json) :=
  match alts with
  | [] => Ok augmented
  | alt_prompt :: alts' =>
      aug_entry ← py_copy entry;
      prompt ← getitem aug_entry "prompt";
      prompt' ← method_replace prompt baseline_prompt alt_prompt;
      aug_entry' ← setitem aug_entry "prompt" prompt';
      augment_loop entry alts' (augmented ++ [aug_entry'])
  end.

(** The test [entry["metadata"]["category"] != "normal" and
    entry["metadata"]["has_annotations"]]; [and] evaluates its right operand
    only when the left one is true. *)
Definition has_findings (entry : json) : result bool :=
  meta ← getitem entry "metadata";
  category ← getitem meta "category";
  if py_ne_str category "normal" then
    meta' ← getitem entry "metadata";
    has_annotations ← getitem meta' "has_annotations";
    Ok (truthy has_annotations)
  else Ok false.

Definition augment_prompts (entry : json) : result (list json) :=
  base_entry ← py_copy entry;
  let augmented := [base_entry] in
  eligible ← has_findings entry;
  if (eligible : bool)
  then augment_loop entry (take 2 alternative_prompts) augmented
  else Ok augmented.

(** ** Record loader *)

(** The characters of a string: a byte that is not a continuation byte of
    UTF-8 begins a character, and the continuation bytes after it belong
    to it. *)
Definition is_continuation (c : ascii) : bool :=
  let n := N_of_ascii c in ((0x80 <=? n) && (n <? 0xC0))%N.

Definition begins_with_continuation (s : string) : bool :=
  match s with
  | String c _ => is_continuation c
  | EmptyString => false
  end.

Fixpoint chars (s : string) : list string :=
  match s with
  | EmptyString => []
  | String c s' =>
      match chars s' with
      | ch :: rest =>
          if begins_with_continuation ch then String c ch :: rest
          else String c EmptyString :: ch :: rest
      | [] => [String c EmptyString]
      end
  end.

(** [''.join(chars)]. *)
Definition join (parts : list string) : string :=
  foldr String.append EmptyString parts.

Definition continuation_bits (c : ascii) : N := (N_of_ascii c - 0x80)%N.

(** The code point of a character, from the one to four bytes of its
    encoding. *)
Definition code_point (ch : string) : option N :=
  match ch with
  | String a EmptyString =>
      let a := N_of_ascii a in
      if (a <? 0x80)%N then Some a else None
  | String a (String b EmptyString) =>
      let a := N_of_ascii a in
      if ((0xC2 <=? a) && (a <? 0xE0))%N
      then Some ((a - 0xC0) * 0x40 + continuation_bits b)%N
      else None
  | String a (String b (String c EmptyString)) =>
      let a := N_of_ascii a in
      let cp := ((a - 0xE0) * 0x1000 + continuation_bits b * 0x40
                 + continuation_bits c)%N in
      if ((0xE0 <=? a) && (a <? 0xF0) && (0x800 <=? cp))%N
      then Some cp else None
  | String a (String b (String c (String d EmptyString))) =>
      let a := N_of_ascii a in
      let cp := ((a - 0xF0) * 0x40000 + continuation_bits b * 0x1000
                 + continuation_bits c * 0x40 + continuation_bits d)%N in
      if ((0xF0 <=? a) && (a <? 0xF8) && (0x10000 <=? cp)
          && (cp <? 0x110000))%N
      then Some cp else None
  | _ => None
  end.

(** [str.isspace] on a code point: the white space of ASCII (tab to
    carriage return, the separators 1C to 1F and the space) and that of
    Unicode. *)
Definition is_space (cp : N) : bool :=
  ((0x09 <=? cp) && (cp <=? 0x0D) || (0x1C <=? cp) && (cp <=? 0x20)
   || (cp =? 0x85) || (cp =? 0xA0) || (cp =? 0x1680)
   || (0x2000 <=? cp) && (cp <=? 0x200A)
   || (cp =? 0x2028) || (cp =? 0x2029) || (cp =? 0x202F) || (cp =? 0x205F)
   || (cp =? 0x3000))%N.

Definition is_space_char (ch : string) : bool :=
  match code_point ch with
  | Some cp => is_space cp
  | None => false
  end.

Fixpoint lstrip (cs : list string) : list string :=
  match cs with
  | [] => []
  | ch :: cs' => if is_space_char ch then lstrip cs' else cs
  end.

Fixpoint rstrip (cs : list string) : list string :=
  match cs with
  | [] => []
  | ch :: cs' =>
      match rstrip cs' with
      | [] => if is_space_char ch then [] else [ch]
      | r => ch :: r
      end
  end.

(** [s.strip()]: the white-space characters at both ends are removed. *)
Definition strip (s : string) : string := join (rstrip (lstrip (chars s))).

Definition newline : ascii := ascii_of_nat 10.

Definition carriage_return : ascii := ascii_of_nat 13.

(** The text a file opened in text mode hands out: with universal
    newlines, a carriage return and a line feed after it, or a carriage
    return alone, are read as one line feed. *)
Fixpoint universal_newlines (text : string) : string :=
  match text with
  | EmptyString => EmptyString
  | String c text' =>
      if Ascii.eqb c carriage_return then
        match text' with
        | String c' text'' =>
            if Ascii.eqb c' newline
            then String newline (universal_newlines text'')
            else String newline (universal_newlines text')
        | EmptyString => String newline EmptyString
        end
      else String c (universal_newlines text')
  end.

(** The text cut after each line feed: each line keeps its line feed, and
    a last line without one is a line as it is. *)
Fixpoint split_lines (text : string) : list string :=
  match text with
  | EmptyString => []
  | String c text' =>
      if Ascii.eqb c newline then String c EmptyString :: split_lines text'
      else
        match split_lines text' with
        | [] => [String c EmptyString]
        | line :: lines => String c line :: lines
        end
  end.

(** The lines [for line in f] yields on a file whose decoded content is
    [text]. *)
Definition file_lines (text : string) : list string :=
  split_lines (universal_newlines text).

Section Loader.

(** [json.loads], the decoder of the standard library: it returns the
    decoded value or raises [JSONDecodeError]. *)
Variable json_loads : string -> result json.

(** The loop [for line in f: data.append(json.loads(line.strip()))]. *)
Fixpoint load_loop (lines : list string) (data : list json)
  : result (list json) :=
  match lines with
  | [] => Ok data
  | line :: lines' =>
      record ← json_loads (strip line);
      load_loop lines' (data ++ [record])
  end.

Definition load_jsonl (text : string) : result (list json) :=
  load_loop (file_lines text) [].

End Loader.

(** ** Format adapter *)

Definition format_for_training (entry : json) : result json :=
  image_path ← getitem entry "image_path";
  prompt ← getitem entry "prompt";
  response ← getitem entry "response";
  metadata ← getitem entry "metadata";
  Ok (JObj
        [ ("image_path", image_path);
          ("conversations",
            JArr [ JObj [("from", JStr "human"); ("value", prompt)];
                   JObj [("from", JStr "gpt"); ("value", response)] ]);
          ("metadata", metadata) ]).

(** The comprehension [[format_for_training(entry) for entry in data]]. *)
Fixpoint format_all (data : list json) : result (list json) :=
  match data with
  | [] => Ok []
  | entry :: data' =>
      formatted ← format_for_training entry;
      rest ← format_all data';
      Ok (formatted :: rest)
  end.

(** The loop [for entry in data: augmented_data.extend(augment_prompts(entry))]. *)
Fixpoint augment_all (data : list json) (augmented_data : list json)
  : result (list json) :=
  match data with
  | [] => Ok augmented_data
  | entry :: data' =>
      variants ← augment_prompts entry;
      augment_all data' (augmented_data ++ variants)
  end.

(** ** The random module

    The process-wide generator is a stream of draws; [randbelow g n] is the
    next draw reduced below [n], with the rest of the stream. *)

Definition rng : Type := nat -> nat.

Definition randbelow (g : rng) (n : nat) : nat * rng :=
  (g 0 mod n, fun i => g (S i)).

(** The loop [while j in selected: j = randbelow(n)] of [random.sample],
    followed for at most [tries] repeated draws: [None] when the draw is
    still a chosen position after them. *)
Fixpoint redraw (tries n : nat) (selected : gset nat) (j : nat) (g : rng)
  : option nat * rng :=
  if bool_decide (j ∈ selected) then
    match tries with
    | O => (None, g)
    | S tries' =>
        let '(j', g') := randbelow g n in
        redraw tries' n selected j' g'
    end
  else (Some j, g).

Section Random.

Context {A : Type}.

(** [x[i], x[j] = x[j], x[i]]; the shuffle only swaps places inside the
    list. *)
Definition swap (x : list A) (i j : nat) : list A :=
  match x !! i, x !! j with
  | Some a, Some b => <[j := a]> (<[i := b]> x)
  | _, _ => x
  end.

(** [random.shuffle(x)]: [for i in reversed(range(1, len(x)))], with
    [j = randbelow(i + 1)] and the swap of [x[i]] and [x[j]]. *)
Fixpoint shuffle_loop (i : nat) (x : list A) (g : rng) : list A * rng :=
  match i with
  | O => (x, g)
  | S i' =>
      let '(j, g') := randbelow g (S i) in
      shuffle_loop i' (swap x i j) g'
  end.

Definition random_shuffle (x : list A) (g : rng) : list A * rng :=
  shuffle_loop (length x - 1) x g.

(** The selection loop of [random.sample] over a copy [pool] of the
    population, of which the first [m] places are still unchosen:
    [j = randbelow(n - i); result[i] = pool[j]; pool[j] = pool[n - i - 1]]. *)
Fixpoint sample_loop (k m : nat) (pool chosen : list A) (g : rng)
  : result (list A) * rng :=
  match k with
  | O => (Ok chosen, g)
  | S k' =>
      let '(j, g') := randbelow g m in
      match pool !! j, pool !! (m - 1) with
      | Some x, Some y =>
          sample_loop k' (m - 1) (<[j := y]> pool) (chosen ++ [x]) g'
      | _, _ => (Raise IndexError, g')
      end
  end.

(** The threshold [setsize] of [random.sample], which the library computes
    from [k] in floating point ([21], and [4 ** ceil(log(k * 3, 4))] more
    when [k > 5]); and the number of repeated draws a loop [while j in
    selected] is followed for. *)
Variable setsize : Z -> Z.
Variable fuel : nat.

(** The selection loop of [random.sample] for a population larger than
    [setsize]: the chosen positions are kept in the set [selected], and a
    draw that is a chosen position is drawn again:
    [j = randbelow(n); while j in selected: j = randbelow(n);
     selected_add(j); result[i] = population[j]]. *)
Fixpoint sample_set (k n : nat) (population : list A) (selected : gset nat)
    (chosen : list A) (g : rng) : result (list A) * rng :=
  match k with
  | O => (Ok chosen, g)
  | S k' =>
      let '(j, g1) := randbelow g n in
      match redraw fuel n selected j g1 with
      | (Some j', g2) =>
          match population !! j' with
          | Some x =>
              sample_set k' n population ({[j']} ∪ selected) (chosen ++ [x]) g2
          | None => (Raise IndexError, g2)
          end
      | (None, g2) => (Raise Unfinished, g2)
      end
  end.

(** [random.sample(population, k)]: [ValueError] when [k] is negative or
    larger than the population, raised before any draw; then the loop over
    a pool for a population of at most [setsize] records, and the loop over
    the set of chosen positions for a larger one. *)
Definition random_sample (population : list A) (k : Z) (g : rng)
  : result (list A) * rng :=
  let n := length population in
  if ((k <? 0) || (Z.of_nat n <? k))%Z then (Raise ValueError, g)
  else if (Z.of_nat n <=? setsize k)%Z
  then sample_loop (Z.to_nat k) n population [] g
  else sample_set (Z.to_nat k) n population ∅ [] g.

End Random.

(** ** Category balancer *)

(** [category_groups[category].append(entry)] on a [defaultdict(list)]:
    the groups stay in the order their categories were first seen. *)
Fixpoint group_append (category : pykey) (entry : json)
    (groups : list (pykey * list json)) : list (pykey * list json) :=
  match groups with
  | [] => [(category, [entry])]
  | (c, entries) :: groups' =>
      if decide (c = category) then (c, entries ++ [entry]) :: groups'
      else (c, entries) :: group_append category entry groups'
  end.

Fixpoint group_by_category (data : list json)
    (category_groups : list (pykey * list json))
  : result (list (pykey * list json)) :=
  match data with
  | [] => Ok category_groups
  | entry :: data' =>
      meta ← getitem entry "metadata";
      category ← getitem meta "category";
      key ← hash_key category;
      group_by_category data' (group_append key entry category_groups)
  end.

(** [max_per_category] is [None] or an integer; [if max_per_category:] is
    false for [None] and for [0]. *)
Definition cap_set (max_per_category : option Z) : option Z :=
  match max_per_category with
  | Some c => if (c =? 0)%Z then None else Some c
  | None => None
  end.

Section Balancer.

Variable setsize : Z -> Z.
Variable fuel : nat.

(** The loop [for category, entries in category_groups.items()]. *)
Fixpoint balance_loop (groups : list (pykey * list json)) (cap : Z)
    (balanced_data : list json) (g : rng) : result (list json) * rng :=
  match groups with
  | [] => (Ok balanced_data, g)
  | (category, entries) :: groups' =>
      if (cap <? Z.of_nat (length entries))%Z then
        match random_sample setsize fuel entries cap g with
        | (Ok sampled, g') =>
            balance_loop groups' cap (balanced_data ++ sampled) g'
        | (Raise e, g') => (Raise e, g')
        end
      else balance_loop groups' cap (balanced_data ++ entries) g
  end.

Definition balance_dataset (data : list json) (max_per_category : option Z)
    (g : rng) : result (list json) * rng :=
  match group_by_category data [] with
  | Raise e => (Raise e, g)
  | Ok category_groups =>
      match cap_set max_per_category with
      | Some cap => balance_loop category_groups cap [] g
      | None => (Ok data, g)
      end
  end.

End Balancer.

(** ** Statistics aggregator *)

(** [counts[key] += 1] on a [defaultdict(int)]. *)
Definition incr (key : pykey) (counts : gmap pykey nat) : gmap pykey nat :=
  <[key := S (default 0 (counts !! key))]> counts.

Record stats := {
  total_entries : nat;
  unique_images : nat;
  category_distribution : gmap pykey nat;
  age_distribution : gmap pykey nat;
  sex_distribution : gmap pykey nat;
  procedure_types : gmap pykey nat
}.

(** [set(entry["image_path"] for entry in formatted_data)]. *)
Fixpoint image_paths (formatted_data : list json) : result (gset pykey) :=
  match formatted_data with
  | [] => Ok ∅
  | entry :: rest =>
      image_path ← getitem entry "image_path";
      key ← hash_key image_path;
      paths ← image_paths rest;
      Ok ({[key]} ∪ paths)
  end.

(** One round of the loop [for entry in formatted_data] over the four
    counters. *)
Definition count_entry (entry : json) (s : stats) : result stats :=
  meta ← getitem entry "metadata";
  category ← getitem meta "category";
  category_key ← hash_key category;
  age_range ← getitem meta "age_range";
  age_key ← hash_key age_range;
  sex ← getitem meta "sex";
  sex_key ← hash_key sex;
  procedure ← dict_get meta "procedure_type";
  procedure_types' ←
    (if truthy procedure then
       procedure_type ← getitem meta "procedure_type";
       procedure_key ← hash_key procedure_type;
       Ok (incr procedure_key (procedure_types s))
     else Ok (procedure_types s));
  Ok {| total_entries := total_entries s;
        unique_images := unique_images s;
        category_distribution := incr category_key (category_distribution s);
        age_distribution := incr age_key (age_distribution s);
        sex_distribution := incr sex_key (sex_distribution s);
        procedure_types := procedure_types' |}.

Fixpoint count_loop (formatted_data : list json) (s : stats) : result stats :=
  match formatted_data with
  | [] => Ok s
  | entry :: rest =>
      s' ← count_entry entry s;
      count_loop rest s'
  end.

(** The statistics of lines 134 to 151: the [stats] literal, then the
    counting loop. *)
Definition compute_stats (formatted_data : list json) : result stats :=
  paths ← image_paths formatted_data;
  count_loop formatted_data
    {| total_entries := length formatted_data;
       unique_images := size paths;
       category_distribution := ∅;
       age_distribution := ∅;
       sex_distribution := ∅;
       procedure_types := ∅ |}.

(** ** Pipeline orchestrator *)

(** The two output files of a run, in the order they are written: the
    records whose lines the formatted file holds, and the report. *)
Inductive event :=
  | WriteFormatted (formatted_data : list json)
  | WriteStats (s : stats).

(** The state a run threads through its steps: the random stream and the
    files written so far. *)
Record world := {
  random : rng;
  written : list event
}.

Definition run (A : Type) : Type := world -> result A * world.

Definition run_ret {A} (a : A) : run A := fun w => (Ok a, w).

Definition run_bind {A B} (m : run A) (f : A -> run B) : run B :=
  fun w =>
    match m w with
    | (Ok a, w') => f a w'
    | (Raise e, w') => (Raise e, w')
    end.

Notation "x ←← m ;; k" := (run_bind m (fun x => k))
  (at level 100, m at next level, k at level 200, right associativity,
   only parsing).

(** A computation that only returns or raises. *)
Definition lift {A} (r : result A) : run A := fun w => (r, w).

(** A computation that draws from the random stream. *)
Definition with_random {A} (f : rng -> result A * rng) : run A :=
  fun w =>
    let '(r, g') := f (random w) in
    (r, {| random := g'; written := written w |}).

(** A string with a surrogate: a character from D800 to DFFF. *)
Definition is_surrogate (ch : string) : bool :=
  match code_point ch with
  | Some cp => ((0xD800 <=? cp) && (cp <=? 0xDFFF))%N
  | None => false
  end.

Definition has_surrogate (s : string) : bool := existsb is_surrogate (chars s).

(** The text [json.dumps(entry, ensure_ascii=False)] holds the strings of
    the entry, keys and values, as they are; a file opened with
    [encoding='utf-8'] can encode it unless one of them has a surrogate. *)
Fixpoint encodable (v : json) : bool :=
  match v with
  | JStr s => negb (has_surrogate s)
  | JArr l =>
      (fix all (l : list json) : bool :=
         match l with
         | [] => true
         | x :: l' => encodable x && all l'
         end) l
  | JObj d =>
      (fix all (d : list (string * json)) : bool :=
         match d with
         | [] => true
         | (k, x) :: d' => negb (has_surrogate k) && encodable x && all d'
         end) d
  | JNull | JBool _ | JNum _ => true
  end.

(** The loop [for entry in formatted_data: f.write(json.dumps(entry,
    ensure_ascii=False) + '\n')]: a line that cannot be encoded raises
    [UnicodeEncodeError], and the file keeps the lines written before it. *)
Fixpoint write_lines (formatted_data : list json) (file : list json)
  : result unit * list json :=
  match formatted_data with
  | [] => (Ok tt, file)
  | entry :: rest =>
      if encodable entry then write_lines rest (file ++ [entry])
      else (Raise UnicodeEncodeError, file)
  end.

(** [with open(output_file, 'w', encoding='utf-8') as f: ...] around that
    loop: the file is there, with the lines written, also when the loop
    raises. *)
Definition write_formatted (formatted_data : list json) : run unit :=
  fun w =>
    let '(r, file) := write_lines formatted_data [] in
    (r, {| random := random w;
           written := written w ++ [WriteFormatted file] |}).

(** [with open(stats_file, 'w', encoding='utf-8') as f: json.dump(...)]:
    [json.dump] writes ASCII only. *)
Definition write_file (e : event) : run unit :=
  fun w => (Ok tt, {| random := random w; written := written w ++ [e] |}).

Section Pipeline.

Variable json_loads : string -> result json.
Variable setsize : Z -> Z.
Variable fuel : nat.

Definition prepare_dataset (input_text : string)
    (augment balance : bool) (max_per_category : option Z)
  : run (nat * nat) :=
  data ←← lift (load_jsonl json_loads input_text) ;;
  data ←←
    (if balance
     then with_random (balance_dataset setsize fuel data max_per_category)
     else run_ret data) ;;
  data ←←
    (if augment then lift (augment_all data []) else run_ret data) ;;
  formatted_data ←← lift (format_all data) ;;
  formatted_data ←←
    with_random (fun g =>
      let '(x, g') := random_shuffle formatted_data g in (Ok x, g')) ;;
  _ ←← write_formatted formatted_data ;;
  s ←← lift (compute_stats formatted_data) ;;
  _ ←← write_file (WriteStats s) ;;
  run_ret (total_entries s, unique_images s).

End Pipeline.

(** ** Vocabulary of the properties *)

(** [old in s]: [old] occurs in [s] as a substring. *)
Fixpoint contains (old s : string) : bool :=
  String.prefix old s ||
  match s with
  | EmptyString => false
  | String _ s' => contains old s'
  end.

(** In [pre ++ old ++ post], the occurrence of [old] after [pre] is the
    leftmost one. *)
Definition first_at (old pre post : string) : Prop :=
  forall a b, pre = a +:+ b -> b <> "" ->
    String.prefix old (b +:+ old +:+ post) = false.

(** A raw record with the fields of the data model. *)
Definition raw_record (image_path prompt response : string)
    (metadata : list (string * json)) : json :=
  JObj [ ("image_path", JStr image_path);
         ("prompt", JStr prompt);
         ("response", JStr response);
         ("metadata", JObj metadata) ].

Definition metadata_of (category age_range sex : string)
    (has_annotations : bool) : list (string * json) :=
  [ ("category", JStr category);
    ("age_range", JStr age_range);
    ("sex", JStr sex);
    ("has_annotations", JBool has_annotations) ].

(** An annotated polyp record whose prompt is the baseline instruction
    followed by one more sentence. *)
Definition wordy_prompt : string :=
  baseline_prompt +:+ " Be brief.".

Definition wordy_record : json :=
  raw_record "img/0001.jpg" wordy_prompt "Sessile polyp, 6 mm."
    (metadata_of "polyp" "50-59" "F" true).

(** The variant of a record for one alternative instruction. *)
Definition variant_of (d : list (string * json)) (prompt alt : string) : json :=
  JObj (dict_set "prompt" (JStr (str_replace prompt baseline_prompt alt)) d).

(** ** A decoder for concrete files

    The theorems below hold for every decoder; the concrete runs use this
    one. *)

Definition quote : ascii := ascii_of_nat 34.

Definition is_json_space (c : ascii) : bool :=
  let n := nat_of_ascii c in
  (n =? 32) || (n =? 9) || (n =? 10) || (n =? 13).

Fixpoint skip_space (s : string) : string :=
  match s with
  | EmptyString => EmptyString
  | String c s' => if is_json_space c then skip_space s' else s
  end.

(** The text after the prefix [lit], if [s] starts with it. *)
Fixpoint after_prefix (lit s : string) : option string :=
  match lit, s with
  | EmptyString, _ => Some s
  | String a lit', String b s' =>
      if Ascii.eqb a b then after_prefix lit' s' else None
  | _, _ => None
  end.

Definition digit_of (c : ascii) : option Z :=
  let n := nat_of_ascii c in
  if (48 <=? n) && (n <=? 57) then Some (Z.of_nat (n - 48)) else None.

Fixpoint scan_digits (acc : Z) (s : string) : Z * string :=
  match s with
  | EmptyString => (acc, s)
  | String c s' =>
      match digit_of c with
      | Some d => scan_digits (10 * acc + d) s'
      | None => (acc, s)
      end
  end.

Fixpoint skip_digits (s : string) : string :=
  match s with
  | EmptyString => EmptyString
  | String c s' =>
      match digit_of c with
      | Some _ => skip_digits s'
      | None => s
      end
  end.

(** An integer without a sign and without a leading zero; a fraction or an
    exponent after it is outside the fragment. *)
Definition scan_natural (s : string) : option (Z * string) :=
  match s with
  | String c s' =>
      match digit_of c with
      | Some _ =>
          let '(n, rest) := scan_digits 0 s in
          match rest with
          | String "." _ | String "e" _ | String "E" _ => None
          | _ =>
              if Ascii.eqb c "0" && negb (String.eqb (skip_digits s') s')
              then None else Some (n, rest)
          end
      | None => None
      end
  | EmptyString => None
  end.

Definition hex_digit (c : ascii) : option N :=
  let n := N_of_ascii c in
  if ((0x30 <=? n) && (n <=? 0x39))%N then Some (n - 0x30)%N
  else if ((0x41 <=? n) && (n <=? 0x46))%N then Some (n - 0x41 + 10)%N
  else if ((0x61 <=? n) && (n <=? 0x66))%N then Some (n - 0x61 + 10)%N
  else None.

Definition hex4 (a b c d : ascii) : option N :=
  x ← hex_digit a; y ← hex_digit b; z ← hex_digit c; t ← hex_digit d;
  Some (((x * 16 + y) * 16 + z) * 16 + t)%N.

(** The bytes of a code point below 10000. *)
Definition utf8_of (cp : N) : string :=
  if (cp <? 0x80)%N then String (ascii_of_N cp) EmptyString
  else if (cp <? 0x800)%N then
    String (ascii_of_N (0xC0 + cp / 0x40))
      (String (ascii_of_N (0x80 + cp mod 0x40)) EmptyString)
  else
    String (ascii_of_N (0xE0 + cp / 0x1000))
      (String (ascii_of_N (0x80 + (cp / 0x40) mod 0x40))
         (String (ascii_of_N (0x80 + cp mod 0x40)) EmptyString)).

Definition is_high_surrogate (cp : N) : bool :=
  ((0xD800 <=? cp) && (cp <=? 0xDBFF))%N.

(** The characters of a string literal up to its closing quote.  The
    escape of a code point by its four hexadecimal digits is decoded, that
    of a surrogate too, unless another such escape follows a high
    surrogate; the other escapes and the control characters are outside
    the fragment. *)
Fixpoint scan_string (s : string) : option (string * string) :=
  match s with
  | EmptyString => None
  | String c s' =>
      if Ascii.eqb c quote then Some (EmptyString, s')
      else if Ascii.eqb c "\" then
        match s' with
        | String "u" (String h1 (String h2 (String h3 (String h4 s'')))) =>
            match hex4 h1 h2 h3 h4 with
            | Some cp =>
                if is_high_surrogate cp && String.prefix "\u" s'' then None
                else
                  match scan_string s'' with
                  | Some (body, rest) => Some (utf8_of cp +:+ body, rest)
                  | None => None
                  end
            | None => None
            end
        | _ => None
        end
      else if (nat_of_ascii c <? 32) then None
      else
        match scan_string s' with
        | Some (body, rest) => Some (String c body, rest)
        | None => None
        end
  end.

Fixpoint scan_value (fuel : nat) (s : string) : option (json * string) :=
  match fuel with
  | O => None
  | S fuel' =>
      match skip_space s with
      | String "n" _ => rest ← after_prefix "null" (skip_space s); Some (JNull, rest)
      | String "t" _ => rest ← after_prefix "true" (skip_space s); Some (JBool true, rest)
      | String "f" _ => rest ← after_prefix "false" (skip_space s); Some (JBool false, rest)
      | String "-" s' => '(n, rest) ← scan_natural s'; Some (JNum (- n), rest)
      | String "[" s' =>
          match skip_space s' with
          | String "]" rest => Some (JArr [], rest)
          | _ => scan_elements fuel' s' []
          end
      | String "{" s' =>
          match skip_space s' with
          | String "}" rest => Some (JObj [], rest)
          | _ => scan_members fuel' s' []
          end
      | String c s' =>
          if Ascii.eqb c quote
          then '(body, rest) ← scan_string s'; Some (JStr body, rest)
          else '(n, rest) ← scan_natural (String c s'); Some (JNum n, rest)
      | EmptyString => None
      end
  end
with scan_elements (fuel : nat) (s : string) (acc : list json)
  : option (json * string) :=
  match fuel with
  | O => None
  | S fuel' =>
      '(v, rest) ← scan_value fuel' s;
      match skip_space rest with
      | String "," rest' => scan_elements fuel' rest' (acc ++ [v])
      | String "]" rest' => Some (JArr (acc ++ [v]), rest')
      | _ => None
      end
  end
with scan_members (fuel : nat) (s : string) (acc : list (string * json))
  : option (json * string) :=
  match fuel with
  | O => None
  | S fuel' =>
      match skip_space s with
      | String c s' =>
          if Ascii.eqb c quote then
            '(key, rest) ← scan_string s';
            match skip_space rest with
            | String ":" rest' =>
                '(v, rest'') ← scan_value fuel' rest';
                match skip_space rest'' with
                | String "," rest3 => scan_members fuel' rest3 (dict_set key v acc)
                | String "}" rest3 => Some (JObj (dict_set key v acc), rest3)
                | _ => None
                end
            | _ => None
            end
          else None
      | EmptyString => None
      end
  end.

(** [json.loads] on the fragment of JSON without reals and with the one
    form of escape above: one value, with nothing but white space around
    it. *)
Definition decode_json (s : string) : result json :=
  match scan_value (S (String.length s)) s with
  | Some (v, rest) =>
      match skip_space rest with
      | EmptyString => Ok v
      | _ => Raise JSONDecodeError
      end
  | None => Raise JSONDecodeError
  end.

Definition quoted (s : string) : string :=
  String quote s +:+ String quote EmptyString.

(** The text [json.dumps] gives for a value of the fragment. *)
Fixpoint encode_json (v : json) : string :=
  match v with
  | JNull => "null"
  | JBool true => "true"
  | JBool false => "false"
  | JNum n => pretty n
  | JStr s => quoted s
  | JArr l =>
      "[" +:+
      match l with
      | [] => ""
      | x :: l' =>
          encode_json x +:+
          (fix rest (l : list json) : string :=
             match l with
             | [] => ""
             | y :: l'' => ", " +:+ encode_json y +:+ rest l''
             end) l'
      end +:+ "]"
  | JObj d =>
      "{" +:+
      match d with
      | [] => ""
      | (k, x) :: d' =>
          quoted k +:+ ": " +:+ encode_json x +:+
          (fix rest (d : list (string * json)) : string :=
             match d with
             | [] => ""
             | (k', y) :: d'' =>
                 ", " +:+ quoted k' +:+ ": " +:+ encode_json y +:+ rest d''
             end) d'
      end +:+ "}"
  end.

(** A JSONL file: one line per record. *)
Fixpoint jsonl_text (records : list json) : string :=
  match records with
  | [] => ""
  | r :: records' =>
      encode_json r +:+ String newline EmptyString +:+ jsonl_text records'
  end.

(** A file of three lines, the second one empty. *)
Definition blank_line_text : string :=
  "{}" +:+ String newline (String newline ("{}" +:+ String newline "")).

(** The line [line] of a file decodes to the record [r]. *)
Definition decodes (json_loads : string -> result json)
    (line : string) (r : json) : Prop :=
  json_loads (strip line) = Ok r.

(** The key under which the set of image paths holds an entry. *)
Definition image_key (entry : json) : result pykey :=
  image_path ← getitem entry "image_path";
  hash_key image_path.

(** The keys one entry adds to the counters: its category, age range and
    sex, and its procedure type when that is counted. *)
Definition counted_keys (entry : json)
  : result (pykey * pykey * pykey * option pykey) :=
  meta ← getitem entry "metadata";
  category ← getitem meta "category";
  category_key ← hash_key category;
  age_range ← getitem meta "age_range";
  age_key ← hash_key age_range;
  sex ← getitem meta "sex";
  sex_key ← hash_key sex;
  procedure ← dict_get meta "procedure_type";
  procedure_key ←
    (if truthy procedure then
       procedure_type ← getitem meta "procedure_type";
       key ← hash_key procedure_type;
       Ok (Some key)
     else Ok None);
  Ok (category_key, age_key, sex_key, procedure_key).

Definition add_counts (keys : pykey * pykey * pykey * option pykey)
    (s : stats) : stats :=
  let '(category_key, age_key, sex_key, procedure_key) := keys in
  {| total_entries := total_entries s;
     unique_images := unique_images s;
     category_distribution := incr category_key (category_distribution s);
     age_distribution := incr age_key (age_distribution s);
     sex_distribution := incr sex_key (sex_distribution s);
     procedure_types :=
       match procedure_key with
       | Some key => incr key (procedure_types s)
       | None => procedure_types s
       end |}.

(** The value stored under [metadata.procedure_type], if the key is there. *)
Definition procedure_of (entry : json) : option json :=
  match entry with
  | JObj d =>
      match dict_lookup "metadata" d with
      | Some (JObj m) => dict_lookup "procedure_type" m
      | _ => None
      end
  | _ => None
  end.

(** The entry has a truthy procedure type, and its key is [key]. *)
Definition has_procedure (key : pykey) (entry : json) : bool :=
  match procedure_of entry with
  | Some v =>
      truthy v &&
      match hash_key v with
      | Ok k => bool_decide (k = key)
      | Raise _ => false
      end
  | None => false
  end.

(** The entry with the key [procedure_type] removed from its metadata. *)
Definition without_procedure (d m : list (string * json)) : json :=
  JObj (dict_set "metadata" (JObj (dict_del "procedure_type" m)) d).

(** The key under which the balancer files an entry. *)
Definition category_key (entry : json) : result pykey :=
  meta ← getitem entry "metadata";
  category ← getitem meta "category";
  hash_key category.

(** The entry belongs to the category [key]. *)
Definition in_category (key : pykey) (entry : json) : bool :=
  match category_key entry with
  | Ok k => bool_decide (k = key)
  | Raise _ => false
  end.

(** A world in which nothing is written yet and every draw is 0. *)
Definition still_world : world :=
  {| random := fun _ => 0; written := [] |}.

(** A record whose metadata lacks the required [age_range]. *)
Definition no_age_record : json :=
  raw_record "img/0002.jpg" baseline_prompt "Normal mucosa."
    [ ("category", JStr "normal"); ("sex", JStr "M");
      ("has_annotations", JBool false) ].

(** The records of the end-to-end scenario: two annotated polyps with the
    baseline prompt, one normal record and one ulcer without annotations. *)
Definition scenario (i1 i2 i3 i4 r1 r2 r3 r4 a1 a2 a3 a4 x1 x2 x3 x4 p3 p4
    : string) (h3 : bool) : list json :=
  [ raw_record i1 baseline_prompt r1 (metadata_of "polyp" a1 x1 true);
    raw_record i2 baseline_prompt r2 (metadata_of "polyp" a2 x2 true);
    raw_record i3 p3 r3 (metadata_of "normal" a3 x3 h3);
    raw_record i4 p4 r4 (metadata_of "ulcer" a4 x4 false) ].

Definition scenario_example : list json :=
  scenario "img/p1.jpg" "img/p2.jpg" "img/n1.jpg" "img/u1.jpg"
    "Sessile polyp, 6 mm." "Pedunculated polyp." "Normal mucosa."
    "Gastric ulcer, Forrest III."
    "50-59" "60-69" "40-49" "70-79" "F" "M" "F" "M"
    baseline_prompt baseline_prompt false.

(** The groups hold the records [data], each category under one key, in
    the order of [data], and no group is empty. *)
Definition grouped (data : list json) (groups : list (pykey * list json))
  : Prop :=
  NoDup (map fst groups) /\
  Forall (fun group => snd group <> []) groups /\
  Forall (fun group =>
    snd group = List.filter (in_category (fst group)) data) groups /\
  (forall key, key ∉ map fst groups ->
     List.filter (in_category key) data = []).

(** What the balancer keeps of one category under the cap [cap]: exactly
    [cap] of its records, none of them twice, when the category has more
    than [cap] records, and all of its records otherwise. *)
Definition kept_of (cap : Z) (entries kept : list json) : Prop :=
  if (cap <? Z.of_nat (length entries))%Z
  then length kept = Z.to_nat cap /\ kept ⊆+ entries
  else kept = entries.

(** The records of a population, each with its position. *)
Definition tagged {A} (population : list A) : list (nat * A) :=
  imap (fun i x => (i, x)) population.

(** The keys of a list in the order of their first occurrence. *)
Fixpoint first_seen (keys : list pykey) : list pykey :=
  match keys with
  | [] => []
  | k :: keys' => k :: filter (fun k' => k' <> k) (first_seen keys')
  end.

(** The sum of the counts of a distribution. *)
Definition counts_sum (counts : gmap pykey nat) : nat :=
  map_fold (fun _ n total => n + total) 0 counts.

(** The entry a distribution holds for a key counted [n] times: none for
    a key never counted. *)
Definition count_entry_of (n : nat) : option nat :=
  match n with
  | O => None
  | S _ => Some n
  end.

Fixpoint last_char (s : string) : option ascii :=
  match s with
  | EmptyString => None
  | String c s' =>
      match s' with
      | EmptyString => Some c
      | String _ _ => last_char s'
      end
  end.

(** The text ends in a line without its line feed. *)
Definition unterminated (text : string) : bool :=
  match last_char text with
  | Some c => negb (Ascii.eqb c newline)
  | None => false
  end.

(** The threshold [setsize] of [random.sample] in exact arithmetic: what
    the library computes for every sample size whose logarithm it rounds
    as exact arithmetic does, those below [4 ^ 24 / 3] among them. *)
Definition table_setsize (k : Z) : Z :=
  (21 + if 5 <? k then 4 ^ ((Z.log2_up (k * 3) + 1) / 2) else 0)%Z.

(** The records [records] are those at the positions [positions] of the
    population. *)
Definition records_at {A} (population : list A) (positions : list nat)
    (records : list A) : Prop :=
  Forall2 (fun i x => population !! i = Some x) positions records.

(** The outcome of a sample of the images of a population under [f]. *)
Definition map_outcome {A B} (f : A -> B) (r : result (list A) * rng)
  : result (list B) * rng :=
  (match r.1 with Ok l => Ok (f <$> l) | Raise e => Raise e end, r.2).

(** The first [d] draws of a stream, each reduced below [n]. *)
Definition draws_below (n d : nat) (g : rng) : list nat :=
  map (fun i => g i mod n) (seq 0 d).

(** The values of a list of draws in the order of their first
    occurrence. *)
Fixpoint first_drawn (draws : list nat) : list nat :=
  match draws with
  | [] => []
  | j :: draws' => j :: filter (fun j' => j' <> j) (first_drawn draws')
  end.

(** The stream [g'] is the stream [g] after [d] draws. *)
Definition after_draws (d : nat) (g g' : rng) : Prop :=
  forall i, g' i = g (d + i).

(** A stream on which every loop [while j in selected] of a sample of [k]
    positions below [n] comes to an end within [tries] repeated draws:
    wherever the loop starts, one of the next [tries] draws is outside any
    set of fewer than [k] positions. *)
Definition varied (tries n k : nat) (g : rng) : Prop :=
  forall i (selected : gset nat),
    size selected < k ->
    exists d, d < tries /\ g (i + d) mod n ∉ selected.

(** The turns of the balancer over the categories [groups], from the
    stream [g] to the stream [g']: a category with more than [cap] records
    is sampled with the draws that come next, another one is kept as it
    is. *)
Fixpoint sampled_in_turn (setsize : Z -> Z) (fuel : nat) (cap : Z)
    (groups kept : list (list json)) (g g' : rng) : Prop :=
  match groups, kept with
  | [], [] => g' = g
  | entries :: groups', sel :: kept' =>
      if (cap <? Z.of_nat (length entries))%Z
      then exists g1,
             random_sample setsize fuel entries cap g = (Ok sel, g1) /\
             sampled_in_turn setsize fuel cap groups' kept' g1 g'
      else sel = entries /\
           sampled_in_turn setsize fuel cap groups' kept' g g'
  | _, _ => False
  end.

(** The balancer comes to the end of its draws on the stream [g]: every
    category with more than [cap] records has at most [setsize] records,
    or the stream is varied enough for a sample of [cap] of them. *)
Definition sampling_ends (setsize : Z -> Z) (fuel : nat) (cap : Z)
    (data : list json) (g : rng) : Prop :=
  forall key,
    let n := length (List.filter (in_category key) data) in
    (cap < Z.of_nat n)%Z ->
    (Z.of_nat n <= setsize cap)%Z \/ varied fuel n (Z.to_nat cap) g.

(** The lines of the formatted file when the write loop is left: all of
    them, or those before the first record that cannot be encoded. *)
Fixpoint encodable_prefix (formatted_data : list json) : list json :=
  match formatted_data with
  | [] => []
  | entry :: rest =>
      if encodable entry then entry :: encodable_prefix rest else []
  end.

(** The stages of a run before the shuffle: the formatted records, or the
    exception one of the four stages raises, with the stream they leave. *)
Definition formatted_records (json_loads : string -> result json)
    (setsize : Z -> Z) (fuel : nat) (input_text : string)
    (augment balance : bool) (max_per_category : option Z) (g : rng)
  : result (list json) * rng :=
  match load_jsonl json_loads input_text with
  | Raise e => (Raise e, g)
  | Ok data =>
      match (if balance
             then balance_dataset setsize fuel data max_per_category g
             else (Ok data, g)) with
      | (Raise e, g1) => (Raise e, g1)
      | (Ok data1, g1) =>
          match (if augment then augment_all data1 [] else Ok data1) with
          | Raise e => (Raise e, g1)
          | Ok data2 => (format_all data2, g1)
          end
      end
  end.

(** The escape of a lone surrogate, as a file holds it, and the string
    [json.loads] makes of it. *)
Definition surrogate_escape : string := "\ud800".

Definition lone_surrogate : string := utf8_of 0xD800.

(** The file of the scenario with that escape as the response of its first
    record. *)
Definition surrogate_text : string :=
  jsonl_text
    (scenario "img/p1.jpg" "img/p2.jpg" "img/n1.jpg" "img/u1.jpg"
       surrogate_escape "Pedunculated polyp." "Normal mucosa."
       "Gastric ulcer, Forrest III."
       "50-59" "60-69" "40-49" "70-79" "F" "M" "F" "M"
       baseline_prompt baseline_prompt false).
(** * Properties *)

(** ** Dicts and strings *)

Lemma dict_lookup_set k v d : dict_lookup k (dict_set k v d) = Some v.
Proof.
  induction d as [|[k' v'] d IH]; simpl.
  - by rewrite String.eqb_refl.
  - destruct (String.eqb k k') eqn:E; simpl; rewrite ?String.eqb_refl, ?E; done.
Qed.

Lemma dict_lookup_set_ne k k' v d :
  k <> k' -> dict_lookup k' (dict_set k v d) = dict_lookup k' d.
Proof.
  intros Hne. induction d as [|[k0 v0] d IH]; simpl.
  - by destruct (String.eqb_spec k' k) as [->|].
  - destruct (String.eqb_spec k k0) as [->|]; simpl.
    + by destruct (String.eqb_spec k' k0) as [->|].
    + by rewrite IH.
Qed.

Lemma dict_lookup_del k d : dict_lookup k (dict_del k d) = None.
Proof.
  induction d as [|[k' v'] d IH]; simpl; [done|].
  destruct (String.eqb k k') eqn:E; simpl; by rewrite ?E.
Qed.

Lemma dict_lookup_del_ne k k' d :
  k <> k' -> dict_lookup k' (dict_del k d) = dict_lookup k' d.
Proof.
  intros Hne. induction d as [|[k0 v0] d IH]; simpl; [done|].
  destruct (String.eqb_spec k k0) as [->|]; simpl.
  - by destruct (String.eqb_spec k' k0) as [->|].
  - by rewrite IH.
Qed.

Lemma py_ne_str_true v s : py_ne_str v s = true <-> v <> JStr s.
Proof.
  destruct v; simpl; try (split; [discriminate | reflexivity]).
  destruct (String.eqb_spec s0 s) as [->|Hne]; simpl.
  - split; [discriminate | congruence].
  - split; [by intros _ [= ?] | done].
Qed.

Lemma append_cons c (s t : string) : String c s +:+ t = String c (s +:+ t).
Proof. reflexivity. Qed.

Lemma append_empty_r s : s +:+ "" = s.
Proof. induction s as [|c s IH]; [done | by rewrite append_cons, IH]. Qed.

Lemma prefix_append old s : String.prefix old (old +:+ s) = true.
Proof.
  induction old as [|c old IH]; [by destruct s|].
  rewrite append_cons. simpl. by destruct (Ascii.ascii_dec c c).
Qed.

Lemma prefix_split old s :
  String.prefix old s = true -> exists post, s = old +:+ post.
Proof.
  revert s. induction old as [|c old IH]; intros s H.
  - by exists s.
  - destruct s as [|b s]; [done|]. simpl in H.
    destruct (Ascii.ascii_dec c b) as [->|]; [|done].
    destruct (IH _ H) as [post ->]. by exists post.
Qed.

Lemma get_append_l k (s t : string) a :
  String.get k s = Some a -> String.get k (s +:+ t) = Some a.
Proof.
  revert k. induction s as [|c s IH]; intros [|k] H;
    rewrite ?append_cons; simpl in *; auto; done.
Qed.

(** Once an occurrence is matched, the scan resumes after it. *)
Lemma replace_from_skip old new x s :
  replace_from old new (String.length x) (x +:+ s) = replace_from old new 0 s.
Proof. induction x as [|c x IH]; [done | by rewrite append_cons]. Qed.

Lemma replace_from_skip_all old new x :
  replace_from old new (String.length x) x = "".
Proof.
  rewrite <- (append_empty_r x) at 2. by rewrite replace_from_skip.
Qed.

Lemma replace_from_absent old new s :
  contains old s = false -> replace_from old new 0 s = s.
Proof.
  induction s as [|c s IH]; [done|].
  cbn [contains replace_from]. intros [Hp Hc]%orb_false_iff.
  rewrite Hp. by rewrite IH.
Qed.

(** A string without the pattern is returned as it is. *)
Lemma str_replace_absent s old new :
  contains old s = false -> str_replace s old new = s.
Proof.
  destruct old as [|c old]; [by destruct s|]. apply replace_from_absent.
Qed.

(** The pattern itself is replaced by the new text. *)
Lemma str_replace_exact old new :
  old <> "" -> str_replace old old new = new.
Proof.
  destruct old as [|c old]; [done|]. intros _. unfold str_replace.
  cbn [replace_from]. rewrite <- (append_empty_r (String c old)) at 2.
  rewrite prefix_append. cbn [String.length]. rewrite Nat.sub_1_r.
  simpl Nat.pred. rewrite replace_from_skip_all. apply append_empty_r.
Qed.

(** The leftmost occurrence is replaced and the scan goes on after it. *)
Lemma replace_from_first old new pre post :
  old <> "" -> first_at old pre post ->
  replace_from old new 0 (pre +:+ old +:+ post)
  = pre +:+ new +:+ replace_from old new 0 post.
Proof.
  intros Hold. induction pre as [|c pre IH]; intros Hfirst.
  - destruct old as [|c old]; [done|].
    change ("" +:+ ?x) with x. rewrite append_cons. cbn [replace_from].
    rewrite <- append_cons, prefix_append. cbn [String.length].
    rewrite Nat.sub_1_r. simpl Nat.pred. by rewrite replace_from_skip.
  - rewrite !append_cons. cbn [replace_from].
    rewrite <- append_cons, (Hfirst "" (String c pre)) by done.
    f_equal. apply IH.
    intros a b -> Hb. apply (Hfirst (String c a) b); done.
Qed.

Lemma contains_first old s :
  contains old s = true ->
  exists pre post, s = pre +:+ old +:+ post /\ first_at old pre post.
Proof.
  induction s as [|c s IH]; cbn [contains].
  - rewrite orb_false_r. intros [post ->]%prefix_split.
    exists "", post. split; [done|]. intros a b Hab Hb. by destruct a, b.
  - destruct (String.prefix old (String c s)) eqn:Hp.
    + intros _. destruct (prefix_split _ _ Hp) as [post ->].
      exists "", post. split; [done|]. intros a b Hab Hb. by destruct a, b.
    + simpl. intros (pre & post & -> & Hfirst)%IH.
      exists (String c pre), post. split; [done|].
      intros [|x a] b Hab Hb.
      * change ("" +:+ b) with b in Hab. subst b. by rewrite append_cons.
      * rewrite append_cons in Hab. injection Hab as -> ->.
        by apply (Hfirst a b).
Qed.

(** A string with the pattern comes out changed, when the new text differs
    from the pattern at some position. *)
Lemma str_replace_present s old new k a b :
  String.get k old = Some a -> String.get k new = Some b -> a <> b ->
  contains old s = true -> str_replace s old new <> s.
Proof.
  intros Ha Hb Hab (pre & post & -> & Hfirst)%contains_first.
  assert (old <> "") as Hold by (intros ->; by destruct k).
  replace (str_replace (pre +:+ old +:+ post) old new)
    with (replace_from old new 0 (pre +:+ old +:+ post)) by (by destruct old).
  rewrite replace_from_first by done.
  intros Heq%(inj (String.append pre)).
  apply (f_equal (String.get k)) in Heq.
  rewrite (get_append_l _ _ _ _ Ha), (get_append_l _ _ _ _ Hb) in Heq.
  congruence.
Qed.

(** ** Prompt augmenter *)

Lemma getitem_obj d k v :
  dict_lookup k d = Some v -> getitem (JObj d) k = Ok v.
Proof. intros H. unfold getitem. by rewrite H. Qed.

Lemma bind_ok {A B} (a : A) (f : A -> result B) : (Ok a ≫= f) = f a.
Proof. reflexivity. Qed.

Lemma has_findings_eval d m category has_annotations :
  dict_lookup "metadata" d = Some (JObj m) ->
  dict_lookup "category" m = Some category ->
  dict_lookup "has_annotations" m = Some has_annotations ->
  has_findings (JObj d)
  = Ok (py_ne_str category "normal" && truthy has_annotations).
Proof.
  intros Hm Hc Ha. unfold has_findings.
  rewrite (getitem_obj _ _ _ Hm), bind_ok, (getitem_obj _ _ _ Hc), bind_ok.
  destruct (py_ne_str category "normal"); [|done].
  by rewrite bind_ok, (getitem_obj _ _ _ Ha).
Qed.

Lemma augment_loop_eval d prompt alts augmented :
  dict_lookup "prompt" d = Some (JStr prompt) ->
  augment_loop (JObj d) alts augmented
  = Ok (augmented ++ map (variant_of d prompt) alts).
Proof.
  intros Hp. revert augmented.
  induction alts as [|alt alts IH]; intros augmented; cbn [augment_loop map].
  - by rewrite app_nil_r.
  - unfold py_copy. rewrite bind_ok, (getitem_obj _ _ _ Hp), bind_ok.
    unfold method_replace, setitem. rewrite !bind_ok, IH.
    by rewrite <- app_assoc.
Qed.

Lemma augment_prompts_eval d m category has_annotations prompt :
  dict_lookup "metadata" d = Some (JObj m) ->
  dict_lookup "category" m = Some category ->
  dict_lookup "has_annotations" m = Some has_annotations ->
  dict_lookup "prompt" d = Some (JStr prompt) ->
  augment_prompts (JObj d)
  = Ok (if py_ne_str category "normal" && truthy has_annotations
        then JObj d :: map (variant_of d prompt) (take 2 alternative_prompts)
        else [JObj d]).
Proof.
  intros Hm Hc Ha Hp. unfold augment_prompts, py_copy.
  rewrite bind_ok, (has_findings_eval _ _ _ _ Hm Hc Ha), bind_ok.
  destruct (py_ne_str category "normal" && truthy has_annotations); [|done].
  by rewrite (augment_loop_eval _ _ _ _ Hp).
Qed.

(** C1. For a raw record with the fields of the data model, the augmenter
    returns exactly three variants, the record itself followed by its two
    copies with the substituted prompt, when [metadata.category] is not
    "normal" and [metadata.has_annotations] is true, and exactly one
    variant, the record itself, otherwise. *)
Theorem augment_prompts_variants d m category has_annotations prompt :
  dict_lookup "metadata" d = Some (JObj m) ->
  dict_lookup "category" m = Some category ->
  dict_lookup "has_annotations" m = Some has_annotations ->
  dict_lookup "prompt" d = Some (JStr prompt) ->
  (category <> JStr "normal" /\ truthy has_annotations = true ->
     exists v1 v2,
       augment_prompts (JObj d) = Ok [JObj d; v1; v2] /\
       [v1; v2] = map (variant_of d prompt) (take 2 alternative_prompts)) /\
  (~ (category <> JStr "normal" /\ truthy has_annotations = true) ->
     augment_prompts (JObj d) = Ok [JObj d]).
Proof.
  intros Hm Hc Ha Hp. rewrite (augment_prompts_eval _ _ _ _ _ Hm Hc Ha Hp).
  split.
  - intros [Hne%py_ne_str_true ->]. rewrite Hne. by eexists _, _.
  - intros Hnot. destruct (py_ne_str category "normal") eqn:E; [|done].
    destruct (truthy has_annotations); [|done].
    destruct Hnot. by apply py_ne_str_true in E.
Qed.

Lemma augment_prompts_variants_witness :
  exists v1 v2, augment_prompts wordy_record = Ok [wordy_record; v1; v2].
Proof.
  destruct (augment_prompts_variants
    [ ("image_path", JStr "img/0001.jpg"); ("prompt", JStr wordy_prompt);
      ("response", JStr "Sessile polyp, 6 mm.");
      ("metadata", JObj (metadata_of "polyp" "50-59" "F" true)) ]
    (metadata_of "polyp" "50-59" "F" true) (JStr "polyp") (JBool true)
    wordy_prompt eq_refl eq_refl eq_refl eq_refl) as [Heligible _].
  destruct Heligible as (v1 & v2 & Hrun & _); [split; [discriminate | reflexivity]|].
  exists v1, v2. exact Hrun.
Defined.

(** C4, as the code has it. For an eligible record, the prompt of each of
    the two variants is the record's prompt with every occurrence of the
    baseline instruction replaced by the alternative one: it is the
    alternative instruction when the prompt is exactly the baseline, it is
    the prompt unchanged when the baseline does not occur in the prompt, and
    it differs from the prompt when the baseline occurs in it. *)
Theorem augmented_prompt_substitution d m category has_annotations prompt :
  dict_lookup "metadata" d = Some (JObj m) ->
  dict_lookup "category" m = Some category ->
  dict_lookup "has_annotations" m = Some has_annotations ->
  dict_lookup "prompt" d = Some (JStr prompt) ->
  category <> JStr "normal" -> truthy has_annotations = true ->
  exists variants,
    augment_prompts (JObj d) = Ok (JObj d :: variants) /\
    Forall2 (fun v alt =>
        getitem v "prompt"
          = Ok (JStr (str_replace prompt baseline_prompt alt)) /\
        (prompt = baseline_prompt -> getitem v "prompt" = Ok (JStr alt)) /\
        (contains baseline_prompt prompt = false ->
           getitem v "prompt" = Ok (JStr prompt)) /\
        (contains baseline_prompt prompt = true ->
           getitem v "prompt" <> Ok (JStr prompt)))
      variants (take 2 alternative_prompts).
Proof.
  intros Hm Hc Ha Hp Hne%py_ne_str_true Htrue.
  rewrite (augment_prompts_eval _ _ _ _ _ Hm Hc Ha Hp), Hne, Htrue.
  eexists. split; [reflexivity|].
  assert (forall alt k a b,
    String.get k baseline_prompt = Some a -> String.get k alt = Some b ->
    a <> b ->
    getitem (variant_of d prompt alt) "prompt"
      = Ok (JStr (str_replace prompt baseline_prompt alt)) /\
    (prompt = baseline_prompt ->
       getitem (variant_of d prompt alt) "prompt" = Ok (JStr alt)) /\
    (contains baseline_prompt prompt = false ->
       getitem (variant_of d prompt alt) "prompt" = Ok (JStr prompt)) /\
    (contains baseline_prompt prompt = true ->
       getitem (variant_of d prompt alt) "prompt" <> Ok (JStr prompt)))
    as Hvariant.
  { intros alt k a b Hka Hkb Hab.
    assert (getitem (variant_of d prompt alt) "prompt"
            = Ok (JStr (str_replace prompt baseline_prompt alt))) as ->
      by (apply getitem_obj, dict_lookup_set).
    split; [done|]. split; [|split].
    - intros ->. by rewrite str_replace_exact.
    - intros Habsent. by rewrite str_replace_absent.
    - intros Hpresent [= Heq].
      by apply (str_replace_present _ _ _ _ _ _ Hka Hkb Hab Hpresent). }
  unfold alternative_prompts. cbn [take map].
  constructor; [|constructor; [|constructor]].
  - apply (Hvariant _ 34 "p"%char "d"%char); [reflexivity..|discriminate].
  - apply (Hvariant _ 0 "A"%char "W"%char); [reflexivity..|discriminate].
Qed.

Lemma augmented_prompt_substitution_witness :
  exists variants, augment_prompts wordy_record = Ok (wordy_record :: variants).
Proof.
  destruct (augmented_prompt_substitution
    [ ("image_path", JStr "img/0001.jpg"); ("prompt", JStr wordy_prompt);
      ("response", JStr "Sessile polyp, 6 mm.");
      ("metadata", JObj (metadata_of "polyp" "50-59" "F" true)) ]
    (metadata_of "polyp" "50-59" "F" true) (JStr "polyp") (JBool true)
    wordy_prompt eq_refl eq_refl eq_refl eq_refl)
    as (variants & Hrun & _); [discriminate | reflexivity |].
  exists variants. exact Hrun.
Defined.

(** C4 as stated fails: a prompt that is the baseline followed by one more
    sentence is not exactly the baseline, and yet it is rewritten. *)
Lemma longer_prompt_is_rewritten :
  wordy_prompt <> baseline_prompt /\
  exists v1 v2,
    augment_prompts wordy_record = Ok [wordy_record; v1; v2] /\
    getitem wordy_record "prompt" = Ok (JStr wordy_prompt) /\
    getitem v1 "prompt"
      = Ok (JStr "Analyze this endoscopic image and describe any pathological findings. Be brief.") /\
    getitem v1 "prompt" <> Ok (JStr wordy_prompt).
Proof.
  split; [discriminate|].
  eexists _, _. split; [vm_compute; reflexivity|].
  split; [reflexivity|]. split; [reflexivity|]. discriminate.
Qed.

(** ** Record loader *)

Section LoaderProperties.

Variable json_loads : string -> result json.

Lemma load_loop_ok lines data records :
  load_loop json_loads lines data = Ok records <->
  exists rs, records = data ++ rs /\ Forall2 (decodes json_loads) lines rs.
Proof.
  revert data. induction lines as [|line lines IH]; intros data; simpl.
  - split.
    + intros [= <-]. exists []. by rewrite app_nil_r.
    + intros (rs & -> & Hrs). inversion Hrs. by rewrite app_nil_r.
  - destruct (json_loads (strip line)) as [r|e] eqn:Hline; simpl.
    + rewrite IH. split.
      * intros (rs & -> & Hrs). exists (r :: rs).
        rewrite <- app_assoc. split; [done|]. by constructor.
      * intros (rs & -> & Hrs). inversion Hrs as [|? r' ? rs' Hr Hrs']; subst.
        unfold decodes in Hr. rewrite Hline in Hr. injection Hr as <-.
        exists rs'. by rewrite <- app_assoc.
    + split; [done|]. intros (rs & _ & Hrs).
      inversion Hrs as [|? r' ? rs' Hr Hrs']; subst.
      unfold decodes in Hr. by rewrite Hline in Hr.
Qed.

Lemma load_loop_bad_line lines data line :
  line ∈ lines -> is_ok (json_loads (strip line)) = false ->
  is_ok (load_loop json_loads lines data) = false.
Proof.
  intros Hin Hbad. destruct (load_loop json_loads lines data) eqn:Hrun; [|done].
  apply load_loop_ok in Hrun as (rs & _ & Hrs).
  apply list_elem_of_lookup in Hin as [i Hi].
  destruct (Forall2_lookup_l _ _ _ _ _ Hrs Hi) as (r & _ & Hr).
  unfold decodes in Hr. by rewrite Hr in Hbad.
Qed.

(** C7, as the code has it. The loader decodes every line of the file, an
    empty one included, after stripping it: it returns one record per line
    in the order of the file when every stripped line is valid JSON, and
    it raises when some line is not, in particular when a line is empty
    or blank and the decoder rejects the empty text. *)
Theorem load_jsonl_every_line text :
  (forall records,
     load_jsonl json_loads text = Ok records <->
     Forall2 (decodes json_loads) (file_lines text) records) /\
  (forall line,
     line ∈ file_lines text ->
     is_ok (json_loads (strip line)) = false ->
     is_ok (load_jsonl json_loads text) = false) /\
  (forall line,
     line ∈ file_lines text -> strip line = "" ->
     is_ok (json_loads "") = false ->
     is_ok (load_jsonl json_loads text) = false).
Proof.
  unfold load_jsonl. split; [|split].
  - intros records. rewrite load_loop_ok. split.
    + by intros (rs & -> & Hrs).
    + intros Hrs. by exists records.
  - intros line. apply load_loop_bad_line.
  - intros line Hin Hblank Hreject.
    apply (load_loop_bad_line _ _ line Hin). by rewrite Hblank.
Qed.

End LoaderProperties.

Lemma load_jsonl_every_line_witness :
  is_ok (load_jsonl decode_json blank_line_text) = false.
Proof.
  destruct (load_jsonl_every_line decode_json blank_line_text)
    as (_ & _ & Hblank).
  apply (Hblank (String newline "")).
  - vm_compute. apply list_elem_of_In. right. left. reflexivity.
  - reflexivity.
  - reflexivity.
Defined.

(** C7 as stated fails: the second line of the file is empty, and the
    loader does not skip it to return the two records of the other lines;
    it raises. *)
Lemma empty_line_is_not_skipped :
  file_lines blank_line_text
    = [ "{}" +:+ String newline ""; String newline "";
        "{}" +:+ String newline "" ] /\
  decode_json "{}" = Ok (JObj []) /\
  load_jsonl decode_json blank_line_text = Raise JSONDecodeError /\
  load_jsonl decode_json blank_line_text <> Ok [JObj []; JObj []].
Proof. repeat split; [vm_compute; reflexivity..|discriminate]. Qed.

(** ** Statistics aggregator *)

Lemma incr_comm a b (m : gmap pykey nat) : incr a (incr b m) = incr b (incr a m).
Proof.
  unfold incr. destruct (decide (a = b)) as [->|Hne]; [done|].
  rewrite !lookup_insert_ne by done. by apply insert_insert_ne.
Qed.

Lemma add_counts_comm k1 k2 s :
  add_counts k1 (add_counts k2 s) = add_counts k2 (add_counts k1 s).
Proof.
  destruct k1 as [[[c1 a1] x1] p1], k2 as [[[c2 a2] x2] p2].
  unfold add_counts. simpl. f_equal; try apply incr_comm.
  destruct p1, p2; try done. apply incr_comm.
Qed.

Lemma count_entry_counted entry s :
  count_entry entry s = counted_keys entry ≫= fun keys => Ok (add_counts keys s).
Proof.
  unfold count_entry, counted_keys.
  destruct (getitem entry "metadata") as [meta|]; [|done]. rewrite !bind_ok.
  destruct (getitem meta "category") as [c|]; [|done]. rewrite !bind_ok.
  destruct (hash_key c) as [ck|]; [|done]. rewrite !bind_ok.
  destruct (getitem meta "age_range") as [a|]; [|done]. rewrite !bind_ok.
  destruct (hash_key a) as [ak|]; [|done]. rewrite !bind_ok.
  destruct (getitem meta "sex") as [x|]; [|done]. rewrite !bind_ok.
  destruct (hash_key x) as [xk|]; [|done]. rewrite !bind_ok.
  destruct (dict_get meta "procedure_type") as [p|]; [|done]. rewrite !bind_ok.
  destruct (truthy p); [|done].
  destruct (getitem meta "procedure_type") as [p'|]; [|done]. rewrite !bind_ok.
  by destruct (hash_key p') as [pk|].
Qed.

Lemma count_loop_total_entries l s s' :
  count_loop l s = Ok s' ->
  total_entries s' = total_entries s /\ unique_images s' = unique_images s.
Proof.
  revert s. induction l as [|e l IH]; intros s; simpl.
  - by intros [= ->].
  - rewrite count_entry_counted.
    destruct (counted_keys e) as [[[[c a] x] p]|]; [|done]. simpl.
    intros [-> ->]%IH. done.
Qed.

Lemma count_loop_cons e l s :
  count_loop (e :: l) s
  = counted_keys e ≫= fun keys => count_loop l (add_counts keys s).
Proof.
  simpl. rewrite count_entry_counted. by destruct (counted_keys e).
Qed.

Lemma count_loop_permutation l l' :
  l ≡ₚ l' -> forall s, returned (count_loop l s) = returned (count_loop l' s).
Proof.
  induction 1 as [|e l l' _ IH|e1 e2 l|l1 l2 l3 _ IH1 _ IH2]; intros s.
  - done.
  - rewrite !count_loop_cons. destruct (counted_keys e); [apply IH | done].
  - rewrite !count_loop_cons.
    destruct (counted_keys e1) as [k1|] eqn:E1,
             (counted_keys e2) as [k2|] eqn:E2;
      rewrite ?bind_ok, ?count_loop_cons, ?E1, ?E2, ?bind_ok; try done.
    by rewrite add_counts_comm.
  - by rewrite IH1.
Qed.

Lemma image_paths_cons e l :
  image_paths (e :: l)
  = image_key e ≫= fun key =>
      image_paths l ≫= fun paths => Ok ({[key]} ∪ paths).
Proof.
  simpl. unfold image_key.
  destruct (getitem e "image_path") as [p|]; [|done]. by rewrite !bind_ok.
Qed.

Lemma image_paths_keys l keys :
  Forall2 (fun e key => image_key e = Ok key) l keys ->
  image_paths l = Ok (list_to_set keys).
Proof.
  induction 1 as [|e key l keys Hkey _ IH]; [done|].
  by rewrite image_paths_cons, Hkey, bind_ok, IH.
Qed.

Lemma image_paths_permutation l l' :
  l ≡ₚ l' -> returned (image_paths l) = returned (image_paths l').
Proof.
  induction 1 as [|e l l' _ IH|e1 e2 l|l1 l2 l3 _ IH1 _ IH2].
  - done.
  - rewrite !image_paths_cons. destruct (image_key e); [|done].
    rewrite !bind_ok.
    destruct (image_paths l), (image_paths l'); simpl in *; congruence.
  - rewrite !image_paths_cons.
    destruct (image_key e1) as [k1|] eqn:E1, (image_key e2) as [k2|] eqn:E2;
      rewrite ?bind_ok, ?image_paths_cons, ?E1, ?E2, ?bind_ok; try reflexivity.
    destruct (image_paths l) as [paths|]; [|done]. simpl. f_equal. set_solver.
  - by rewrite IH1.
Qed.

Lemma compute_stats_permutation l l' :
  l ≡ₚ l' -> returned (compute_stats l) = returned (compute_stats l').
Proof.
  intros Hperm. unfold compute_stats.
  pose proof (image_paths_permutation _ _ Hperm) as Hpaths.
  rewrite (Permutation_length Hperm).
  destruct (image_paths l) as [p|], (image_paths l') as [p'|];
    simpl in Hpaths; try done.
  injection Hpaths as <-. rewrite !bind_ok.
  by apply count_loop_permutation.
Qed.

Lemma size_list_to_set_le (keys : list pykey) :
  size (list_to_set keys : gset pykey) <= length keys /\
  (size (list_to_set keys : gset pykey) = length keys <-> NoDup keys).
Proof.
  induction keys as [|k keys [IHle IHeq]]; simpl.
  - split; [done|]. split; [constructor | done].
  - destruct (decide (k ∈ keys)) as [Hin|Hnotin].
    + assert ({[k]} ∪ list_to_set keys = (list_to_set keys : gset pykey)) as ->
        by set_solver.
      split; [lia|]. split; [lia|]. intros Hnodup.
      by apply NoDup_cons in Hnodup as [? _].
    + rewrite size_union, size_singleton by set_solver.
      split; [lia|]. rewrite NoDup_cons. split.
      * intros ?. split; [done|]. apply IHeq. lia.
      * intros [_ Hnodup%IHeq]. lia.
Qed.

Lemma count_loop_returns l s :
  Forall (fun e => is_ok (counted_keys e) = true) l ->
  exists s', count_loop l s = Ok s'.
Proof.
  intros Hall. revert s. induction Hall as [|e l He _ IH]; intros s.
  - by exists s.
  - rewrite count_loop_cons. destruct (counted_keys e) as [keys|]; [|done].
    rewrite bind_ok. apply IH.
Qed.

Lemma shuffle_loop_permutation {A} i (x : list A) g :
  (shuffle_loop i x g).1 ≡ₚ x.
Proof.
  revert x g. induction i as [|i IH]; intros x g; [done|].
  cbn [shuffle_loop]. destruct (randbelow g (S (S i))) as [j g'].
  rewrite IH. unfold swap.
  destruct (x !! S i) as [a|] eqn:Hi; [|done].
  destruct (x !! j) as [b|] eqn:Hj; [|done].
  by apply Permutation_insert_swap.
Qed.

Lemma random_shuffle_permutation {A} (x : list A) g :
  (random_shuffle x g).1 ≡ₚ x.
Proof. apply shuffle_loop_permutation. Qed.

Lemma incr_lookup k key (m : gmap pykey nat) :
  default 0 (incr k m !! key)
  = default 0 (m !! key) + (if bool_decide (k = key) then 1 else 0).
Proof.
  unfold incr. case_bool_decide as Hk.
  - subst. rewrite lookup_insert_eq. simpl. lia.
  - rewrite lookup_insert_ne by done. lia.
Qed.

(** The procedure type is counted exactly for a truthy value. *)
Lemma getitem_missing d k :
  dict_lookup k d = None -> getitem (JObj d) k = Raise KeyError.
Proof. intros H. unfold getitem. by rewrite H. Qed.

Ltac bind_step :=
  first [ rewrite !bind_ok
        | by (let H := fresh in intros H; cbn in H) ].

Lemma counted_keys_procedure entry c a x p key :
  counted_keys entry = Ok (c, a, x, p) ->
  has_procedure key entry
  = match p with Some k => bool_decide (k = key) | None => false end.
Proof.
  unfold counted_keys, has_procedure, procedure_of.
  destruct entry as [| | | | |d]; try done.
  destruct (dict_lookup "metadata" d) as [meta|] eqn:Hm;
    [rewrite (getitem_obj _ _ _ Hm) | rewrite (getitem_missing _ _ Hm)];
    bind_step.
  destruct meta as [| | | | |m]; try (intros H; by cbn in H).
  destruct (getitem (JObj m) "category") as [cv|]; bind_step.
  destruct (hash_key cv) as [ck|]; bind_step.
  destruct (getitem (JObj m) "age_range") as [av|]; bind_step.
  destruct (hash_key av) as [ak|]; bind_step.
  destruct (getitem (JObj m) "sex") as [xv|]; bind_step.
  destruct (hash_key xv) as [xk|]; bind_step.
  unfold dict_get. rewrite bind_ok.
  destruct (dict_lookup "procedure_type" m) as [v|] eqn:Hv;
    cbn [default from_option]; unfold id.
  - destruct (truthy v); cbn [andb].
    + rewrite (getitem_obj _ _ _ Hv), bind_ok.
      destruct (hash_key v) as [k|]; bind_step.
      rewrite ?bind_ok. by intros [= _ _ _ <-].
    + rewrite bind_ok. by intros [= _ _ _ <-].
  - cbn [truthy]. rewrite bind_ok. by intros [= _ _ _ <-].
Qed.

Lemma count_loop_procedure_types l s s' key :
  count_loop l s = Ok s' ->
  default 0 (procedure_types s' !! key)
  = default 0 (procedure_types s !! key)
    + length (List.filter (has_procedure key) l).
Proof.
  revert s. induction l as [|e l IH]; intros s.
  - intros [= ->]. simpl. lia.
  - rewrite count_loop_cons.
    destruct (counted_keys e) as [[[[c a] x] p]|] eqn:Ekeys; [|done].
    rewrite bind_ok. intros Hrun%IH. rewrite Hrun. cbn [List.filter].
    rewrite (counted_keys_procedure _ _ _ _ _ key Ekeys).
    destruct p as [k|]; simpl; [|lia].
    rewrite incr_lookup. case_bool_decide; simpl; lia.
Qed.

Lemma image_key_without_procedure d m :
  dict_lookup "metadata" d = Some (JObj m) ->
  image_key (without_procedure d m) = image_key (JObj d).
Proof.
  intros Hm. unfold image_key, without_procedure, getitem.
  by rewrite dict_lookup_set_ne by discriminate.
Qed.

Lemma counted_keys_without_procedure d m v :
  dict_lookup "metadata" d = Some (JObj m) ->
  dict_lookup "procedure_type" m = Some v ->
  truthy v = false ->
  counted_keys (without_procedure d m) = counted_keys (JObj d).
Proof.
  intros Hm Hv Hfalsy. unfold counted_keys, without_procedure.
  rewrite (getitem_obj _ _ _ (dict_lookup_set _ _ _)), (getitem_obj _ _ _ Hm).
  rewrite !bind_ok. unfold getitem, dict_get.
  rewrite (dict_lookup_del_ne "procedure_type" "category"),
    (dict_lookup_del_ne "procedure_type" "age_range"),
    (dict_lookup_del_ne "procedure_type" "sex") by discriminate.
  rewrite dict_lookup_del, Hv. simpl. by rewrite Hfalsy.
Qed.

Lemma compute_stats_same_keys before after e e' :
  image_key e = image_key e' ->
  counted_keys e = counted_keys e' ->
  compute_stats (before ++ e :: after) = compute_stats (before ++ e' :: after).
Proof.
  intros Himage Hcounted. unfold compute_stats.
  assert (image_paths (before ++ e :: after)
          = image_paths (before ++ e' :: after)) as ->.
  { induction before as [|b before IH]; simpl app.
    - by rewrite !image_paths_cons, Himage.
    - by rewrite !image_paths_cons, IH. }
  rewrite !length_app. simpl length.
  destruct (image_paths (before ++ e' :: after)) as [paths|]; [|done].
  rewrite !bind_ok. generalize
    {| total_entries := length before + S (length after);
       unique_images := size paths;
       category_distribution := ∅; age_distribution := ∅;
       sex_distribution := ∅; procedure_types := ∅ |}.
  induction before as [|b before IH]; intros s; simpl app.
  - by rewrite !count_loop_cons, Hcounted.
  - rewrite !count_loop_cons. destruct (counted_keys b); [|done].
    rewrite !bind_ok. apply IH.
Qed.


(** C8. The shuffle returns a permutation of the formatted records, and the
    statistics computed over the shuffled records are the statistics of the
    records before the shuffle. *)
Theorem shuffle_keeps_records_and_statistics formatted_data g :
  (random_shuffle formatted_data g).1 ≡ₚ formatted_data /\
  returned (compute_stats (random_shuffle formatted_data g).1)
    = returned (compute_stats formatted_data) /\
  (forall s,
     compute_stats formatted_data = Ok s ->
     compute_stats (random_shuffle formatted_data g).1 = Ok s).
Proof.
  pose proof (random_shuffle_permutation formatted_data g) as Hperm.
  pose proof (compute_stats_permutation _ _ Hperm) as Hstats.
  split; [done|]. split; [done|].
  intros s Hs. rewrite Hs in Hstats.
  by destruct (compute_stats (random_shuffle formatted_data g).1);
    simplify_eq/=.
Qed.

(** C9. Over formatted records whose fields are all there, the statistics
    are computed, [unique_images] is the number of distinct image paths, it
    is at most [total_entries], and it equals [total_entries] exactly when no
    two records share an image path. *)
Theorem unique_images_counts_distinct_paths formatted_data keys :
  Forall2 (fun entry key => image_key entry = Ok key) formatted_data keys ->
  Forall (fun entry => is_ok (counted_keys entry) = true) formatted_data ->
  exists s,
    compute_stats formatted_data = Ok s /\
    total_entries s = length formatted_data /\
    unique_images s = size (list_to_set keys : gset pykey) /\
    unique_images s <= total_entries s /\
    (unique_images s = total_entries s <-> NoDup keys).
Proof.
  intros Hkeys Hcounted. unfold compute_stats.
  rewrite (image_paths_keys _ _ Hkeys), bind_ok.
  destruct (count_loop_returns formatted_data
    {| total_entries := length formatted_data;
       unique_images := size (list_to_set keys : gset pykey);
       category_distribution := ∅; age_distribution := ∅;
       sex_distribution := ∅; procedure_types := ∅ |} Hcounted) as [s Hs].
  exists s. split; [done|].
  apply count_loop_total_entries in Hs as [-> ->]. simpl.
  rewrite (Forall2_length _ _ _ Hkeys).
  pose proof (size_list_to_set_le keys) as [Hle Heq]. done.
Qed.

Lemma unique_images_counts_distinct_paths_witness :
  exists s,
    compute_stats [JObj [("image_path", JStr "a.jpg");
                         ("metadata", JObj (metadata_of "polyp" "50-59" "F" true))];
                   JObj [("image_path", JStr "a.jpg");
                         ("metadata", JObj (metadata_of "ulcer" "60-69" "M" false))]]
      = Ok s /\ unique_images s = 1 /\ total_entries s = 2.
Proof.
  destruct (unique_images_counts_distinct_paths
    [JObj [("image_path", JStr "a.jpg");
           ("metadata", JObj (metadata_of "polyp" "50-59" "F" true))];
     JObj [("image_path", JStr "a.jpg");
           ("metadata", JObj (metadata_of "ulcer" "60-69" "M" false))]]
    [KStr "a.jpg"; KStr "a.jpg"])
    as (s & Hs & Htotal & Hunique & _).
  - repeat constructor.
  - repeat constructor.
  - exists s. split; [exact Hs|]. split; [|exact Htotal].
    rewrite Hunique. vm_compute. reflexivity.
Defined.

(** C10. A record whose metadata holds a falsy [procedure_type], such as
    the empty string, gives the statistics it would give without the key;
    and the procedure-type distribution counts, under each key, exactly the
    records whose [procedure_type] is truthy and has that key. *)
Theorem falsy_procedure_type_is_not_counted d m v before after :
  dict_lookup "metadata" d = Some (JObj m) ->
  dict_lookup "procedure_type" m = Some v ->
  truthy v = false ->
  procedure_of (without_procedure d m) = None /\
  compute_stats (before ++ JObj d :: after)
    = compute_stats (before ++ without_procedure d m :: after) /\
  (forall s key,
     compute_stats (before ++ JObj d :: after) = Ok s ->
     default 0 (procedure_types s !! key)
     = length (List.filter (has_procedure key) (before ++ after))).
Proof.
  intros Hm Hv Hfalsy. split; [|split].
  - unfold procedure_of, without_procedure.
    by rewrite dict_lookup_set, dict_lookup_del.
  - symmetry. apply compute_stats_same_keys.
    + by apply image_key_without_procedure.
    + by apply (counted_keys_without_procedure _ _ v).
  - intros s key. unfold compute_stats.
    destruct (image_paths _) as [paths|]; [|done]. rewrite bind_ok.
    intros Hrun%(count_loop_procedure_types _ _ _ key). rewrite Hrun.
    simpl. rewrite !List.filter_app, !length_app. cbn [List.filter].
    assert (has_procedure key (JObj d) = false) as ->; [|done].
    unfold has_procedure, procedure_of. by rewrite Hm, Hv, Hfalsy.
Qed.

Lemma falsy_procedure_type_is_not_counted_witness :
  compute_stats
    [raw_record "a.jpg" "p" "r"
       (dict_set "procedure_type" (JStr "") (metadata_of "polyp" "50-59" "F" true))]
  = compute_stats
      [raw_record "a.jpg" "p" "r" (metadata_of "polyp" "50-59" "F" true)].
Proof.
  destruct (falsy_procedure_type_is_not_counted
    [ ("image_path", JStr "a.jpg"); ("prompt", JStr "p"); ("response", JStr "r");
      ("metadata",
        JObj (dict_set "procedure_type" (JStr "")
                (metadata_of "polyp" "50-59" "F" true))) ]
    (dict_set "procedure_type" (JStr "") (metadata_of "polyp" "50-59" "F" true))
    (JStr "") [] [] eq_refl eq_refl eq_refl) as (_ & Hsame & _).
  exact Hsame.
Defined.

(** ** The random module *)

Lemma randbelow_lt g n : 0 < n -> (randbelow g n).1 < n.
Proof. intros Hn. apply Nat.mod_upper_bound. lia. Qed.

(** Taking the record at [j] out of the unchosen part and moving the last
    unchosen record to its place leaves the other unchosen records. *)
Lemma pool_step {A} (pool : list A) m j x y :
  j < m -> m <= length pool ->
  pool !! j = Some x -> pool !! (m - 1) = Some y ->
  x :: take (m - 1) (<[j := y]> pool) ≡ₚ take m pool.
Proof.
  intros Hj Hm Hx Hy.
  replace m with (S (m - 1)) at 2 by lia.
  rewrite (take_S_r _ _ _ Hy).
  destruct (decide (j = m - 1)) as [->|Hne].
  - assert (x = y) as -> by congruence.
    rewrite list_insert_id by done. by rewrite Permutation_cons_append.
  - rewrite take_insert_lt by lia.
    assert (take (m - 1) pool !! j = Some x) as Htake
      by (rewrite lookup_take_lt by lia; done).
    apply list_elem_of_split_length in Htake as (l1 & l2 & -> & ->).
    rewrite insert_app_r_alt, Nat.sub_diag by lia. simpl.
    rewrite <- app_assoc. simpl. rewrite <- (Permutation_middle l1 _ x).
    do 2 f_equiv. apply Permutation_cons_append.
Qed.

Lemma sample_loop_selects {A} k m (pool chosen : list A) g :
  k <= m -> m <= length pool ->
  exists sel g',
    sample_loop k m pool chosen g = (Ok (chosen ++ sel), g') /\
    length sel = k /\ sel ⊆+ take m pool.
Proof.
  revert m pool chosen g. induction k as [|k IH]; intros m pool chosen g Hk Hm.
  - exists [], g. rewrite app_nil_r. split; [done|]. split; [done|].
    apply submseteq_nil_l.
  - cbn [sample_loop].
    pose proof (randbelow_lt g m ltac:(lia)) as Hj.
    destruct (randbelow g m) as [j g1]. simpl in Hj.
    destruct (lookup_lt_is_Some_2 pool j ltac:(lia)) as [x Hx].
    destruct (lookup_lt_is_Some_2 pool (m - 1) ltac:(lia)) as [y Hy].
    rewrite Hx, Hy.
    destruct (IH (m - 1) (<[j:=y]> pool) (chosen ++ [x]) g1)
      as (sel & g' & Hrun & Hlen & Hsub); [lia | rewrite length_insert; lia |].
    exists (x :: sel), g'. rewrite Hrun, <- app_assoc.
    split; [done|]. split; [simpl; lia|].
    rewrite <- (pool_step pool m j x y) by done. by apply submseteq_skip.
Qed.

(** The sample of a population is the sample of its positions: the loop
    never looks at the records it moves. *)
Lemma sample_loop_fmap {A B} (f : A -> B) k m (pool chosen sel : list A) g g' :
  sample_loop k m pool chosen g = (Ok sel, g') ->
  sample_loop k m (f <$> pool) (f <$> chosen) g = (Ok (f <$> sel), g').
Proof.
  revert m pool chosen g. induction k as [|k IH]; intros m pool chosen g.
  - cbn [sample_loop]. by intros [= -> ->].
  - cbn [sample_loop]. destruct (randbelow g m) as [j g1].
    rewrite !list_lookup_fmap.
    destruct (pool !! j) as [x|]; [|done].
    destruct (pool !! (m - 1)) as [y|]; [|done]. cbn [fmap option_fmap option_map].
    intros Hrun%IH. by rewrite list_fmap_insert, fmap_app in Hrun.
Qed.

(** Two runs that sample the same records of a population without repeated
    records made the same draws: the [i]-th draw, below [m - i], is read
    off the sample. *)
Lemma sample_loop_draws {A} k m (pool chosen sel : list A) g1 g2 g1' g2' :
  k <= m -> m <= length pool -> NoDup (take m pool) ->
  sample_loop k m pool chosen g1 = (Ok sel, g1') ->
  sample_loop k m pool chosen g2 = (Ok sel, g2') ->
  forall i, i < k -> g1 i mod (m - i) = g2 i mod (m - i).
Proof.
  revert m pool chosen g1 g2.
  induction k as [|k IH]; intros m pool chosen g1 g2 Hk Hm Hnodup; [lia|].
  cbn [sample_loop]. unfold randbelow.
  set (j1 := g1 0 mod m). set (j2 := g2 0 mod m).
  assert (j1 < m) as Hj1 by (apply Nat.mod_upper_bound; lia).
  assert (j2 < m) as Hj2 by (apply Nat.mod_upper_bound; lia).
  destruct (lookup_lt_is_Some_2 pool j1 ltac:(lia)) as [x1 Hx1].
  destruct (lookup_lt_is_Some_2 pool j2 ltac:(lia)) as [x2 Hx2].
  destruct (lookup_lt_is_Some_2 pool (m - 1) ltac:(lia)) as [y Hy].
  rewrite Hx1, Hx2, Hy. intros Hrun1 Hrun2.
  destruct (sample_loop_selects k (m - 1) (<[j1:=y]> pool) (chosen ++ [x1])
              (fun i => g1 (S i))) as (s1 & ? & Hs1 & _);
    [lia | rewrite length_insert; lia |].
  destruct (sample_loop_selects k (m - 1) (<[j2:=y]> pool) (chosen ++ [x2])
              (fun i => g2 (S i))) as (s2 & ? & Hs2 & _);
    [lia | rewrite length_insert; lia |].
  pose proof Hrun1 as Hsel1. rewrite Hs1 in Hsel1.
  pose proof Hrun2 as Hsel2. rewrite Hs2 in Hsel2.
  injection Hsel1 as Hsel1 _. injection Hsel2 as Hsel2 _.
  rewrite <- Hsel1, <- !app_assoc in Hsel2.
  apply app_inv_head in Hsel2. injection Hsel2 as Hx Hs.
  assert (j2 = j1) as Hj.
  { apply (NoDup_lookup (take m pool) j2 j1 x1); [done|..].
    - rewrite lookup_take_lt by lia. by rewrite Hx2, Hx.
    - by rewrite lookup_take_lt by lia. }
  intros [|i] Hi.
  - rewrite Nat.sub_0_r. by fold j1 j2.
  - replace (m - S i) with (m - 1 - i) by lia.
    apply (IH (m - 1) (<[j1:=y]> pool) (chosen ++ [x1])
              (fun i => g1 (S i)) (fun i => g2 (S i))); try lia.
    + rewrite length_insert. lia.
    + pose proof (pool_step pool m j1 x1 y Hj1 Hm Hx1 Hy) as Hperm.
      rewrite <- Hperm in Hnodup. by apply NoDup_cons in Hnodup as [_ ?].
    + exact Hrun1.
    + rewrite <- Hj, <- Hx. exact Hrun2.
Qed.

Lemma tagged_snd {A} (population : list A) :
  snd <$> tagged population = population.
Proof.
  unfold tagged. apply list_eq. intros i.
  rewrite list_lookup_fmap, list_lookup_imap. by destruct (population !! i).
Qed.

Lemma tagged_length {A} (population : list A) :
  length (tagged population) = length population.
Proof. apply length_imap. Qed.

Lemma tagged_NoDup {A} (population : list A) : NoDup (tagged population).
Proof.
  apply (NoDup_fmap_1 fst). unfold tagged.
  replace (fst <$> imap (fun i x => (i, x)) population)
    with (seq 0 (length population)); [apply NoDup_seq|].
  apply list_eq. intros i.
  rewrite list_lookup_fmap, list_lookup_imap.
  destruct (population !! i) as [x|] eqn:Hx; simpl.
  - apply lookup_seq. split; [done|]. by apply lookup_lt_Some in Hx.
  - apply lookup_seq_ge. by apply lookup_ge_None in Hx.
Qed.

(** *** The streams a run leaves *)

Lemma after_draws_refl g : after_draws 0 g g.
Proof. by intros i. Qed.

Lemma after_draws_trans d1 d2 g g1 g2 :
  after_draws d1 g g1 -> after_draws d2 g1 g2 -> after_draws (d1 + d2) g g2.
Proof.
  intros H1 H2 i. rewrite H2, H1. f_equal. lia.
Qed.

Lemma after_draws_randbelow g n : after_draws 1 g (randbelow g n).2.
Proof. by intros i. Qed.

Lemma varied_after tries n k d g g' :
  after_draws d g g' -> varied tries n k g -> varied tries n k g'.
Proof.
  intros Hg Hvaried i selected Hsize.
  destruct (Hvaried (d + i) selected Hsize) as (e & He & Hfresh).
  exists e. split; [done|]. by rewrite Hg, Nat.add_assoc.
Qed.

Lemma draws_below_app n d1 d2 g g1 :
  after_draws d1 g g1 ->
  draws_below n (d1 + d2) g = draws_below n d1 g ++ draws_below n d2 g1.
Proof.
  intros Hg. unfold draws_below. rewrite seq_app, map_app. f_equal.
  cbn [Nat.add].
  replace (seq d1 d2) with ((fun i => d1 + i) <$> seq 0 d2)
    by (rewrite fmap_add_seq; f_equal; lia).
  rewrite <- list_fmap_compose.
  apply list_fmap_ext. intros _ i _. simpl. by rewrite Hg.
Qed.

Lemma shuffle_loop_after {A} i (x : list A) g :
  after_draws i g (shuffle_loop i x g).2.
Proof.
  revert x g. induction i as [|i IH]; intros x g; [apply after_draws_refl|].
  cbn [shuffle_loop]. unfold randbelow.
  replace (S i) with (1 + i) at 1 by done.
  eapply after_draws_trans; [|apply IH]. by intros j.
Qed.

Lemma sample_loop_after {A} k m (pool chosen : list A) g :
  exists d, d <= k /\ after_draws d g (sample_loop k m pool chosen g).2.
Proof.
  revert m pool chosen g. induction k as [|k IH]; intros m pool chosen g.
  - exists 0. split; [done | apply after_draws_refl].
  - cbn [sample_loop]. unfold randbelow.
    destruct (pool !! (g 0 mod m)) as [x|]; [|exists 1; split; [lia|by intros i]].
    destruct (pool !! (m - 1)) as [y|]; [|exists 1; split; [lia|by intros i]].
    destruct (IH (m - 1) (<[g 0 mod m:=y]> pool) (chosen ++ [x])
                (fun i => g (S i))) as (d & Hd & Hafter).
    exists (1 + d). split; [lia|].
    eapply after_draws_trans; [|exact Hafter]. by intros i.
Qed.

(** *** The loop that draws again *)

Lemma redraw_fresh tries n selected j g j' g' :
  redraw tries n selected j g = (Some j', g') -> j' ∉ selected.
Proof.
  revert j g. induction tries as [|tries IH]; intros j g; cbn [redraw];
    case_bool_decide as Hj; try done; try (by intros [= <- _]).
  unfold randbelow. apply IH.
Qed.

Lemma redraw_lt tries n selected j g j' g' :
  0 < n -> j < n ->
  redraw tries n selected j g = (Some j', g') -> j' < n.
Proof.
  intros Hn. revert j g. induction tries as [|tries IH]; intros j g Hj;
    cbn [redraw]; case_bool_decide; try done; try (by intros [= <- _]).
  unfold randbelow. apply IH. apply Nat.mod_upper_bound. lia.
Qed.

Lemma redraw_after tries n selected j g :
  exists d, d <= tries /\ after_draws d g (redraw tries n selected j g).2.
Proof.
  revert j g. induction tries as [|tries IH]; intros j g; cbn [redraw];
    case_bool_decide; try (exists 0; split; [lia | apply after_draws_refl]).
  unfold randbelow.
  destruct (IH (g 0 mod n) (fun i => g (S i))) as (d & Hd & Hafter).
  exists (1 + d). split; [lia|].
  eapply after_draws_trans; [|exact Hafter]. by intros i.
Qed.

(** The loop ends when one of the draws it is followed for is not a chosen
    position. *)
Lemma redraw_within tries n selected j g d :
  d < tries -> g d mod n ∉ selected ->
  exists j' g', redraw tries n selected j g = (Some j', g').
Proof.
  revert j g d. induction tries as [|tries IH]; intros j g d Hd Hfresh; [lia|].
  cbn [redraw]. case_bool_decide; [|by eauto]. unfold randbelow.
  destruct d as [|d].
  - destruct tries; cbn [redraw]; rewrite bool_decide_eq_false_2 by done;
      by eauto.
  - apply (IH _ (fun i => g (S i)) d); [lia | done].
Qed.

(** The draws of the loop: all of them but the last are chosen positions,
    and the last is the position the loop gives. *)
Lemma redraw_draws tries n selected j g j' g' :
  redraw tries n selected j g = (Some j', g') ->
  exists d init,
    after_draws d g g' /\
    j :: draws_below n d g = init ++ [j'] /\
    Forall (fun c => c ∈ selected) init.
Proof.
  revert j g. induction tries as [|tries IH]; intros j g; cbn [redraw];
    case_bool_decide as Hj; try done;
    try (intros [= <- <-]; exists 0, [];
         split; [apply after_draws_refl | by split; [|constructor]]).
  unfold randbelow. intros (d & init & Hafter & Hdraws & Hall)%IH.
  exists (1 + d), (j :: init). split; [|split].
  - eapply after_draws_trans; [|exact Hafter]. by intros i.
  - rewrite (draws_below_app n 1 d g (fun i => g (S i))) by (by intros i).
    cbn [draws_below seq map app]. cbn [app]. f_equal. exact Hdraws.
  - by constructor.
Qed.

(** *** The order of first occurrence *)

Lemma filter_all {A} (P : A -> Prop) `{forall x, Decision (P x)} (l : list A) :
  Forall P l -> filter P l = l.
Proof.
  induction 1 as [|x l Hx _ IH]; [done|]. by rewrite filter_cons_True, IH.
Qed.

Lemma filter_none {A} (P : A -> Prop) `{forall x, Decision (P x)} (l : list A) :
  Forall (fun x => ~ P x) l -> filter P l = [].
Proof.
  induction 1 as [|x l Hx _ IH]; [done|]. by rewrite filter_cons_False.
Qed.

Lemma first_drawn_elem j draws : j ∈ first_drawn draws <-> j ∈ draws.
Proof.
  induction draws as [|a draws IH]; [done|]. cbn [first_drawn].
  rewrite !elem_of_cons, list_elem_of_filter, IH.
  destruct (decide (j = a)); naive_solver.
Qed.

Lemma first_drawn_NoDup draws : NoDup (first_drawn draws).
Proof.
  induction draws as [|a draws IH]; [constructor|]. cbn [first_drawn].
  constructor; [|by apply NoDup_filter].
  by intros [? _]%list_elem_of_filter.
Qed.

Lemma first_drawn_app l1 l2 :
  first_drawn (l1 ++ l2)
  = first_drawn l1 ++ filter (fun j => j ∉ l1) (first_drawn l2).
Proof.
  induction l1 as [|a l1 IH].
  - cbn. symmetry. induction (first_drawn l2) as [|b l IHl]; [done|].
    rewrite filter_cons_True by apply not_elem_of_nil. by rewrite IHl.
  - cbn [app first_drawn]. rewrite IH, filter_app. f_equal. f_equal.
    rewrite list_filter_filter. apply list_filter_iff. intros j.
    rewrite not_elem_of_cons. tauto.
Qed.

(** *** The selection over the set of chosen positions *)

Lemma sample_set_after {A} fuel k n (population : list A) selected chosen g :
  exists d,
    after_draws d g (sample_set fuel k n population selected chosen g).2.
Proof.
  revert selected chosen g.
  induction k as [|k IH]; intros selected chosen g.
  - exists 0. apply after_draws_refl.
  - cbn [sample_set]. unfold randbelow.
    destruct (redraw_after fuel n selected (g 0 mod n) (fun i => g (S i)))
      as (d1 & _ & Hafter1).
    destruct (redraw fuel n selected (g 0 mod n) (fun i => g (S i)))
      as [[j'|] g2]; simpl in Hafter1.
    + destruct (population !! j') as [x|].
      * destruct (IH ({[j']} ∪ selected) (chosen ++ [x]) g2) as (d2 & Hafter2).
        exists (1 + d1 + d2).
        eapply after_draws_trans; [|exact Hafter2].
        eapply after_draws_trans; [|exact Hafter1]. by intros i.
      * exists (1 + d1). eapply after_draws_trans; [|exact Hafter1].
        by intros i.
    + exists (1 + d1). eapply after_draws_trans; [|exact Hafter1].
      by intros i.
Qed.

Lemma sample_set_map {A B} (f : A -> B) fuel k n (population chosen : list A)
    selected g :
  sample_set fuel k n (f <$> population) selected (f <$> chosen) g
  = map_outcome f (sample_set fuel k n population selected chosen g).
Proof.
  revert selected chosen g. induction k as [|k IH]; intros selected chosen g.
  - done.
  - cbn [sample_set]. destruct (randbelow g n) as [j g1].
    destruct (redraw fuel n selected j g1) as [[j'|] g2]; [|done].
    rewrite list_lookup_fmap. destruct (population !! j') as [x|]; [|done].
    cbn [fmap option_fmap option_map].
    by rewrite <- IH, fmap_app.
Qed.

Lemma sample_loop_map {A B} (f : A -> B) k m (pool chosen : list A) g :
  sample_loop k m (f <$> pool) (f <$> chosen) g
  = map_outcome f (sample_loop k m pool chosen g).
Proof.
  revert m pool chosen g. induction k as [|k IH]; intros m pool chosen g.
  - done.
  - cbn [sample_loop]. destruct (randbelow g m) as [j g1].
    rewrite !list_lookup_fmap.
    destruct (pool !! j) as [x|]; [|done].
    destruct (pool !! (m - 1)) as [y|]; [|done].
    cbn [fmap option_fmap option_map].
    by rewrite <- IH, list_fmap_insert, fmap_app.
Qed.

(** The positions the loop chooses are the draws that are no chosen
    position yet, in the order they are first drawn. *)
Lemma sample_set_draws {A} fuel k n (population : list A) selected chosen g
    sel g' :
  0 < n ->
  sample_set fuel k n population selected chosen g = (Ok sel, g') ->
  exists d positions rest,
    after_draws d g g' /\
    sel = chosen ++ rest /\
    records_at population positions rest /\
    positions
    = filter (fun p => p ∉ selected) (first_drawn (draws_below n d g)) /\
    length positions = k.
Proof.
  intros Hn. revert selected chosen g.
  induction k as [|k IH]; intros selected chosen g.
  - cbn [sample_set]. intros [= <- <-]. exists 0, [], [].
    split; [apply after_draws_refl|]. rewrite app_nil_r.
    split; [done|]. split; [constructor|]. done.
  - cbn [sample_set]. unfold randbelow.
    destruct (redraw fuel n selected (g 0 mod n) (fun i => g (S i)))
      as [[j'|] g2] eqn:Hredraw; [|done].
    destruct (population !! j') as [x|] eqn:Hx; [|done].
    intros (d2 & positions & rest & Hafter2 & -> & Hrest & -> & Hlen)%IH.
    pose proof (redraw_fresh _ _ _ _ _ _ _ Hredraw) as Hfresh.
    apply redraw_draws in Hredraw as (d1 & init & Hafter1 & Hdraws & Hinit).
    assert (after_draws (1 + d1) g g2) as Hafter.
    { eapply after_draws_trans; [|exact Hafter1]. by intros i. }
    assert (draws_below n (1 + d1) g = init ++ [j']) as Hfirst.
    { rewrite (draws_below_app n 1 d1 g (fun i => g (S i))) by (by intros i).
      exact Hdraws. }
    exists (1 + d1 + d2),
      (j' :: filter (fun p => p ∉ {[j']} ∪ selected)
               (first_drawn (draws_below n d2 g2))),
      (x :: rest).
    split; [by eapply after_draws_trans|].
    split; [by rewrite <- app_assoc|].
    split; [by constructor|]. split; [|simpl; by rewrite Hlen].
    rewrite (draws_below_app n (1 + d1) d2 g g2 Hafter), Hfirst.
    rewrite first_drawn_app, filter_app, list_filter_filter.
    assert (filter (fun p => p ∉ selected) (first_drawn (init ++ [j'])) = [j'])
      as ->.
    { rewrite first_drawn_app, filter_app. cbn [first_drawn].
      rewrite filter_nil, (filter_none (fun p => p ∉ selected)).
      - rewrite filter_cons_True, filter_nil.
        + cbn [app]. by rewrite filter_cons_True, filter_nil.
        + intros Hin. apply Hfresh.
          by apply (proj1 (Forall_forall _ _) Hinit).
      - apply Forall_forall. intros p Hp Hnot.
        apply (proj1 (first_drawn_elem _ _)) in Hp.
        by apply Hnot, (proj1 (Forall_forall _ _) Hinit). }
    cbn [app]. f_equal. apply list_filter_iff. intros p.
    rewrite elem_of_app, list_elem_of_singleton, elem_of_union,
      elem_of_singleton.
    split.
    + intros Hnot. split.
      * intros Hsel. apply Hnot. by right.
      * intros Hor. destruct Hor as [Hin| ->]; apply Hnot; [right|by left].
        by apply (proj1 (Forall_forall _ _) Hinit).
    + intros [Hp Hnot] Hor. destruct Hor as [->|Hsel]; [|done].
      apply Hnot. by right.
Qed.

(** The loop comes to an end on a stream that is varied enough. *)
Lemma sample_set_finishes {A} fuel k n (population : list A) selected chosen
    g sample_size :
  0 < n -> n <= length population ->
  size selected + k <= sample_size ->
  varied fuel n sample_size g ->
  exists sel g',
    sample_set fuel k n population selected chosen g = (Ok sel, g').
Proof.
  intros Hn Hlen. revert selected chosen g.
  induction k as [|k IH]; intros selected chosen g Hsize Hvaried.
  - by exists chosen, g.
  - cbn [sample_set]. unfold randbelow.
    assert (exists j' g2,
      redraw fuel n selected (g 0 mod n) (fun i => g (S i)) = (Some j', g2))
      as (j' & g2 & Hredraw).
    { assert (size selected < sample_size) as Hless by lia.
      destruct (Hvaried 1 selected Hless) as (d & Hd & Hfresh).
      by apply (redraw_within fuel n selected _ (fun i => g (S i)) d). }
    rewrite Hredraw.
    pose proof (redraw_fresh _ _ _ _ _ _ _ Hredraw) as Hfresh.
    assert (g 0 mod n < n) as Hj by (apply Nat.mod_upper_bound; lia).
    pose proof (redraw_lt _ _ _ _ _ _ _ Hn Hj Hredraw) as Hj'.
    destruct (lookup_lt_is_Some_2 population j' ltac:(lia)) as [x ->].
    apply IH.
    + rewrite size_union, size_singleton by set_solver. lia.
    + destruct (redraw_after fuel n selected (g 0 mod n) (fun i => g (S i)))
        as (d & _ & Hafter).
      rewrite Hredraw in Hafter. simpl in Hafter.
      apply (varied_after _ _ _ (1 + d) g); [|done].
      eapply after_draws_trans; [|exact Hafter]. by intros i.
Qed.

(** The loop returns its sample or it is still drawing when its fuel is
    used up; it raises nothing. *)
Lemma sample_set_outcome {A} fuel k n (population : list A) selected chosen g :
  0 < n -> n <= length population ->
  (exists sel, (sample_set fuel k n population selected chosen g).1 = Ok sel) \/
  (sample_set fuel k n population selected chosen g).1 = Raise Unfinished.
Proof.
  intros Hn Hlen. revert selected chosen g.
  induction k as [|k IH]; intros selected chosen g.
  - left. by exists chosen.
  - cbn [sample_set]. unfold randbelow.
    destruct (redraw fuel n selected (g 0 mod n) (fun i => g (S i)))
      as [[j'|] g2] eqn:Hredraw; [|by right].
    assert (g 0 mod n < n) as Hj by (apply Nat.mod_upper_bound; lia).
    pose proof (redraw_lt _ _ _ _ _ _ _ Hn Hj Hredraw) as Hj'.
    destruct (lookup_lt_is_Some_2 population j' ltac:(lia)) as [x ->].
    apply IH.
Qed.

(** *** [random.sample] *)

Lemma records_at_length {A} (population : list A) positions records :
  records_at population positions records ->
  length records = length positions.
Proof. intros H. symmetry. by apply (Forall2_length _ _ _ H). Qed.

Lemma records_at_tagged {A} (population : list A) positions records :
  records_at population positions records ->
  Forall (fun p => p ∈ tagged population) (zip positions records).
Proof.
  induction 1 as [|i x positions records Hx _ IH]; [constructor|].
  cbn [zip zip_with]. constructor; [|done].
  apply (list_elem_of_lookup_2 _ i). unfold tagged.
  by rewrite list_lookup_imap, Hx.
Qed.

(** Records at different positions make a sub-multiset of the
    population. *)
Lemma records_at_submseteq {A} (population : list A) positions records :
  NoDup positions ->
  records_at population positions records ->
  records ⊆+ population.
Proof.
  intros Hnodup Hat.
  pose proof (records_at_length _ _ _ Hat) as Hlen.
  rewrite <- (tagged_snd population),
    <- (snd_zip positions records) by lia.
  apply fmap_submseteq, NoDup_submseteq.
  - apply (NoDup_fmap_1 fst). by rewrite fst_zip by lia.
  - by apply Forall_forall, records_at_tagged.
Qed.

Lemma records_at_seq n positions records :
  records_at (seq 0 n) positions records <->
  records = positions /\ Forall (fun p => p < n) positions.
Proof.
  split.
  - induction 1 as [|i x positions records Hx _ [-> IH]]; [done|].
    apply lookup_seq in Hx as [-> Hi]. split; [done | by constructor].
  - intros [-> Hall]. induction Hall as [|p positions Hp _ IH]; constructor;
      [by apply lookup_seq_lt | done].
Qed.

Lemma draws_below_lt n d g : 0 < n -> Forall (fun j => j < n) (draws_below n d g).
Proof.
  intros Hn. unfold draws_below. apply Forall_forall.
  intros j (i & -> & _)%list_elem_of_fmap. apply Nat.mod_upper_bound. lia.
Qed.

Section SampleProperties.

Context {A : Type}.
Variable setsize : Z -> Z.
Variable fuel : nat.

(** A negative [k] is refused before any draw. *)
Lemma random_sample_negative (population : list A) (k : Z) g :
  (k < 0)%Z ->
  random_sample setsize fuel population k g = (Raise ValueError, g).
Proof.
  intros Hk. unfold random_sample.
  by assert ((k <? 0)%Z = true) as -> by (apply Z.ltb_lt; lia).
Qed.

Lemma random_sample_after (population : list A) k g :
  exists d, after_draws d g (random_sample setsize fuel population k g).2.
Proof.
  unfold random_sample.
  destruct ((k <? 0) || (Z.of_nat (length population) <? k))%Z;
    [exists 0; apply after_draws_refl|].
  destruct (Z.of_nat (length population) <=? setsize k)%Z.
  - destruct (sample_loop_after (Z.to_nat k) (length population)
                population [] g) as (d & _ & Hd). by exists d.
  - apply sample_set_after.
Qed.

(** A sample that is returned holds [k] records of the population, none
    of them taken twice. *)
Lemma random_sample_selects (population : list A) (k : Z) g sampled g' :
  random_sample setsize fuel population k g = (Ok sampled, g') ->
  (0 <= k <= Z.of_nat (length population))%Z /\
  length sampled = Z.to_nat k /\ sampled ⊆+ population.
Proof.
  unfold random_sample.
  destruct ((k <? 0) || (Z.of_nat (length population) <? k))%Z eqn:Hk; [done|].
  apply orb_false_iff in Hk as [Hk0%Z.ltb_ge Hkn%Z.ltb_ge].
  destruct (Z.of_nat (length population) <=? setsize k)%Z.
  - destruct (sample_loop_selects (Z.to_nat k) (length population)
                population [] g) as (sel & g1 & Hrun & Hlen & Hsub); [lia..|].
    rewrite Hrun. intros [= <- <-]. split; [lia|]. split; [done|].
    by rewrite firstn_all in Hsub.
  - destruct (decide (length population = 0)) as [Hzero|Hpos].
    + replace (Z.to_nat k) with 0 by lia. cbn [sample_set].
      intros [= <- <-]. split; [lia|]. split; [done|]. apply submseteq_nil_l.
    + intros (d & positions & rest & _ & -> & Hrest & -> & Hlen)%sample_set_draws;
        [|lia].
      cbn [app]. split; [lia|]. split.
      * by rewrite (records_at_length _ _ _ Hrest).
      * apply (records_at_submseteq _ _ _ (NoDup_filter _ _
                 (first_drawn_NoDup _)) Hrest).
Qed.

(** With [0 <= k <= len(population)] the sample is returned, or the run
    is still drawing when its fuel is used up. *)
Lemma random_sample_outcome (population : list A) (k : Z) g :
  (0 <= k <= Z.of_nat (length population))%Z ->
  (exists sampled,
     (random_sample setsize fuel population k g).1 = Ok sampled) \/
  (random_sample setsize fuel population k g).1 = Raise Unfinished.
Proof.
  intros Hk. unfold random_sample.
  assert (((k <? 0) || (Z.of_nat (length population) <? k))%Z = false) as ->.
  { apply orb_false_iff. split; apply Z.ltb_ge; lia. }
  destruct (Z.of_nat (length population) <=? setsize k)%Z.
  - destruct (sample_loop_selects (Z.to_nat k) (length population)
                population [] g) as (sel & g1 & -> & _); [lia..|].
    left. by exists sel.
  - destruct (decide (length population = 0)) as [Hzero|Hpos].
    + replace (Z.to_nat k) with 0 by lia. left. by exists [].
    + apply sample_set_outcome; lia.
Qed.

(** The sample is returned for every stream when the population is at
    most [setsize], and for a larger one when the stream is varied. *)
Lemma random_sample_finishes (population : list A) (k : Z) g :
  (0 <= k <= Z.of_nat (length population))%Z ->
  (Z.of_nat (length population) <= setsize k)%Z \/
    varied fuel (length population) (Z.to_nat k) g ->
  exists sampled g',
    random_sample setsize fuel population k g = (Ok sampled, g').
Proof.
  intros Hk Hends. unfold random_sample.
  assert (((k <? 0) || (Z.of_nat (length population) <? k))%Z = false) as ->.
  { apply orb_false_iff. split; apply Z.ltb_ge; lia. }
  destruct (Z.of_nat (length population) <=? setsize k)%Z eqn:Hsize.
  - destruct (sample_loop_selects (Z.to_nat k) (length population)
                population [] g) as (sel & g1 & -> & _); [lia..|].
    by exists sel, g1.
  - destruct Hends as [Hpool|Hvaried]; [apply Z.leb_gt in Hsize; lia|].
    destruct (decide (length population = 0)) as [Hzero|Hpos].
    + replace (Z.to_nat k) with 0 by lia. by exists [], g.
    + apply (sample_set_finishes _ _ _ _ _ _ _ (Z.to_nat k));
        [lia | lia | rewrite size_empty; lia | done].
Qed.

End SampleProperties.

(** *** The positions [random.sample] chooses *)

Lemma redraw_new tries n selected j g :
  j ∉ selected -> redraw tries n selected j g = (Some j, g).
Proof.
  intros Hj. destruct tries; cbn [redraw]; by rewrite bool_decide_eq_false_2.
Qed.

(** Every choice of records of the unchosen part of the pool, in every
    order, is made on some stream. *)
Lemma sample_loop_reaches {A} m (pool chosen targets : list A) :
  m <= length pool -> NoDup (take m pool) -> NoDup targets ->
  (forall x, x ∈ targets -> x ∈ take m pool) ->
  exists g g',
    sample_loop (length targets) m pool chosen g
    = (Ok (chosen ++ targets), g').
Proof.
  revert m pool chosen.
  induction targets as [|x targets IH]; intros m pool chosen Hm Hpool Hnodup Hin.
  - exists (fun _ => 0), (fun _ => 0). by rewrite app_nil_r.
  - apply NoDup_cons in Hnodup as [Hx Hnodup].
    destruct (list_elem_of_lookup_1 _ _ (Hin x ltac:(left))) as [j Hj].
    pose proof (lookup_lt_Some _ _ _ Hj) as Hjm.
    rewrite length_take in Hjm.
    rewrite lookup_take_lt in Hj by lia.
    destruct (lookup_lt_is_Some_2 pool (m - 1) ltac:(lia)) as [y Hy].
    pose proof (pool_step pool m j x y ltac:(lia) Hm Hj Hy) as Hperm.
    destruct (IH (m - 1) (<[j:=y]> pool) (chosen ++ [x])) as (g & g' & Hrun).
    + rewrite length_insert. lia.
    + rewrite <- Hperm in Hpool. by apply NoDup_cons in Hpool as [_ ?].
    + done.
    + intros z Hz. pose proof (Hin z ltac:(by right)) as Hzm.
      rewrite <- Hperm in Hzm. apply elem_of_cons in Hzm as [->|?]; done.
    + exists (fun i => match i with O => j | S i' => g i' end), g'.
      cbn [length sample_loop]. unfold randbelow.
      rewrite Nat.mod_small by lia. rewrite Hj, Hy.
      by rewrite <- app_assoc in Hrun.
Qed.

(** Every choice of positions that are not chosen yet, in every order, is
    made on some stream, without a repeated draw. *)
Lemma sample_set_reaches {A} fuel n (population chosen : list A) selected
    positions records :
  NoDup positions ->
  Forall (fun p => p ∉ selected /\ p < n) positions ->
  records_at population positions records ->
  exists g g',
    sample_set fuel (length positions) n population selected chosen g
    = (Ok (chosen ++ records), g').
Proof.
  intros Hnodup Hall Hat. revert selected chosen Hnodup Hall.
  induction Hat as [|p x positions records Hx _ IH];
    intros selected chosen Hnodup Hall.
  - exists (fun _ => 0), (fun _ => 0). by rewrite app_nil_r.
  - apply NoDup_cons in Hnodup as [Hp Hnodup].
    apply Forall_cons in Hall as [[Hfresh Hlt] Hall].
    destruct (IH ({[p]} ∪ selected) (chosen ++ [x]) Hnodup)
      as (g & g' & Hrun).
    { apply Forall_forall. intros q Hq.
      pose proof (proj1 (Forall_forall _ _) Hall q Hq) as [? ?].
      split; [|done]. set_solver. }
    exists (fun i => match i with O => p | S i' => g i' end), g'.
    cbn [length sample_set]. unfold randbelow.
    rewrite Nat.mod_small by lia.
    rewrite (redraw_new _ _ _ _ _ Hfresh), Hx.
    by rewrite <- app_assoc in Hrun.
Qed.

Section PositionProperties.

Variable setsize : Z -> Z.
Variable fuel : nat.

Lemma random_sample_map {A B} (f : A -> B) (population : list A) k g :
  random_sample setsize fuel (f <$> population) k g
  = map_outcome f (random_sample setsize fuel population k g).
Proof.
  unfold random_sample. rewrite length_fmap.
  destruct ((k <? 0) || (Z.of_nat (length population) <? k))%Z; [done|].
  destruct (Z.of_nat (length population) <=? setsize k)%Z.
  - apply (sample_loop_map f _ _ population []).
  - apply (sample_set_map f _ _ _ population []).
Qed.

(** What [random.sample] chooses is positions: the sample of a population
    holds the records at the positions that are the sample of
    [range(len(population))] on the same stream. *)
Lemma random_sample_positions {A} (population : list A) k g sampled g' :
  random_sample setsize fuel population k g = (Ok sampled, g') <->
  exists positions,
    random_sample setsize fuel (seq 0 (length population)) k g
      = (Ok positions, g') /\
    records_at population positions sampled.
Proof.
  destruct population as [|x0 population'] eqn:Hpop.
  { unfold random_sample. cbn [length seq]. change (Z.of_nat 0) with 0%Z.
    destruct ((k <? 0) || (0 <? k))%Z eqn:Hk.
    - split; [done | by intros (? & ? & _)].
    - apply orb_false_iff in Hk as [Hk0%Z.ltb_ge Hkn%Z.ltb_ge].
      replace (Z.to_nat k) with 0 by lia.
      destruct (0 <=? setsize k)%Z; cbn [sample_loop sample_set].
      + split.
        * intros [= <- <-]. exists []. split; [done | constructor].
        * intros (ps & [= <- <-] & ->%Forall2_nil_inv_l). done.
      + split.
        * intros [= <- <-]. exists []. split; [done | constructor].
        * intros (ps & [= <- <-] & ->%Forall2_nil_inv_l). done. }
  rewrite <- Hpop.
  set (f := fun i => default x0 (population !! i)).
  assert (population = f <$> seq 0 (length population)) as Hf.
  { apply list_eq. intros i. rewrite list_lookup_fmap.
    destruct (population !! i) as [x|] eqn:Hx.
    - rewrite lookup_seq_lt by (by apply lookup_lt_Some in Hx).
      simpl. unfold f. by rewrite Hx.
    - rewrite lookup_seq_ge; [done|]. by apply lookup_ge_None in Hx. }
  assert (forall positions records,
    Forall (fun p => p < length population) positions ->
    records_at population positions records <-> records = f <$> positions)
    as Hat.
  { intros positions records Hall. split.
    - induction 1 as [|p x ps rs Hx _ IH]; [done|].
      apply Forall_cons in Hall as [_ Hall].
      cbn [fmap list_fmap]. unfold f at 1. rewrite Hx. simpl.
      f_equal. by apply IH.
    - intros ->. induction Hall as [|p ps Hp _ IH]; [constructor|].
      cbn [fmap list_fmap]. constructor; [|done].
      destruct (lookup_lt_is_Some_2 population p Hp) as [x Hx].
      unfold f. by rewrite Hx. }
  rewrite Hf at 1. rewrite random_sample_map.
  destruct (random_sample setsize fuel (seq 0 (length population)) k g)
    as [[ps|e] g1] eqn:Hrun; unfold map_outcome; cbn [fst snd].
  - apply random_sample_selects in Hrun as (_ & _ & Hsub).
    assert (Forall (fun p => p < length population) ps) as Hall.
    { apply Forall_forall. intros p Hp.
      apply (elem_of_submseteq _ _ _ Hp) in Hsub.
      apply elem_of_seq in Hsub. lia. }
    split.
    + intros [= <- <-]. exists ps. split; [done|]. by apply Hat.
    + intros (ps' & [= <- <-] & Hrecords). by apply Hat in Hrecords as ->.
  - split; [done | by intros (? & ? & _)].
Qed.

(** The positions are [k] different positions of the population. *)
Lemma random_sample_distinct n k g positions g' :
  random_sample setsize fuel (seq 0 n) k g = (Ok positions, g') ->
  NoDup positions /\ Forall (fun p => p < n) positions /\
  length positions = Z.to_nat k.
Proof.
  intros (_ & Hlen & Hsub)%random_sample_selects.
  split; [|split; [|done]].
  - apply submseteq_Permutation in Hsub as [rest Hperm].
    pose proof (NoDup_seq 0 n) as Hnodup. rewrite Hperm in Hnodup.
    by apply NoDup_app in Hnodup as [? _].
  - apply Forall_forall. intros p Hp.
    apply (elem_of_submseteq _ _ _ Hp) in Hsub.
    apply elem_of_seq in Hsub. lia.
Qed.

(** Every choice of different positions, in every order, is the sample of
    some stream. *)
Lemma random_sample_reaches n positions :
  NoDup positions -> Forall (fun p => p < n) positions ->
  exists g g',
    random_sample setsize fuel (seq 0 n) (Z.of_nat (length positions)) g
    = (Ok positions, g').
Proof.
  intros Hnodup Hall. unfold random_sample. rewrite length_seq.
  assert (length positions <= n) as Hlen.
  { assert (positions ⊆+ seq 0 n) as Hsub.
    { apply NoDup_submseteq; [done|]. intros p Hp. apply elem_of_seq.
      pose proof (proj1 (Forall_forall _ _) Hall p Hp) as Hlt. simpl in Hlt. lia. }
    apply submseteq_length in Hsub. by rewrite length_seq in Hsub. }
  assert (((Z.of_nat (length positions) <? 0)
           || (Z.of_nat n <? Z.of_nat (length positions)))%Z = false) as ->.
  { apply orb_false_iff. split; apply Z.ltb_ge; lia. }
  rewrite Nat2Z.id.
  destruct (Z.of_nat n <=? setsize (Z.of_nat (length positions)))%Z.
  - destruct (sample_loop_reaches n (seq 0 n) [] positions)
      as (g & g' & Hrun).
    + by rewrite length_seq.
    + rewrite take_ge by (by rewrite length_seq). apply NoDup_seq.
    + done.
    + intros p Hp. rewrite take_ge by (by rewrite length_seq).
      apply elem_of_seq. pose proof (proj1 (Forall_forall _ _) Hall p Hp) as Hlt. simpl in Hlt. lia.
    + by exists g, g'.
  - destruct (sample_set_reaches fuel n (seq 0 n) [] ∅ positions positions)
      as (g & g' & Hrun).
    + done.
    + apply Forall_forall. intros p Hp.
      split; [set_solver|]. by apply (proj1 (Forall_forall _ _) Hall).
    + by apply records_at_seq.
    + by exists g, g'.
Qed.

(** For a population of at most [setsize], two streams that give the same
    positions made the same draws, the [i]-th below [n - i]: each choice
    of positions is the sample of one sequence of draws. *)
Lemma random_sample_pool_draws n k g1 g2 positions g1' g2' :
  (Z.of_nat n <= setsize k)%Z ->
  random_sample setsize fuel (seq 0 n) k g1 = (Ok positions, g1') ->
  random_sample setsize fuel (seq 0 n) k g2 = (Ok positions, g2') ->
  forall i, i < Z.to_nat k -> g1 i mod (n - i) = g2 i mod (n - i).
Proof.
  intros Hpool. unfold random_sample. rewrite length_seq.
  destruct ((k <? 0) || (Z.of_nat n <? k))%Z eqn:Hk; [done|].
  apply orb_false_iff in Hk as [Hk0%Z.ltb_ge Hkn%Z.ltb_ge].
  assert ((Z.of_nat n <=? setsize k)%Z = true) as -> by by apply Z.leb_le.
  apply sample_loop_draws.
  - lia.
  - by rewrite length_seq.
  - rewrite take_ge by (by rewrite length_seq). apply NoDup_seq.
Qed.

(** For a larger population, the positions are the draws, reduced below
    [n], in the order they are first drawn: a draw that came before is
    passed over. *)
Lemma random_sample_set_draws n k g positions g' :
  (setsize k < Z.of_nat n)%Z ->
  random_sample setsize fuel (seq 0 n) k g = (Ok positions, g') ->
  exists d,
    after_draws d g g' /\
    positions = first_drawn (draws_below n d g) /\
    length positions = Z.to_nat k.
Proof.
  intros Hset Hrun.
  pose proof (random_sample_distinct _ _ _ _ _ Hrun) as (_ & _ & Hlen).
  revert Hrun. unfold random_sample. rewrite length_seq.
  destruct ((k <? 0) || (Z.of_nat n <? k))%Z eqn:Hk; [done|].
  assert ((Z.of_nat n <=? setsize k)%Z = false) as -> by by apply Z.leb_gt.
  destruct (decide (n = 0)) as [->|Hpos].
  - apply orb_false_iff in Hk as [Hk0%Z.ltb_ge Hkn%Z.ltb_ge].
    replace (Z.to_nat k) with 0 by lia. cbn [sample_set].
    intros [= <- <-]. exists 0. split; [apply after_draws_refl | done].
  - intros (d & ps & rest & Hafter & -> & Hrest & -> & _)%sample_set_draws;
      [|lia].
    apply records_at_seq in Hrest as [-> _]. exists d.
    cbn [app] in *. split; [done|]. split; [|done].
    apply filter_all, Forall_forall. intros p _. set_solver.
Qed.

End PositionProperties.
(** ** Category balancer *)

Lemma in_category_key key entry k :
  category_key entry = Ok k -> in_category key entry = bool_decide (k = key).
Proof. intros H. unfold in_category. by rewrite H. Qed.

Lemma in_category_true key entry :
  in_category key entry = true -> category_key entry = Ok key.
Proof.
  unfold in_category. destruct (category_key entry) as [k|]; [|done].
  by intros ->%bool_decide_eq_true.
Qed.

Lemma filter_snoc {A} (f : A -> bool) l x :
  List.filter f (l ++ [x]) = List.filter f l ++ (if f x then [x] else []).
Proof. by rewrite List.filter_app. Qed.

Lemma group_append_keys k e groups :
  map fst (group_append k e groups)
  = if decide (k ∈ map fst groups) then map fst groups
    else map fst groups ++ [k].
Proof.
  induction groups as [|[c es] groups IH]; cbn [group_append map fst].
  - destruct (decide (k ∈ [])) as [Hin|]; [|done].
    by apply not_elem_of_nil in Hin.
  - destruct (decide (c = k)) as [->|Hne]; cbn [map fst].
    + destruct (decide (k ∈ k :: map fst groups)) as [|Hnotin]; [done|].
      destruct Hnotin. apply list_elem_of_here.
    + rewrite IH. destruct (decide (k ∈ map fst groups)) as [Hin|Hnotin];
        destruct (decide (k ∈ c :: map fst groups)) as [Hin'|Hnotin'];
        try done.
      * destruct Hnotin'. by apply list_elem_of_further.
      * apply elem_of_cons in Hin' as [?|?]; congruence.
Qed.

Lemma group_append_nonempty k e groups :
  Forall (fun group => snd group <> []) groups ->
  Forall (fun group => snd group <> []) (group_append k e groups).
Proof.
  induction 1 as [|[c es] groups Hes Hall IH]; simpl.
  - constructor; [done | constructor].
  - destruct (decide (c = k)); constructor; try done.
    simpl in *. by destruct es.
Qed.

Lemma group_append_entries pre k e groups :
  category_key e = Ok k ->
  NoDup (map fst groups) ->
  (k ∉ map fst groups -> List.filter (in_category k) pre = []) ->
  Forall (fun group =>
    snd group = List.filter (in_category (fst group)) pre) groups ->
  Forall (fun group =>
    snd group = List.filter (in_category (fst group)) (pre ++ [e]))
    (group_append k e groups).
Proof.
  intros Hk Hnodup Hfresh Hall.
  induction Hall as [|[c es] groups Hes Hall IH]; simpl.
  - constructor; [|constructor]. simpl.
    rewrite filter_snoc, Hfresh by apply not_elem_of_nil.
    by rewrite (in_category_key _ _ _ Hk), bool_decide_eq_true_2.
  - simpl in Hnodup, Hes. apply NoDup_cons in Hnodup as [Hc Hnodup].
    destruct (decide (c = k)) as [->|Hne].
    + constructor; simpl.
      * rewrite filter_snoc, (in_category_key _ _ _ Hk), bool_decide_eq_true_2
          by done. by rewrite <- Hes.
      * apply Forall_forall. intros [c' es'] Hin.
        pose proof (proj1 (Forall_forall _ _) Hall _ Hin) as Heq. simpl in *.
        rewrite filter_snoc, (in_category_key _ _ _ Hk), bool_decide_eq_false_2.
        -- by rewrite app_nil_r.
        -- intros ->. apply Hc. apply list_elem_of_fmap. by exists (c', es').
    + constructor; simpl.
      * rewrite filter_snoc, (in_category_key _ _ _ Hk), bool_decide_eq_false_2
          by done. by rewrite app_nil_r.
      * apply IH; [done|]. intros Hnotin. apply Hfresh. simpl.
        intros [?|?]%elem_of_cons; [congruence | done].
Qed.

Lemma grouped_append pre k e groups :
  category_key e = Ok k ->
  grouped pre groups -> grouped (pre ++ [e]) (group_append k e groups).
Proof.
  intros Hk (Hnodup & Hnonempty & Hentries & Hfresh).
  split; [|split; [|split]].
  - rewrite group_append_keys. destruct (decide (k ∈ map fst groups)); [done|].
    apply NoDup_app. split; [done|]. split.
    + intros x Hx ->%list_elem_of_singleton. done.
    + apply NoDup_singleton.
  - by apply group_append_nonempty.
  - apply group_append_entries; auto.
  - intros key. rewrite group_append_keys.
    destruct (decide (k ∈ map fst groups)) as [Hin|Hnotin]; intros Hkey.
    + rewrite filter_snoc, Hfresh, (in_category_key _ _ _ Hk) by done.
      rewrite bool_decide_eq_false_2; [done|]. by intros ->.
    + rewrite filter_snoc, Hfresh, (in_category_key _ _ _ Hk)
        by (intros ?; apply Hkey, elem_of_app; by left).
      rewrite bool_decide_eq_false_2; [done|].
      intros ->. apply Hkey, elem_of_app. right. by apply list_elem_of_singleton.
Qed.

Lemma grouped_nil : grouped [] [].
Proof.
  split; [constructor|]. split; [constructor|]. split; [constructor|done].
Qed.

Lemma bind_raise {A B} e (f : A -> result B) : (Raise e ≫= f) = Raise e.
Proof. reflexivity. Qed.

Lemma group_by_category_eval entry data groups k :
  category_key entry = Ok k ->
  group_by_category (entry :: data) groups
  = group_by_category data (group_append k entry groups).
Proof.
  unfold category_key. cbn [group_by_category].
  destruct (getitem entry "metadata") as [meta|]; bind_step.
  destruct (getitem meta "category") as [c|]; bind_step.
  destruct (hash_key c) as [key|]; bind_step.
  by intros [= ->].
Qed.

Lemma group_by_category_fails entry data groups e :
  category_key entry = Raise e ->
  group_by_category (entry :: data) groups = Raise e.
Proof.
  unfold category_key. cbn [group_by_category].
  destruct (getitem entry "metadata") as [meta|];
    [rewrite !bind_ok | rewrite !bind_raise; by intros [= ->]].
  destruct (getitem meta "category") as [c|];
    [rewrite !bind_ok | rewrite !bind_raise; by intros [= ->]].
  destruct (hash_key c) as [key|]; [done|].
  rewrite !bind_raise. by intros [= ->].
Qed.

(** Grouping succeeds on records that all have a category, and files every
    record under its category. *)
Lemma group_by_category_grouped data pre acc :
  Forall (fun entry => is_ok (category_key entry) = true) data ->
  grouped pre acc ->
  exists groups,
    group_by_category data acc = Ok groups /\ grouped (pre ++ data) groups.
Proof.
  intros Hall. revert pre acc.
  induction Hall as [|e data He _ IH]; intros pre acc Hacc.
  - exists acc. by rewrite app_nil_r.
  - destruct (category_key e) as [k|] eqn:Hk; [|done].
    rewrite (group_by_category_eval _ _ _ _ Hk).
    destruct (IH (pre ++ [e]) (group_append k e acc)) as (groups & Hrun & Hg).
    { by apply grouped_append. }
    exists groups. by rewrite <- app_assoc in Hg.
Qed.

Lemma kept_of_submseteq cap entries kept :
  kept_of cap entries kept -> kept ⊆+ entries.
Proof.
  unfold kept_of. destruct (cap <? Z.of_nat (length entries))%Z.
  - by intros [_ ?].
  - by intros ->.
Qed.

Lemma filter_of_category key k (sel entries data : list json) :
  sel ⊆+ entries ->
  entries = List.filter (in_category k) data ->
  List.filter (in_category key) sel = if decide (k = key) then sel else [].
Proof.
  intros Hsub ->.
  assert (Forall (fun e => category_key e = Ok k) sel) as Hall.
  { apply Forall_forall. intros e He.
    apply (elem_of_submseteq _ _ _ He) in Hsub.
    apply list_elem_of_In, List.filter_In in Hsub as [_ Hcat].
    by apply in_category_true. }
  clear Hsub. induction Hall as [|e sel He _ IH]; simpl.
  - by destruct (decide (k = key)).
  - rewrite (in_category_key _ _ _ He), IH.
    destruct (decide (k = key)) as [->|Hne].
    + by rewrite bool_decide_eq_true_2.
    + by rewrite bool_decide_eq_false_2.
Qed.

Lemma filter_concat_kept data cap key groups kept :
  Forall2 (fun group sel => kept_of cap (snd group) sel) groups kept ->
  NoDup (map fst groups) ->
  Forall (fun group =>
    snd group = List.filter (in_category (fst group)) data) groups ->
  (key ∉ map fst groups -> List.filter (in_category key) (concat kept) = []) /\
  (key ∈ map fst groups ->
     kept_of cap (List.filter (in_category key) data)
       (List.filter (in_category key) (concat kept))).
Proof.
  induction 1 as [|[c es] sel groups kept Hsel _ IH]; intros Hnodup Hall.
  - split; [done|]. by intros ?%not_elem_of_nil.
  - simpl in Hnodup. apply NoDup_cons in Hnodup as [Hc Hnodup].
    apply Forall_cons in Hall as [Hes Hall]. simpl in Hes, Hsel.
    destruct (IH Hnodup Hall) as [IHout IHin].
    simpl. rewrite List.filter_app.
    rewrite (filter_of_category key c sel es data)
      by eauto using kept_of_submseteq.
    destruct (decide (c = key)) as [->|Hne].
    + split; [intros Hout; destruct Hout; apply list_elem_of_here|].
      intros _. rewrite (IHout Hc), app_nil_r. by rewrite <- Hes.
    + split.
      * intros Hout. apply IHout. intros ?. apply Hout.
        by apply list_elem_of_further.
      * intros [?|Hin]%elem_of_cons; [congruence|]. by apply IHin.
Qed.

Lemma grouped_nonempty data groups :
  Forall (fun entry => is_ok (category_key entry) = true) data ->
  data <> [] -> grouped data groups ->
  exists c es groups', groups = (c, es) :: groups' /\ es <> [].
Proof.
  intros Hall Hdata (_ & Hnonempty & _ & Hfresh).
  destruct groups as [|[c es] groups'].
  - destruct data as [|e data]; [done|].
    apply Forall_cons in Hall as [He _].
    destruct (category_key e) as [k|] eqn:Hk; [|done].
    specialize (Hfresh k ltac:(apply not_elem_of_nil)). simpl in Hfresh.
    by rewrite (in_category_key _ _ _ Hk), bool_decide_eq_true_2 in Hfresh.
  - apply Forall_cons in Hnonempty as [Hes _]. by exists c, es, groups'.
Qed.

Section BalancerProperties.

Variable setsize : Z -> Z.
Variable fuel : nat.

(** What a loop that comes to its end has kept, category by category. *)
Lemma balance_loop_keeps groups cap balanced g out g' :
  (0 < cap)%Z ->
  balance_loop setsize fuel groups cap balanced g = (Ok out, g') ->
  exists kept,
    out = balanced ++ concat kept /\
    Forall2 (fun group sel => kept_of cap (snd group) sel) groups kept /\
    sampled_in_turn setsize fuel cap (map snd groups) kept g g'.
Proof.
  intros Hcap. revert balanced g.
  induction groups as [|[c es] groups IH]; intros balanced g.
  - cbn [balance_loop]. intros [= <- <-]. exists [].
    rewrite app_nil_r. split; [done|]. split; [constructor | done].
  - cbn [balance_loop map snd sampled_in_turn].
    destruct (cap <? Z.of_nat (length es))%Z eqn:Hover.
    + destruct (random_sample setsize fuel es cap g) as [[sampled|] g1]
        eqn:Hsample; [|done].
      intros (kept & -> & Hkept & Hturn)%IH.
      pose proof (random_sample_selects _ _ _ _ _ _ _ Hsample)
        as (_ & Hlen & Hsub).
      exists (sampled :: kept). cbn [concat]. rewrite app_assoc.
      split; [done|]. split.
      * constructor; [|done]. unfold kept_of. simpl. by rewrite Hover.
      * by exists g1.
    + intros (kept & -> & Hkept & Hturn)%IH.
      exists (es :: kept). cbn [concat]. rewrite app_assoc.
      split; [done|]. split.
      * constructor; [|done]. unfold kept_of. simpl. by rewrite Hover.
      * done.
Qed.

Lemma balance_loop_after groups cap balanced g :
  exists d,
    after_draws d g (balance_loop setsize fuel groups cap balanced g).2.
Proof.
  revert balanced g. induction groups as [|[c es] groups IH]; intros balanced g.
  - exists 0. apply after_draws_refl.
  - cbn [balance_loop]. destruct (cap <? Z.of_nat (length es))%Z; [|apply IH].
    destruct (random_sample_after setsize fuel es cap g) as (d1 & Hd1).
    destruct (random_sample setsize fuel es cap g) as [[sampled|] g1];
      simpl in Hd1; [|by exists d1].
    destruct (IH (balanced ++ sampled) g1) as (d2 & Hd2).
    exists (d1 + d2). by eapply after_draws_trans.
Qed.

(** The loop returns, or it is still drawing when its fuel is used up. *)
Lemma balance_loop_outcome groups cap balanced g :
  (0 < cap)%Z ->
  (exists out, (balance_loop setsize fuel groups cap balanced g).1 = Ok out) \/
  (balance_loop setsize fuel groups cap balanced g).1 = Raise Unfinished.
Proof.
  intros Hcap. revert balanced g.
  induction groups as [|[c es] groups IH]; intros balanced g.
  - left. by exists balanced.
  - cbn [balance_loop].
    destruct (cap <? Z.of_nat (length es))%Z eqn:Hover; [|apply IH].
    apply Z.ltb_lt in Hover.
    assert (0 <= cap <= Z.of_nat (length es))%Z as Hrange by lia.
    destruct (random_sample_outcome setsize fuel es cap g Hrange)
      as [[sampled Hsample]|Hsample];
      destruct (random_sample setsize fuel es cap g) as [[?|?] g1];
      simpl in Hsample; simplify_eq; [apply IH | by right].
Qed.

(** The loop returns when the sample of every category comes to an end. *)
Lemma balance_loop_finishes groups cap balanced g :
  (0 < cap)%Z ->
  Forall (fun group : pykey * list json =>
    let n := length (snd group) in
    (cap < Z.of_nat n)%Z ->
    (Z.of_nat n <= setsize cap)%Z \/ varied fuel n (Z.to_nat cap) g) groups ->
  exists out g',
    balance_loop setsize fuel groups cap balanced g = (Ok out, g').
Proof.
  intros Hcap Hall. revert balanced g Hall.
  induction groups as [|[c es] groups IH]; intros balanced g Hall.
  - by exists balanced, g.
  - apply Forall_cons in Hall as [Hes Hall]. simpl in Hes.
    cbn [balance_loop].
    destruct (cap <? Z.of_nat (length es))%Z eqn:Hover; [|by apply IH].
    apply Z.ltb_lt in Hover.
    assert (0 <= cap <= Z.of_nat (length es))%Z as Hrange by lia.
    destruct (random_sample_finishes setsize fuel es cap g Hrange
                (Hes Hover)) as (sampled & g1 & Hsample).
    destruct (random_sample_after setsize fuel es cap g) as (d & Hd).
    rewrite Hsample in *. simpl in Hd. apply IH.
    eapply Forall_impl; [exact Hall|]. intros [c' es'] Hends.
    cbv zeta in *. intros Hlt.
    destruct (Hends Hlt) as [?|Hvaried]; [by left|right].
    by apply (varied_after _ _ _ d g).
Qed.

(** C2. On records that all have a category: with no cap the balancer
    returns its input and the stream as they are.  With a positive cap, a
    run that comes to its end has kept of every category exactly
    [max_per_category] records when the category has more, and all of its
    records otherwise; what it returns is, category after category, the
    sample [random.sample] draws of a category over the cap from the stream
    where the category before left it.  The run comes to its end on every
    stream when no category over the cap has more than [setsize] records,
    and on a varied stream otherwise; it raises nothing.
    [random.sample] chooses positions, never looking at the records: [k]
    different positions, read off the draws.  Every choice of [k]
    different positions, in every order, is the sample of some stream; for
    a population of at most [setsize] it is the sample of one sequence of
    draws only, the [i]-th taken below [n - i]; for a larger population the
    positions are the draws below [n] in the order they first come, a
    repeated draw being passed over.  Uniform draws thus give every sample
    the same chance. *)
Theorem balance_dataset_caps data max_per_category g :
  Forall (fun entry => is_ok (category_key entry) = true) data ->
  (max_per_category = None ->
     balance_dataset setsize fuel data max_per_category g = (Ok data, g)) /\
  (forall cap,
     max_per_category = Some cap -> (0 < cap)%Z ->
     (forall balanced g',
        balance_dataset setsize fuel data max_per_category g
          = (Ok balanced, g') ->
        (forall key,
           kept_of cap (List.filter (in_category key) data)
             (List.filter (in_category key) balanced)) /\
        exists groups kept,
          grouped data groups /\ balanced = concat kept /\
          sampled_in_turn setsize fuel cap (map snd groups) kept g g') /\
     (sampling_ends setsize fuel cap data g ->
        exists balanced g',
          balance_dataset setsize fuel data max_per_category g
            = (Ok balanced, g')) /\
     ((exists balanced,
         (balance_dataset setsize fuel data max_per_category g).1
           = Ok balanced) \/
      (balance_dataset setsize fuel data max_per_category g).1
        = Raise Unfinished)) /\
  (forall (population : list json) k g0 sampled g1,
     random_sample setsize fuel population k g0 = (Ok sampled, g1) <->
     exists positions,
       random_sample setsize fuel (seq 0 (length population)) k g0
         = (Ok positions, g1) /\
       records_at population positions sampled) /\
  (forall n k g0 positions g1,
     random_sample setsize fuel (seq 0 n) k g0 = (Ok positions, g1) ->
     NoDup positions /\
     Forall (fun p => p < n) positions /\
     length positions = Z.to_nat k /\
     ((Z.of_nat n <= setsize k)%Z ->
        forall g2 g3,
          random_sample setsize fuel (seq 0 n) k g2 = (Ok positions, g3) ->
          forall i, i < Z.to_nat k -> g0 i mod (n - i) = g2 i mod (n - i)) /\
     ((setsize k < Z.of_nat n)%Z ->
        exists d,
          after_draws d g0 g1 /\
          positions = first_drawn (draws_below n d g0))) /\
  (forall n positions,
     NoDup positions -> Forall (fun p => p < n) positions ->
     exists g0 g1,
       random_sample setsize fuel (seq 0 n) (Z.of_nat (length positions)) g0
       = (Ok positions, g1)).
Proof.
  intros Hall.
  destruct (group_by_category_grouped data [] [] Hall grouped_nil)
    as (groups & Hrun & Hgrouped).
  split; [|split; [|split; [|split]]].
  - intros ->. unfold balance_dataset. by rewrite Hrun.
  - intros cap -> Hcap. unfold balance_dataset. rewrite Hrun. cbn [cap_set].
    assert ((cap =? 0)%Z = false) as -> by (apply Z.eqb_neq; lia).
    split; [|split].
    + intros balanced g' (kept & -> & Hkept & Hturn)%balance_loop_keeps;
        [|done].
      cbn [app]. split; [|by exists groups, kept].
      intros key. destruct Hgrouped as (Hnodup & _ & Hentries & Hfresh).
      destruct (filter_concat_kept data cap key groups kept Hkept Hnodup
                  Hentries) as [Hout Hin].
      destruct (decide (key ∈ map fst groups)) as [Hkey|Hkey]; [by apply Hin|].
      simpl in Hfresh. rewrite (Hfresh key Hkey), (Hout Hkey).
      unfold kept_of. change (Z.of_nat (length (@nil json))) with 0%Z.
      by assert ((cap <? 0)%Z = false) as -> by (apply Z.ltb_ge; lia).
    + intros Hends. apply balance_loop_finishes; [done|].
      destruct Hgrouped as (_ & _ & Hentries & _).
      eapply Forall_impl; [exact Hentries|]. intros [c es] Hes. simpl in *.
      rewrite Hes. apply Hends.
    + by apply balance_loop_outcome.
  - intros population k g0 sampled g1. apply random_sample_positions.
  - intros n k g0 positions g1 Hsample.
    pose proof (random_sample_distinct _ _ _ _ _ _ _ Hsample)
      as (Hnodup & Hlt & Hlen).
    split; [done|]. split; [done|]. split; [done|]. split.
    + intros Hpool g2 g3 Hsample2.
      by apply (random_sample_pool_draws setsize fuel n k g0 g2 positions g1 g3).
    + intros Hset.
      destruct (random_sample_set_draws _ _ _ _ _ _ _ Hset Hsample)
        as (d & Hafter & Hpositions & _).
      by exists d.
  - apply random_sample_reaches.
Qed.

Lemma balance_dataset_zero_cap data g :
  Forall (fun entry => is_ok (category_key entry) = true) data ->
  balance_dataset setsize fuel data (Some 0%Z) g = (Ok data, g).
Proof.
  intros Hall.
  destruct (group_by_category_grouped data [] [] Hall grouped_nil)
    as (groups & Hrun & _).
  unfold balance_dataset. by rewrite Hrun.
Qed.

Lemma balance_dataset_negative_cap data cap g :
  Forall (fun entry => is_ok (category_key entry) = true) data ->
  (cap < 0)%Z ->
  balance_dataset setsize fuel data (Some cap) g
  = (match data with [] => Ok [] | _ => Raise ValueError end, g).
Proof.
  intros Hall Hcap.
  destruct (group_by_category_grouped data [] [] Hall grouped_nil)
    as (groups & Hrun & Hgrouped).
  unfold balance_dataset. rewrite Hrun. cbn [cap_set].
  assert ((cap =? 0)%Z = false) as -> by (apply Z.eqb_neq; lia).
  destruct data as [|e data].
  - simpl in Hrun. by injection Hrun as <-.
  - destruct (grouped_nonempty _ _ Hall ltac:(done) Hgrouped)
      as (c & es & groups' & -> & Hes).
    cbn [balance_loop].
    assert ((cap <? Z.of_nat (length es))%Z = true) as ->
      by (apply Z.ltb_lt; lia).
    by rewrite random_sample_negative.
Qed.

End BalancerProperties.

Lemma balance_dataset_caps_witness :
  exists balanced g',
    balance_dataset table_setsize 0 scenario_example (Some 1%Z) (fun _ => 0)
      = (Ok balanced, g') /\
    length (List.filter (in_category (KStr "polyp")) balanced) = 1.
Proof.
  destruct (balance_dataset_caps table_setsize 0 scenario_example (Some 1%Z)
              (fun _ => 0)) as (_ & Hcap & _).
  - repeat constructor.
  - destruct (Hcap 1%Z eq_refl ltac:(lia)) as (Hkept & Hends & _).
    destruct Hends as (balanced & g' & Hrun).
    + intros key n _. left.
      pose proof (List.filter_length_le (in_category key) scenario_example)
        as Hle.
      change (length scenario_example) with 4 in Hle. subst n.
      change (table_setsize 1) with 21%Z. lia.
    + exists balanced, g'. split; [exact Hrun|].
      exact (proj1 (proj1 (Hkept balanced g' Hrun) (KStr "polyp"))).
Defined.

Lemma count_loop_counted l keys s :
  Forall2 (fun entry ks => counted_keys entry = Ok ks) l keys ->
  count_loop l s = Ok (foldl (fun s ks => add_counts ks s) s keys).
Proof.
  intros Hall. revert s. induction Hall as [|e ks l keys He _ IH]; intros s.
  - done.
  - by rewrite count_loop_cons, He, bind_ok, IH.
Qed.

(** ** Pipeline orchestrator *)

Section PipelineProperties.

Variable json_loads : string -> result json.
Variable setsize : Z -> Z.
Variable fuel : nat.

Lemma run_bind_lift {A B} (r : result A) (f : A -> run B) w :
  run_bind (lift r) f w
  = match r with Ok a => f a w | Raise e => (Raise e, w) end.
Proof. by destruct r. Qed.

Lemma run_bind_ret {A B} (a : A) (f : A -> run B) w :
  run_bind (run_ret a) f w = f a w.
Proof. reflexivity. Qed.

Lemma run_bind_with_random {A B} (f : rng -> result A * rng)
    (k : A -> run B) w :
  run_bind (with_random f) k w
  = match f (random w) with
    | (Ok a, g') => k a {| random := g'; written := written w |}
    | (Raise e, g') => (Raise e, {| random := g'; written := written w |})
    end.
Proof. unfold run_bind, with_random. by destruct (f (random w)) as [[?|?] ?]. Qed.

Lemma run_bind_write {B} (e : event) (k : unit -> run B) w :
  run_bind (write_file e) k w
  = k tt {| random := random w; written := written w ++ [e] |}.
Proof. reflexivity. Qed.

Lemma write_lines_prefix formatted_data file :
  write_lines formatted_data file
  = (if forallb encodable formatted_data then Ok tt
     else Raise UnicodeEncodeError,
     file ++ encodable_prefix formatted_data).
Proof.
  revert file. induction formatted_data as [|entry rest IH]; intros file.
  - cbn [write_lines forallb encodable_prefix]. by rewrite app_nil_r.
  - cbn [write_lines forallb encodable_prefix].
    destruct (encodable entry); cbn [andb].
    + by rewrite IH, <- app_assoc.
    + by rewrite app_nil_r.
Qed.

Lemma run_bind_write_formatted {B} formatted_data (k : unit -> run B) w :
  run_bind (write_formatted formatted_data) k w
  = if forallb encodable formatted_data
    then k tt {| random := random w;
                 written := written w ++ [WriteFormatted formatted_data] |}
    else (Raise UnicodeEncodeError,
          {| random := random w;
             written := written w
                        ++ [WriteFormatted (encodable_prefix formatted_data)] |}).
Proof.
  unfold run_bind, write_formatted. rewrite write_lines_prefix. cbn [app].
  destruct (forallb encodable formatted_data) eqn:Hall; [|done].
  replace (encodable_prefix formatted_data) with formatted_data; [done|].
  clear k w. induction formatted_data as [|entry rest IH]; [done|].
  cbn [forallb encodable_prefix] in *.
  destruct (encodable entry); [|done]. f_equal. by apply IH.
Qed.

Lemma encodable_prefix_all formatted_data :
  Forall (fun entry => encodable entry = true) formatted_data ->
  forallb encodable formatted_data = true.
Proof.
  induction 1 as [|entry rest Hentry _ IH]; [done|].
  cbn [forallb]. by rewrite Hentry, IH.
Qed.

Lemma encodable_prefix_first before entry after :
  Forall (fun entry => encodable entry = true) before ->
  encodable entry = false ->
  forallb encodable (before ++ entry :: after) = false /\
  encodable_prefix (before ++ entry :: after) = before.
Proof.
  intros Hbefore Hentry. induction Hbefore as [|e before He _ [IH1 IH2]].
  - cbn [app forallb encodable_prefix]. by rewrite Hentry.
  - cbn [app forallb encodable_prefix]. by rewrite He, IH1, IH2.
Qed.

(** The run of the pipeline, stage by stage. *)
Lemma prepare_dataset_stages text augment balance cap g files :
  prepare_dataset json_loads setsize fuel text augment balance cap
    {| random := g; written := files |}
  = match load_jsonl json_loads text with
    | Raise e => (Raise e, {| random := g; written := files |})
    | Ok data =>
    match (if balance then balance_dataset setsize fuel data cap g
           else (Ok data, g)) with
    | (Raise e, g1) => (Raise e, {| random := g1; written := files |})
    | (Ok data1, g1) =>
    match (if augment then augment_all data1 [] else Ok data1) with
    | Raise e => (Raise e, {| random := g1; written := files |})
    | Ok data2 =>
    match format_all data2 with
    | Raise e => (Raise e, {| random := g1; written := files |})
    | Ok formatted =>
    let shuffled := (random_shuffle formatted g1).1 in
    let g2 := (random_shuffle formatted g1).2 in
    if forallb encodable shuffled then
      match compute_stats shuffled with
      | Raise e =>
          (Raise e,
           {| random := g2; written := files ++ [WriteFormatted shuffled] |})
      | Ok s =>
          (Ok (total_entries s, unique_images s),
           {| random := g2;
              written := files ++ [WriteFormatted shuffled; WriteStats s] |})
      end
    else
      (Raise UnicodeEncodeError,
       {| random := g2;
          written := files ++ [WriteFormatted (encodable_prefix shuffled)] |})
    end end end end.
Proof.
  unfold prepare_dataset. rewrite run_bind_lift.
  destruct (load_jsonl json_loads text) as [data|]; [|reflexivity].
  assert (forall data1 g1,
    run_bind (if augment then lift (augment_all data1 []) else run_ret data1)
      (fun data2 =>
         run_bind (lift (format_all data2)) (fun formatted_data =>
         run_bind (with_random (fun g0 =>
             let '(x, g') := random_shuffle formatted_data g0 in (Ok x, g')))
           (fun shuffled =>
         run_bind (write_formatted shuffled) (fun _ =>
         run_bind (lift (compute_stats shuffled)) (fun s =>
         run_bind (write_file (WriteStats s)) (fun _ =>
         run_ret (total_entries s, unique_images s)))))))
      {| random := g1; written := files |}
    = match (if augment then augment_all data1 [] else Ok data1) with
      | Raise e => (Raise e, {| random := g1; written := files |})
      | Ok data2 =>
      match format_all data2 with
      | Raise e => (Raise e, {| random := g1; written := files |})
      | Ok formatted =>
      let shuffled := (random_shuffle formatted g1).1 in
      let g2 := (random_shuffle formatted g1).2 in
      if forallb encodable shuffled then
        match compute_stats shuffled with
        | Raise e =>
            (Raise e,
             {| random := g2; written := files ++ [WriteFormatted shuffled] |})
        | Ok s =>
            (Ok (total_entries s, unique_images s),
             {| random := g2;
                written := files ++ [WriteFormatted shuffled; WriteStats s] |})
        end
      else
        (Raise UnicodeEncodeError,
         {| random := g2;
            written := files ++ [WriteFormatted (encodable_prefix shuffled)] |})
      end end) as Htail.
  { intros data1 g1.
    assert (run_bind (if augment then lift (augment_all data1 [])
                      else run_ret data1)
            = run_bind (lift (if augment then augment_all data1 []
                              else Ok data1))) as -> by (by destruct augment).
    rewrite run_bind_lift.
    destruct (if augment then augment_all data1 [] else Ok data1)
      as [data2|]; [|reflexivity].
    rewrite run_bind_lift.
    destruct (format_all data2) as [formatted|]; [|reflexivity].
    rewrite run_bind_with_random. cbn [random written].
    destruct (random_shuffle formatted g1) as [shuffled g2].
    rewrite run_bind_write_formatted. cbn [random written fst snd].
    destruct (forallb encodable shuffled); [|reflexivity].
    rewrite run_bind_lift.
    destruct (compute_stats shuffled) as [s|]; [|reflexivity].
    rewrite run_bind_write. unfold run_ret. cbn [random written].
    by rewrite <- app_assoc. }
  destruct balance.
  - rewrite run_bind_with_random. cbn [random written].
    destruct (balance_dataset setsize fuel data cap g) as [[data1|] g1];
      [|reflexivity].
    apply Htail.
  - rewrite run_bind_ret. apply Htail.
Qed.

Lemma encodable_prefix_split formatted_data :
  forallb encodable formatted_data = false ->
  exists entry after,
    formatted_data = encodable_prefix formatted_data ++ entry :: after /\
    encodable entry = false /\
    Forall (fun e => encodable e = true) (encodable_prefix formatted_data).
Proof.
  induction formatted_data as [|e rest IH]; [done|].
  cbn [forallb encodable_prefix]. destruct (encodable e) eqn:He.
  - cbn [andb]. intros (entry & after & Hrest & Hentry & Hall)%IH.
    exists entry, after. cbn [app]. rewrite <- Hrest.
    repeat split; try done. by constructor.
  - intros _. by exists e, rest.
Qed.

(** C5, as the code has it. A run that raises while it loads, balances,
    augments or formats, or whose sampling is cut short, has written no
    file. Otherwise the formatted-records file is written, line by line,
    before the statistics are computed. The first record whose text cannot
    be encoded stops the run with [UnicodeEncodeError]: the file holds the
    records before it and no statistics file is written. When every record
    can be encoded, a run that raises in the statistics pass has written
    the whole formatted-records file and no statistics file, and a run that
    returns has written both files, the formatted records first. *)
Theorem prepare_dataset_written text augment balance cap w :
  match formatted_records json_loads setsize fuel text augment balance cap
          (random w) with
  | (Raise e, g1) =>
      prepare_dataset json_loads setsize fuel text augment balance cap w
      = (Raise e, {| random := g1; written := written w |})
  | (Ok formatted, g1) =>
      let shuffled := (random_shuffle formatted g1).1 in
      let g2 := (random_shuffle formatted g1).2 in
      if forallb encodable shuffled then
        match compute_stats shuffled with
        | Raise e =>
            prepare_dataset json_loads setsize fuel text augment balance cap w
            = (Raise e,
               {| random := g2;
                  written := written w ++ [WriteFormatted shuffled] |})
        | Ok s =>
            prepare_dataset json_loads setsize fuel text augment balance cap w
            = (Ok (total_entries s, unique_images s),
               {| random := g2;
                  written := written w
                             ++ [WriteFormatted shuffled; WriteStats s] |})
        end
      else
        exists before entry after,
          shuffled = before ++ entry :: after /\
          Forall (fun e => encodable e = true) before /\
          encodable entry = false /\
          prepare_dataset json_loads setsize fuel text augment balance cap w
          = (Raise UnicodeEncodeError,
             {| random := g2;
                written := written w ++ [WriteFormatted before] |})
  end.
Proof.
  destruct w as [g files]. rewrite prepare_dataset_stages.
  unfold formatted_records. cbn [random written].
  destruct (load_jsonl json_loads text) as [data|]; [|done].
  destruct (if balance then balance_dataset setsize fuel data cap g
            else (Ok data, g)) as [[data1|] g1]; [|done].
  destruct (if augment then augment_all data1 [] else Ok data1)
    as [data2|]; [|done].
  destruct (format_all data2) as [formatted|]; [|done].
  cbv zeta.
  destruct (forallb encodable (random_shuffle formatted g1).1) eqn:Hall.
  - by destruct (compute_stats (random_shuffle formatted g1).1).
  - destruct (encodable_prefix_split _ Hall)
      as (entry & after & Hsplit & Hentry & Hbefore).
    by exists (encodable_prefix (random_shuffle formatted g1).1), entry, after.
Qed.

Lemma encodable_permutation l l' :
  l ≡ₚ l' ->
  Forall (fun e => encodable e = true) l ->
  forallb encodable l' = true.
Proof.
  intros Hperm Hall. apply encodable_prefix_all. by rewrite <- Hperm.
Qed.

(** C3, with the condition it needs. On the four records of the scenario,
    two annotated polyps with the baseline prompt, one normal record and one
    ulcer without annotations, none of whose strings holds a lone surrogate,
    the run with augmentation and without balancing writes exactly 8
    formatted records, and its category distribution is polyp 6, normal 1,
    ulcer 1. *)
Theorem scenario_yields_eight_records text cap w
    i1 i2 i3 i4 r1 r2 r3 r4 a1 a2 a3 a4 x1 x2 x3 x4 p3 p4 h3 :
  load_jsonl json_loads text
    = Ok (scenario i1 i2 i3 i4 r1 r2 r3 r4 a1 a2 a3 a4 x1 x2 x3 x4 p3 p4 h3) ->
  Forall (fun field => has_surrogate field = false)
    [i1; i2; i3; i4; r1; r2; r3; r4; a1; a2; a3; a4; x1; x2; x3; x4; p3; p4] ->
  exists formatted s w',
    prepare_dataset json_loads setsize fuel text true false cap w
      = (Ok (8, unique_images s), w') /\
    written w' = written w ++ [WriteFormatted formatted; WriteStats s] /\
    length formatted = 8 /\
    total_entries s = 8 /\
    category_distribution s
      = {[ KStr "polyp" := 6; KStr "normal" := 1; KStr "ulcer" := 1 ]}.
Proof.
  intros Hload Hclean. destruct w as [g files].
  rewrite prepare_dataset_stages, Hload.
  assert (exists data,
    augment_all
      (scenario i1 i2 i3 i4 r1 r2 r3 r4 a1 a2 a3 a4 x1 x2 x3 x4 p3 p4 h3) []
      = Ok data /\
    exists F, format_all data = Ok F /\
    length F = 8 /\
    Forall2 (fun entry key => image_key entry = Ok key) F
      [KStr i1; KStr i1; KStr i1; KStr i2; KStr i2; KStr i2;
       KStr i3; KStr i4] /\
    Forall2 (fun entry ks => counted_keys entry = Ok ks) F
      [ (KStr "polyp", KStr a1, KStr x1, None);
        (KStr "polyp", KStr a1, KStr x1, None);
        (KStr "polyp", KStr a1, KStr x1, None);
        (KStr "polyp", KStr a2, KStr x2, None);
        (KStr "polyp", KStr a2, KStr x2, None);
        (KStr "polyp", KStr a2, KStr x2, None);
        (KStr "normal", KStr a3, KStr x3, None);
        (KStr "ulcer", KStr a4, KStr x4, None) ] /\
    Forall (fun e => encodable e = true) F)
    as (data & -> & F & -> & Hlen & Hpaths & Hcounted & Hencodable).
  { eexists. split; [vm_compute; reflexivity|].
    eexists. split; [vm_compute; reflexivity|].
    split; [reflexivity|]. split; [repeat constructor|].
    split; [repeat constructor|].
    repeat match goal with
           | H : Forall _ (_ :: _) |- _ => apply Forall_cons in H as [? H]
           end.
    repeat constructor; cbn [encodable];
      repeat match goal with
             | H : has_surrogate _ = false |- _ => rewrite H
             end;
      vm_compute; reflexivity. }
  cbv zeta.
  pose proof (random_shuffle_permutation F g) as Hperm.
  rewrite (encodable_permutation F _) by done.
  pose proof (compute_stats_permutation _ _ Hperm) as Hstats.
  unfold compute_stats at 2 in Hstats.
  rewrite (image_paths_keys _ _ Hpaths), bind_ok,
    (count_loop_counted _ _ _ Hcounted) in Hstats.
  set (sF := foldl _ _ _) in Hstats.
  assert (total_entries sF = 8) as Htotal by exact Hlen.
  destruct (compute_stats (random_shuffle F g).1) as [s|];
    [|discriminate Hstats].
  injection Hstats as ->.
  exists (random_shuffle F g).1, sF,
    {| random := (random_shuffle F g).2;
       written := files ++ [WriteFormatted (random_shuffle F g).1;
                            WriteStats sF] |}.
  split; [by rewrite Htotal|]. split; [done|].
  split; [by rewrite (Permutation_length Hperm)|].
  split; [done|]. subst sF. cbn [foldl add_counts category_distribution].
  vm_compute. reflexivity.
Qed.

(** C6, as the code has it. With balancing on and a negative
    [max_per_category], a run over at least one record fails with the
    [ValueError] of [random.sample], before any draw and before any file
    is written; with [max_per_category = 0] the balancer raises nothing
    and returns its input unchanged, as it does for a negative cap on no
    records. *)
Theorem prepare_dataset_nonpositive_cap text augment cap w data :
  load_jsonl json_loads text = Ok data ->
  Forall (fun entry => is_ok (category_key entry) = true) data ->
  (cap <= 0)%Z ->
  ((cap < 0)%Z -> data <> [] ->
     balance_dataset setsize fuel data (Some cap) (random w)
       = (Raise ValueError, random w) /\
     prepare_dataset json_loads setsize fuel text augment true (Some cap) w
       = (Raise ValueError, w)) /\
  (cap = 0%Z \/ data = [] ->
     balance_dataset setsize fuel data (Some cap) (random w)
       = (Ok data, random w)).
Proof.
  intros Hload Hall Hcap. split.
  - intros Hneg Hdata.
    pose proof (balance_dataset_negative_cap setsize fuel data cap (random w)
                  Hall Hneg) as Hbalance.
    destruct data as [|e data]; [done|]. split; [done|].
    destruct w as [g files]. cbn [random] in Hbalance.
    by rewrite prepare_dataset_stages, Hload, Hbalance.
  - intros [-> | ->].
    + by apply balance_dataset_zero_cap.
    + destruct (decide (cap = 0%Z)) as [->|Hne]; [done|].
      by rewrite balance_dataset_negative_cap by (done || lia).
Qed.

End PipelineProperties.

(** C5 as stated fails: the record has no [age_range]; the run raises
    [KeyError] in the statistics pass, after the formatted-records file is
    written and before the statistics file is. *)
Lemma missing_age_range_leaves_one_file :
  load_jsonl decode_json (jsonl_text [no_age_record]) = Ok [no_age_record] /\
  exists formatted,
    format_for_training no_age_record = Ok formatted /\
    (prepare_dataset decode_json table_setsize 0 (jsonl_text [no_age_record])
       false false None still_world).1 = Raise KeyError /\
    written (prepare_dataset decode_json table_setsize 0 (jsonl_text [no_age_record])
               false false None still_world).2
      = [WriteFormatted [formatted]].
Proof.
  split; [vm_compute; reflexivity|].
  eexists. split; [vm_compute; reflexivity|].
  split; vm_compute; reflexivity.
Qed.

Lemma scenario_yields_eight_records_witness :
  exists s w',
    prepare_dataset decode_json table_setsize 0 (jsonl_text scenario_example) true false None
      still_world = (Ok (8, unique_images s), w').
Proof.
  destruct (scenario_yields_eight_records decode_json table_setsize 0
    (jsonl_text scenario_example) None still_world
    "img/p1.jpg" "img/p2.jpg" "img/n1.jpg" "img/u1.jpg"
    "Sessile polyp, 6 mm." "Pedunculated polyp." "Normal mucosa."
    "Gastric ulcer, Forrest III."
    "50-59" "60-69" "40-49" "70-79" "F" "M" "F" "M"
    baseline_prompt baseline_prompt false)
    as (formatted & s & w' & Hrun & _).
  - vm_compute. reflexivity.
  - repeat constructor.
  - exists s, w'. exact Hrun.
Defined.

Lemma prepare_dataset_nonpositive_cap_witness :
  prepare_dataset decode_json table_setsize 0 (jsonl_text scenario_example) false true
    (Some (-1)%Z) still_world
  = (Raise ValueError, still_world).
Proof.
  destruct (prepare_dataset_nonpositive_cap decode_json table_setsize 0
    (jsonl_text scenario_example) false (-1)%Z still_world scenario_example)
    as [Hneg _].
  - vm_compute. reflexivity.
  - repeat constructor.
  - lia.
  - destruct Hneg as [_ Hrun]; [lia | discriminate | exact Hrun].
Defined.

(** C3 as stated fails: the response of the first record is a lone
    surrogate, which the file holds as an escape and [json.loads] accepts;
    the write of the formatted records raises [UnicodeEncodeError] at its
    first line, a record of that image, leaving an empty file, and no
    statistics are written. *)
Lemma lone_surrogate_stops_the_run :
  load_jsonl decode_json surrogate_text
  = Ok (scenario "img/p1.jpg" "img/p2.jpg" "img/n1.jpg" "img/u1.jpg"
          lone_surrogate "Pedunculated polyp." "Normal mucosa."
          "Gastric ulcer, Forrest III."
          "50-59" "60-69" "40-49" "70-79" "F" "M" "F" "M"
          baseline_prompt baseline_prompt false) /\
  has_surrogate lone_surrogate = true /\
  (prepare_dataset decode_json table_setsize 0 surrogate_text true false None
     still_world).1 = Raise UnicodeEncodeError /\
  written (prepare_dataset decode_json table_setsize 0 surrogate_text
             true false None still_world).2 = [WriteFormatted []].
Proof. repeat split; vm_compute; reflexivity. Qed.

(** C6 as stated fails: with balancing on and [max_per_category = 0] the
    run raises nothing; it writes both files and returns the four records
    it was given. *)
Lemma zero_cap_raises_nothing :
  (prepare_dataset decode_json table_setsize 0 (jsonl_text scenario_example) false true
     (Some 0%Z) still_world).1 = Ok (4, 4) /\
  exists formatted s,
    written (prepare_dataset decode_json table_setsize 0 (jsonl_text scenario_example)
               false true (Some 0%Z) still_world).2
      = [WriteFormatted formatted; WriteStats s] /\
    length formatted = 4.
Proof.
  split; [vm_compute; reflexivity|].
  eexists _, _. split; [vm_compute; reflexivity|]. reflexivity.
Qed.

(** * Further properties of the code *)

(** ** Format adapter *)

Lemma format_for_training_eval d image_path prompt response metadata :
  dict_lookup "image_path" d = Some image_path ->
  dict_lookup "prompt" d = Some prompt ->
  dict_lookup "response" d = Some response ->
  dict_lookup "metadata" d = Some metadata ->
  format_for_training (JObj d)
  = Ok (JObj
      [ ("image_path", image_path);
        ("conversations",
          JArr [ JObj [("from", JStr "human"); ("value", prompt)];
                 JObj [("from", JStr "gpt"); ("value", response)] ]);
        ("metadata", metadata) ]).
Proof.
  intros Hi Hp Hr Hm. unfold format_for_training.
  by rewrite (getitem_obj _ _ _ Hi), bind_ok, (getitem_obj _ _ _ Hp), bind_ok,
    (getitem_obj _ _ _ Hr), bind_ok, (getitem_obj _ _ _ Hm), bind_ok.
Qed.

Lemma format_for_training_inv entry formatted :
  format_for_training entry = Ok formatted ->
  exists d image_path prompt response metadata,
    entry = JObj d /\
    dict_lookup "image_path" d = Some image_path /\
    dict_lookup "prompt" d = Some prompt /\
    dict_lookup "response" d = Some response /\
    dict_lookup "metadata" d = Some metadata /\
    formatted = JObj
      [ ("image_path", image_path);
        ("conversations",
          JArr [ JObj [("from", JStr "human"); ("value", prompt)];
                 JObj [("from", JStr "gpt"); ("value", response)] ]);
        ("metadata", metadata) ].
Proof.
  unfold format_for_training. destruct entry as [| | | | |d]; try done.
  destruct (dict_lookup "image_path" d) as [i|] eqn:Hi;
    [rewrite (getitem_obj _ _ _ Hi) | rewrite (getitem_missing _ _ Hi)];
    bind_step.
  destruct (dict_lookup "prompt" d) as [p|] eqn:Hp;
    [rewrite (getitem_obj _ _ _ Hp) | rewrite (getitem_missing _ _ Hp)];
    bind_step.
  destruct (dict_lookup "response" d) as [r|] eqn:Hr;
    [rewrite (getitem_obj _ _ _ Hr) | rewrite (getitem_missing _ _ Hr)];
    bind_step.
  destruct (dict_lookup "metadata" d) as [m|] eqn:Hm;
    [rewrite (getitem_obj _ _ _ Hm) | rewrite (getitem_missing _ _ Hm)];
    bind_step.
  intros [= <-]. by exists d, i, p, r, m.
Qed.

(** X1. The format adapter accepts exactly the dicts that have the keys
    [image_path], [prompt], [response] and [metadata], whatever is stored
    under them; on a dict without one of them it raises [KeyError], on a
    value that is not a dict [TypeError]. *)
Theorem format_for_training_accepts entry :
  (is_ok (format_for_training entry) = true <->
   exists d, entry = JObj d /\
     is_Some (dict_lookup "image_path" d) /\ is_Some (dict_lookup "prompt" d) /\
     is_Some (dict_lookup "response" d) /\ is_Some (dict_lookup "metadata" d)) /\
  (forall d, entry = JObj d -> is_ok (format_for_training entry) = false ->
     format_for_training entry = Raise KeyError) /\
  ((forall d, entry <> JObj d) -> format_for_training entry = Raise TypeError).
Proof.
  split; [split|split].
  - destruct (format_for_training entry) as [f|] eqn:Hf; [|done]. intros _.
    apply format_for_training_inv in Hf
      as (d & i & p & r & m & -> & Hi & Hp & Hr & Hm & _).
    exists d. by rewrite Hi, Hp, Hr, Hm.
  - intros (d & -> & [i Hi] & [p Hp] & [r Hr] & [m Hm]).
    by rewrite (format_for_training_eval _ _ _ _ _ Hi Hp Hr Hm).
  - intros d ->. unfold format_for_training.
    destruct (dict_lookup "image_path" d) as [i|] eqn:Hi;
      [rewrite (getitem_obj _ _ _ Hi), bind_ok
      | by rewrite (getitem_missing _ _ Hi)].
    destruct (dict_lookup "prompt" d) as [p|] eqn:Hp;
      [rewrite (getitem_obj _ _ _ Hp), bind_ok
      | by rewrite (getitem_missing _ _ Hp)].
    destruct (dict_lookup "response" d) as [r|] eqn:Hr;
      [rewrite (getitem_obj _ _ _ Hr), bind_ok
      | by rewrite (getitem_missing _ _ Hr)].
    destruct (dict_lookup "metadata" d) as [m|] eqn:Hm;
      [rewrite (getitem_obj _ _ _ Hm), bind_ok
      | by rewrite (getitem_missing _ _ Hm)].
    done.
  - intros Hnot. destruct entry; try done. by destruct (Hnot d).
Qed.

(** X2. The format adapter cannot be applied to its own output: a formatted
    record has no [prompt] key, so formatting it again raises [KeyError]. *)
Theorem format_for_training_twice entry formatted :
  format_for_training entry = Ok formatted ->
  format_for_training formatted = Raise KeyError.
Proof.
  intros (d & i & p & r & m & _ & _ & _ & _ & _ & ->)%format_for_training_inv.
  reflexivity.
Qed.

Lemma format_for_training_twice_witness :
  format_for_training
    (JObj [ ("image_path", JStr "img/0001.jpg");
            ("conversations",
              JArr [ JObj [("from", JStr "human"); ("value", JStr wordy_prompt)];
                     JObj [("from", JStr "gpt");
                           ("value", JStr "Sessile polyp, 6 mm.")] ]);
            ("metadata", JObj (metadata_of "polyp" "50-59" "F" true)) ])
  = Raise KeyError.
Proof. apply (format_for_training_twice wordy_record). reflexivity. Defined.

(** X3. Formatting keeps what the statistics and the balancer read of a
    record: its image path, its category and the keys it adds to the
    counters. *)
Theorem format_for_training_keeps_keys entry formatted :
  format_for_training entry = Ok formatted ->
  image_key formatted = image_key entry /\
  category_key formatted = category_key entry /\
  counted_keys formatted = counted_keys entry.
Proof.
  intros (d & i & p & r & m & -> & Hi & _ & _ & Hm & ->)%format_for_training_inv.
  unfold image_key, category_key, counted_keys.
  by rewrite (getitem_obj _ _ _ Hi), (getitem_obj _ _ _ Hm).
Qed.

Lemma format_for_training_keeps_keys_witness :
  exists formatted,
    format_for_training wordy_record = Ok formatted /\
    image_key formatted = Ok (KStr "img/0001.jpg").
Proof.
  eexists. split; [reflexivity|].
  apply (format_for_training_keeps_keys wordy_record). reflexivity.
Defined.

Lemma load_jsonl_lines_ok json_loads text records :
  load_jsonl json_loads text = Ok records ->
  Forall2 (decodes json_loads) (file_lines text) records.
Proof.
  unfold load_jsonl. intros (rs & -> & Hrs)%load_loop_ok. done.
Qed.

Lemma format_all_ok data formatted :
  format_all data = Ok formatted <->
  Forall2 (fun entry f => format_for_training entry = Ok f) data formatted.
Proof.
  revert formatted. induction data as [|e data IH]; intros formatted.
  - simpl. split.
    + intros [= <-]. constructor.
    + by intros ->%Forall2_nil_inv_l.
  - cbn [format_all]. destruct (format_for_training e) as [f|] eqn:He.
    + rewrite bind_ok. destruct (format_all data) as [rest|] eqn:Hrest.
      * rewrite bind_ok. split.
        -- intros [= <-]. constructor; [done|]. by apply IH.
        -- intros (f' & rest' & Hf & Hall & ->)%Forall2_cons_inv_l.
           apply IH in Hall. congruence.
      * rewrite bind_raise. split; [done|].
        intros (f' & rest' & Hf & Hall & ->)%Forall2_cons_inv_l.
        apply IH in Hall. congruence.
    + rewrite bind_raise. split; [done|].
      intros (f' & rest' & Hf & Hall & ->)%Forall2_cons_inv_l. congruence.
Qed.

Section PipelineExtras.

Variable json_loads : string -> result json.
Variable setsize : Z -> Z.
Variable fuel : nat.

(** X4. With augmentation and balancing off, a run that returns has written
    one formatted record per line of the input file: the formatted file is
    a permutation of the formatted records of the lines, and
    [total_entries] is the number of lines. *)
Theorem prepare_dataset_plain text cap w total unique w' :
  prepare_dataset json_loads setsize fuel text false false cap w
    = (Ok (total, unique), w') ->
  exists records formatted shuffled s,
    Forall2 (decodes json_loads) (file_lines text) records /\
    Forall2 (fun entry f => format_for_training entry = Ok f)
      records formatted /\
    shuffled ≡ₚ formatted /\
    written w' = written w ++ [WriteFormatted shuffled; WriteStats s] /\
    total = length (file_lines text).
Proof.
  destruct w as [g files]. rewrite prepare_dataset_stages.
  destruct (load_jsonl json_loads text) as [records|] eqn:Hload; [|done].
  destruct (format_all records) as [formatted|] eqn:Hformat; [|done].
  cbv zeta.
  destruct (forallb encodable (random_shuffle formatted g).1); [|done].
  destruct (compute_stats (random_shuffle formatted g).1) as [s|] eqn:Hs;
    [|done].
  intros [= <- <- <-].
  apply (load_jsonl_lines_ok json_loads) in Hload.
  apply format_all_ok in Hformat.
  pose proof (random_shuffle_permutation formatted g) as Hperm.
  exists records, formatted, (random_shuffle formatted g).1, s.
  split; [done|]. split; [done|]. split; [done|]. split; [done|].
  unfold compute_stats in Hs.
  destruct (image_paths (random_shuffle formatted g).1); [|done].
  rewrite bind_ok in Hs. apply count_loop_total_entries in Hs as [-> _].
  simpl. rewrite (Permutation_length Hperm).
  by rewrite <- (Forall2_length _ _ _ Hformat), <- (Forall2_length _ _ _ Hload).
Qed.

(** X5. Without balancing the cap is never looked at: two runs that differ
    only in [max_per_category] do the same. *)
Theorem prepare_dataset_cap_unused text augment cap cap' w :
  prepare_dataset json_loads setsize fuel text augment false cap w
  = prepare_dataset json_loads setsize fuel text augment false cap' w.
Proof. destruct w as [g files]. by rewrite !prepare_dataset_stages. Qed.

End PipelineExtras.

Lemma prepare_dataset_plain_witness :
  exists records,
    Forall2 (decodes decode_json) (file_lines (jsonl_text scenario_example))
      records /\
    length records = 4.
Proof.
  destruct (prepare_dataset decode_json table_setsize 0 (jsonl_text scenario_example)
              false false None still_world) as [[[total unique]|] w'] eqn:Hrun;
    [|vm_compute in Hrun; discriminate Hrun].
  destruct (prepare_dataset_plain decode_json _ _ _ _ _ _ _ _ Hrun)
    as (records & formatted & shuffled & s & Hrecords & _).
  exists records. split; [exact Hrecords|].
  rewrite <- (Forall2_length _ _ _ Hrecords). vm_compute. reflexivity.
Defined.

(** ** Category balancer: order and contents of the output *)

Lemma first_seen_elem k keys : k ∈ first_seen keys <-> k ∈ keys.
Proof.
  induction keys as [|a keys IH]; [done|]. cbn [first_seen].
  rewrite !elem_of_cons, list_elem_of_filter, IH.
  destruct (decide (k = a)); naive_solver.
Qed.

Lemma first_seen_snoc keys k :
  first_seen (keys ++ [k])
  = if decide (k ∈ first_seen keys) then first_seen keys
    else first_seen keys ++ [k].
Proof.
  induction keys as [|a keys IH].
  - cbn. destruct (decide (k ∈ [])) as [Hin|]; [|done].
    by apply not_elem_of_nil in Hin.
  - cbn [app first_seen]. rewrite IH.
    destruct (decide (k ∈ first_seen keys)) as [Hin|Hnotin].
    + rewrite decide_True; [done|].
      apply elem_of_cons. destruct (decide (k = a)); [by left|right].
      by apply list_elem_of_filter.
    + rewrite filter_app.
      destruct (decide (k = a)) as [->|Hne].
      * rewrite decide_True by apply list_elem_of_here.
        rewrite filter_cons_False by (by intros ?). by rewrite app_nil_r.
      * rewrite decide_False.
        -- by rewrite filter_cons_True, filter_nil by done.
        -- intros [?|[_ ?]%list_elem_of_filter]%elem_of_cons; done.
Qed.

Lemma group_by_category_keys data cats pre acc groups :
  Forall2 (fun entry k => category_key entry = Ok k) data cats ->
  map fst acc = first_seen pre ->
  group_by_category data acc = Ok groups ->
  map fst groups = first_seen (pre ++ cats).
Proof.
  intros Hall. revert pre acc.
  induction Hall as [|e k data cats Hk _ IH]; intros pre acc Hacc.
  - intros [= <-]. by rewrite app_nil_r.
  - rewrite (group_by_category_eval _ _ _ _ Hk). intros Hrun.
    rewrite (IH (pre ++ [k]) (group_append k e acc)), <- ?app_assoc; [done| |done].
    rewrite group_append_keys, first_seen_snoc, Hacc.
    by destruct (decide (k ∈ first_seen pre)).
Qed.

Lemma group_append_concat k e groups :
  concat (map snd (group_append k e groups)) ≡ₚ concat (map snd groups) ++ [e].
Proof.
  induction groups as [|[c es] groups IH]; cbn [group_append].
  - done.
  - destruct (decide (c = k)); cbn [map snd concat].
    + rewrite <- !app_assoc. f_equiv. apply Permutation_app_comm.
    + by rewrite IH, app_assoc.
Qed.

Lemma group_by_category_concat data acc groups :
  group_by_category data acc = Ok groups ->
  concat (map snd groups) ≡ₚ concat (map snd acc) ++ data.
Proof.
  revert acc. induction data as [|e data IH]; intros acc.
  - intros [= <-]. by rewrite app_nil_r.
  - destruct (category_key e) as [k|err] eqn:Hk.
    + rewrite (group_by_category_eval _ _ _ _ Hk). intros Hrun%IH.
      by rewrite Hrun, group_append_concat, <- app_assoc.
    + by rewrite (group_by_category_fails _ _ _ _ Hk).
Qed.

Lemma Forall2_category_ok data cats :
  Forall2 (fun entry k => category_key entry = Ok k) data cats ->
  Forall (fun entry => is_ok (category_key entry) = true) data.
Proof. induction 1 as [|e k ?? Hk]; constructor; [by rewrite Hk | done]. Qed.

Lemma kept_concat_submseteq cap (groups : list (pykey * list json)) kept :
  Forall2 (fun group sel => kept_of cap (snd group) sel) groups kept ->
  concat kept ⊆+ concat (map snd groups).
Proof.
  induction 1 as [|[c es] sel groups kept Hsel _ IH]; [done|].
  cbn [map snd concat]. apply submseteq_app; [|done].
  by apply (kept_of_submseteq cap).
Qed.

(** X6. With a positive cap, what the balancer returns is, category after
    category in the order the categories are first seen in the input, what
    it keeps of each category; it holds no record more often than the input
    does.  The balancer returns whenever its sampling comes to an end. *)
Theorem balance_dataset_order setsize fuel data cats cap g :
  Forall2 (fun entry k => category_key entry = Ok k) data cats ->
  (0 < cap)%Z ->
  (forall balanced g',
     balance_dataset setsize fuel data (Some cap) g = (Ok balanced, g') ->
     exists kept,
       balanced = concat kept /\
       Forall2 (fun key sel =>
           kept_of cap (List.filter (in_category key) data) sel)
         (first_seen cats) kept /\
       concat kept ⊆+ data) /\
  (sampling_ends setsize fuel cap data g ->
     exists balanced g',
       balance_dataset setsize fuel data (Some cap) g = (Ok balanced, g')).
Proof.
  intros Hcats Hcap.
  pose proof (Forall2_category_ok _ _ Hcats) as Hall.
  destruct (group_by_category_grouped data [] [] Hall grouped_nil)
    as (groups & Hrun & Hgrouped).
  pose proof (group_by_category_keys data cats [] [] groups Hcats eq_refl Hrun)
    as Hkeys.
  pose proof (group_by_category_concat _ _ _ Hrun) as Hconcat.
  unfold balance_dataset. rewrite Hrun. cbn [cap_set].
  assert ((cap =? 0)%Z = false) as -> by (apply Z.eqb_neq; lia).
  destruct Hgrouped as (_ & _ & Hentries & _).
  split.
  - intros balanced g' (kept & -> & Hkept & _)%balance_loop_keeps; [|done].
    exists kept. split; [done|]. split.
    + simpl in Hkeys. rewrite <- Hkeys.
      clear -Hkept Hentries.
      induction Hkept as [|[c es] sel groups kept Hsel _ IH].
      * constructor.
      * apply Forall_cons in Hentries as [Hes Hentries]. simpl in Hes, Hsel.
        cbn [map fst]. constructor; [by rewrite <- Hes | by apply IH].
    + rewrite (kept_concat_submseteq _ _ _ Hkept), Hconcat. done.
  - intros Hends. apply balance_loop_finishes; [done|].
    eapply Forall_impl; [exact Hentries|]. intros [c es] Hes. simpl in *.
    rewrite Hes. apply Hends.
Qed.

Lemma balance_dataset_order_witness :
  exists kept g',
    balance_dataset table_setsize 0 scenario_example (Some 1%Z) (fun _ => 0)
      = (Ok (concat kept), g') /\
    length kept = 3.
Proof.
  destruct (balance_dataset_order table_setsize 0 scenario_example
    [KStr "polyp"; KStr "polyp"; KStr "normal"; KStr "ulcer"] 1%Z (fun _ => 0))
    as (Hkeeps & Hends).
  - repeat constructor.
  - lia.
  - destruct Hends as (balanced & g' & Hrun).
    + intros key n _. left.
      pose proof (List.filter_length_le (in_category key) scenario_example)
        as Hle.
      change (length scenario_example) with 4 in Hle. subst n.
      change (table_setsize 1) with 21%Z. lia.
    + destruct (Hkeeps _ _ Hrun) as (kept & Heq & Hkept & _).
      exists kept, g'. split; [by rewrite <- Heq|].
      rewrite <- (Forall2_length _ _ _ Hkept). reflexivity.
Defined.

Lemma balance_loop_under_cap setsize fuel
    (groups : list (pykey * list json)) cap balanced g :
  Forall (fun group => (Z.of_nat (length (snd group)) <= cap)%Z) groups ->
  balance_loop setsize fuel groups cap balanced g
  = (Ok (balanced ++ concat (map snd groups)), g).
Proof.
  intros Hall. revert balanced.
  induction Hall as [|[c es] groups Hes _ IH]; intros balanced.
  - simpl. by rewrite app_nil_r.
  - cbn [balance_loop map snd concat]. simpl in Hes.
    assert ((cap <? Z.of_nat (length es))%Z = false) as ->
      by (apply Z.ltb_ge; lia).
    by rewrite IH, app_assoc.
Qed.

(** X7. When no category has more records than a positive cap, the
    balancer draws nothing and drops nothing, and yet it is not the
    identity: it returns the records regrouped by category, the categories
    in the order they are first seen. *)
Theorem balance_dataset_under_cap setsize fuel data cats cap g :
  Forall2 (fun entry k => category_key entry = Ok k) data cats ->
  (0 < cap)%Z ->
  (forall key,
     (Z.of_nat (length (List.filter (in_category key) data)) <= cap)%Z) ->
  balance_dataset setsize fuel data (Some cap) g
  = (Ok (concat (map (fun key => List.filter (in_category key) data)
                   (first_seen cats))), g) /\
  concat (map (fun key => List.filter (in_category key) data)
            (first_seen cats)) ≡ₚ data.
Proof.
  intros Hcats Hcap Hunder.
  pose proof (Forall2_category_ok _ _ Hcats) as Hall.
  destruct (group_by_category_grouped data [] [] Hall grouped_nil)
    as (groups & Hrun & Hgrouped).
  pose proof (group_by_category_keys data cats [] [] groups Hcats eq_refl Hrun)
    as Hkeys.
  pose proof (group_by_category_concat _ _ _ Hrun) as Hconcat.
  simpl in Hkeys, Hconcat. destruct Hgrouped as (_ & _ & Hentries & _).
  assert (map snd groups
          = map (fun key => List.filter (in_category key) data)
              (first_seen cats)) as Hsnd.
  { rewrite <- Hkeys. clear -Hentries.
    induction Hentries as [|[c es] groups Hes _ IH]; [done|].
    simpl in *. by rewrite Hes at 1; rewrite IH. }
  rewrite <- Hsnd. split; [|done].
  unfold balance_dataset. rewrite Hrun. cbn [cap_set].
  assert ((cap =? 0)%Z = false) as -> by (apply Z.eqb_neq; lia).
  rewrite balance_loop_under_cap; [done|].
  apply Forall_forall. intros [c es] Hin.
  pose proof (proj1 (Forall_forall _ _) Hentries _ Hin) as Hes. simpl in *.
  rewrite Hes. apply Hunder.
Qed.

Lemma balance_dataset_under_cap_witness :
  balance_dataset table_setsize 0
    [ raw_record "a.jpg" "p" "r" (metadata_of "polyp" "50-59" "F" true);
      raw_record "b.jpg" "p" "r" (metadata_of "ulcer" "50-59" "F" true);
      raw_record "c.jpg" "p" "r" (metadata_of "polyp" "50-59" "F" true) ]
    (Some 5%Z) (fun _ => 0)
  = (Ok [ raw_record "a.jpg" "p" "r" (metadata_of "polyp" "50-59" "F" true);
          raw_record "c.jpg" "p" "r" (metadata_of "polyp" "50-59" "F" true);
          raw_record "b.jpg" "p" "r" (metadata_of "ulcer" "50-59" "F" true) ],
     fun _ => 0).
Proof.
  apply (balance_dataset_under_cap table_setsize 0
    [ raw_record "a.jpg" "p" "r" (metadata_of "polyp" "50-59" "F" true);
      raw_record "b.jpg" "p" "r" (metadata_of "ulcer" "50-59" "F" true);
      raw_record "c.jpg" "p" "r" (metadata_of "polyp" "50-59" "F" true) ]
    [KStr "polyp"; KStr "ulcer"; KStr "polyp"] 5%Z (fun _ => 0)).
  - repeat constructor.
  - lia.
  - intros key. unfold in_category. cbn.
    repeat case_bool_decide; simpl; lia.
Defined.

Lemma group_by_category_bad before entry after acc err :
  Forall (fun e => is_ok (category_key e) = true) before ->
  category_key entry = Raise err ->
  group_by_category (before ++ entry :: after) acc = Raise err.
Proof.
  intros Hall Herr. revert acc.
  induction Hall as [|e before He _ IH]; intros acc.
  - by apply group_by_category_fails.
  - destruct (category_key e) as [k|] eqn:Hk; [|done].
    cbn [app]. by rewrite (group_by_category_eval _ _ _ _ Hk).
Qed.

(** X8. The balancer groups the records before it looks at the cap: a
    record without a category makes it raise whatever the cap is, also with
    no cap or with the cap 0, where it would return its input unchanged;
    nothing is drawn. *)
Theorem balance_dataset_missing_category setsize fuel before entry after err
    cap g :
  Forall (fun e => is_ok (category_key e) = true) before ->
  category_key entry = Raise err ->
  balance_dataset setsize fuel (before ++ entry :: after) cap g
  = (Raise err, g).
Proof.
  intros Hall Herr. unfold balance_dataset.
  by rewrite (group_by_category_bad _ _ _ _ _ Hall Herr).
Qed.

Lemma balance_dataset_missing_category_witness :
  balance_dataset table_setsize 0
    [wordy_record; JObj [("metadata", JObj [])]] None (fun _ => 0)
  = (Raise KeyError, fun _ => 0).
Proof.
  apply (balance_dataset_missing_category table_setsize 0 [wordy_record]
           (JObj [("metadata", JObj [])]) []).
  - repeat constructor.
  - reflexivity.
Defined.

(** ** Prompt augmenter: what the variants keep, and when it raises *)

Lemma dict_set_same k v d : dict_lookup k d = Some v -> dict_set k v d = d.
Proof.
  induction d as [|[k' v'] d IH]; simpl; [done|].
  destruct (String.eqb_spec k k') as [->|Hne].
  - by intros [= ->].
  - intros Hd. by rewrite IH.
Qed.

Lemma augment_loop_inv entry alt alts augmented out :
  augment_loop entry (alt :: alts) augmented = Ok out ->
  exists d prompt,
    entry = JObj d /\ dict_lookup "prompt" d = Some (JStr prompt) /\
    out = augmented ++ map (variant_of d prompt) (alt :: alts).
Proof.
  cbn [augment_loop]. unfold py_copy.
  destruct entry as [| | | | |d]; try done. rewrite bind_ok.
  destruct (dict_lookup "prompt" d) as [p|] eqn:Hp;
    [rewrite (getitem_obj _ _ _ Hp) | rewrite (getitem_missing _ _ Hp)];
    bind_step.
  destruct p as [| | |prompt| |]; try done.
  intros Hrun. exists d, prompt. split; [done|]. split; [done|].
  pose proof (augment_loop_eval d prompt (alt :: alts) augmented Hp) as Heval.
  cbn [augment_loop] in Heval. unfold py_copy in Heval.
  rewrite bind_ok, (getitem_obj _ _ _ Hp), bind_ok in Heval. congruence.
Qed.

Lemma augment_prompts_inv entry variants :
  augment_prompts entry = Ok variants ->
  variants = [entry] \/
  exists d prompt,
    entry = JObj d /\ dict_lookup "prompt" d = Some (JStr prompt) /\
    variants = entry :: map (variant_of d prompt) (take 2 alternative_prompts).
Proof.
  unfold augment_prompts.
  destruct (py_copy entry) as [base|] eqn:Hcopy; bind_step.
  assert (base = entry) as -> by (by destruct entry; simplify_eq/=).
  destruct (has_findings entry) as [[|]|]; bind_step.
  - intros (d & prompt & -> & Hp & ->)%augment_loop_inv. right. by exists d, prompt.
  - intros [= <-]. by left.
Qed.

Lemma variant_of_other_key d prompt alt key :
  key <> "prompt" ->
  getitem (variant_of d prompt alt) key = getitem (JObj d) key.
Proof.
  intros Hne. unfold variant_of, getitem.
  by rewrite dict_lookup_set_ne by done.
Qed.

Lemma augment_prompts_rest entry variants :
  augment_prompts entry = Ok variants ->
  exists rest,
    variants = entry :: rest /\
    (rest = [] \/ length rest = 2) /\
    Forall (fun v =>
      forall key, key <> "prompt" -> getitem v key = getitem entry key) rest.
Proof.
  intros [->|(d & prompt & -> & Hp & ->)]%augment_prompts_inv.
  - exists []. split; [done|]. split; [by left | constructor].
  - eexists. split; [done|]. split; [by right|].
    apply Forall_forall. intros v (alt & -> & _)%list_elem_of_fmap key Hkey.
    by apply variant_of_other_key.
Qed.

(** X9. Whatever the record, when the augmenter returns, it returns the
    record itself followed by no variant or by two, and a variant differs
    from the record in its prompt at most: every other key holds what it
    holds in the record. *)
Theorem augment_prompts_keeps_fields entry variants :
  augment_prompts entry = Ok variants ->
  exists rest,
    variants = entry :: rest /\
    (rest = [] \/ length rest = 2) /\
    Forall (fun v =>
      forall key, key <> "prompt" -> getitem v key = getitem entry key) rest.
Proof. apply augment_prompts_rest. Qed.

Lemma augment_prompts_keeps_fields_witness :
  exists rest,
    augment_prompts wordy_record = Ok (wordy_record :: rest) /\
    Forall (fun v => getitem v "image_path" = Ok (JStr "img/0001.jpg")) rest.
Proof.
  destruct (augment_prompts wordy_record) as [variants|] eqn:Hrun;
    [|vm_compute in Hrun; discriminate Hrun].
  destruct (augment_prompts_keeps_fields wordy_record variants Hrun)
    as (rest & -> & _ & Hrest).
  exists rest. split; [reflexivity|].
  eapply Forall_impl; [exact Hrest|].
  intros v Hv. rewrite (Hv "image_path"); [reflexivity | discriminate].
Defined.

(** X10. For an eligible record whose prompt does not contain the baseline
    instruction, the two variants are exact copies of the record: the
    augmenter returns the same record three times. *)
Theorem augment_prompts_duplicates d m category has_annotations prompt :
  dict_lookup "metadata" d = Some (JObj m) ->
  dict_lookup "category" m = Some category ->
  dict_lookup "has_annotations" m = Some has_annotations ->
  dict_lookup "prompt" d = Some (JStr prompt) ->
  category <> JStr "normal" -> truthy has_annotations = true ->
  contains baseline_prompt prompt = false ->
  augment_prompts (JObj d) = Ok [JObj d; JObj d; JObj d].
Proof.
  intros Hm Hc Ha Hp Hne%py_ne_str_true Htrue Habsent.
  rewrite (augment_prompts_eval _ _ _ _ _ Hm Hc Ha Hp), Hne, Htrue.
  cbn [andb take map alternative_prompts]. unfold variant_of.
  by rewrite !str_replace_absent, !(dict_set_same _ _ _ Hp) by done.
Qed.

Lemma augment_prompts_duplicates_witness :
  augment_prompts
    (raw_record "a.jpg" "Describe the lesion." "r"
       (metadata_of "polyp" "50-59" "F" true))
  = Ok [ raw_record "a.jpg" "Describe the lesion." "r"
           (metadata_of "polyp" "50-59" "F" true);
         raw_record "a.jpg" "Describe the lesion." "r"
           (metadata_of "polyp" "50-59" "F" true);
         raw_record "a.jpg" "Describe the lesion." "r"
           (metadata_of "polyp" "50-59" "F" true) ].
Proof.
  apply (augment_prompts_duplicates _ (metadata_of "polyp" "50-59" "F" true)
           (JStr "polyp") (JBool true) "Describe the lesion.");
    try reflexivity; discriminate.
Defined.

(** X11. A record of category "normal" is returned alone whatever else it
    holds: the augmenter does not look at [has_annotations] nor at the
    prompt, which may both be missing. *)
Theorem augment_prompts_normal d m :
  dict_lookup "metadata" d = Some (JObj m) ->
  dict_lookup "category" m = Some (JStr "normal") ->
  augment_prompts (JObj d) = Ok [JObj d].
Proof.
  intros Hm Hc. unfold augment_prompts, py_copy, has_findings.
  by rewrite bind_ok, (getitem_obj _ _ _ Hm), bind_ok,
    (getitem_obj _ _ _ Hc), bind_ok.
Qed.

Lemma augment_prompts_normal_witness :
  augment_prompts (JObj [("metadata", JObj [("category", JStr "normal")])])
  = Ok [JObj [("metadata", JObj [("category", JStr "normal")])]].
Proof.
  apply (augment_prompts_normal _ [("category", JStr "normal")]);
    reflexivity.
Defined.

(** X12. For a record that is eligible for augmentation the augmenter
    needs a string prompt: without the key [prompt] it raises [KeyError],
    with a prompt that is not a string [AttributeError]; and a record of
    another category than "normal" without [has_annotations] makes it
    raise [KeyError]. *)
Theorem augment_prompts_raises d m category :
  dict_lookup "metadata" d = Some (JObj m) ->
  dict_lookup "category" m = Some category ->
  category <> JStr "normal" ->
  (dict_lookup "has_annotations" m = None ->
     augment_prompts (JObj d) = Raise KeyError) /\
  (forall has_annotations,
     dict_lookup "has_annotations" m = Some has_annotations ->
     truthy has_annotations = true ->
     (dict_lookup "prompt" d = None ->
        augment_prompts (JObj d) = Raise KeyError) /\
     (forall v, dict_lookup "prompt" d = Some v ->
        (forall s, v <> JStr s) ->
        augment_prompts (JObj d) = Raise AttributeError)).
Proof.
  intros Hm Hc Hne%py_ne_str_true. split.
  - intros Ha. unfold augment_prompts, py_copy, has_findings.
    by rewrite bind_ok, (getitem_obj _ _ _ Hm), bind_ok,
      (getitem_obj _ _ _ Hc), bind_ok, Hne, bind_ok,
      (getitem_missing _ _ Ha).
  - intros ha Ha Htrue.
    assert (has_findings (JObj d) = Ok true) as Hfind
      by (by rewrite (has_findings_eval _ _ _ _ Hm Hc Ha), Hne, Htrue).
    unfold augment_prompts, py_copy. rewrite bind_ok, Hfind, bind_ok.
    cbn [take alternative_prompts augment_loop]. unfold py_copy.
    rewrite bind_ok. split.
    + intros Hp. by rewrite (getitem_missing _ _ Hp).
    + intros v Hp Hv. rewrite (getitem_obj _ _ _ Hp), bind_ok.
      destruct v; try done. by destruct (Hv s).
Qed.

Lemma augment_prompts_raises_witness :
  augment_prompts
    (JObj [("metadata", JObj (metadata_of "polyp" "50-59" "F" true))])
  = Raise KeyError.
Proof.
  destruct (augment_prompts_raises
    [("metadata", JObj (metadata_of "polyp" "50-59" "F" true))]
    (metadata_of "polyp" "50-59" "F" true) (JStr "polyp")
    eq_refl eq_refl) as [_ Heligible]; [discriminate|].
  destruct (Heligible (JBool true) eq_refl eq_refl) as [Hmissing _].
  apply Hmissing. reflexivity.
Defined.

Lemma augment_all_ok data acc out :
  augment_all data acc = Ok out <->
  exists groups,
    Forall2 (fun entry vs => augment_prompts entry = Ok vs) data groups /\
    out = acc ++ concat groups.
Proof.
  revert acc. induction data as [|e data IH]; intros acc.
  - simpl. split.
    + intros [= <-]. exists []. by rewrite app_nil_r.
    + intros (groups & ->%Forall2_nil_inv_l & ->). by rewrite app_nil_r.
  - cbn [augment_all]. destruct (augment_prompts e) as [vs|] eqn:He.
    + rewrite bind_ok, IH. split.
      * intros (groups & Hall & ->). exists (vs :: groups).
        split; [by constructor|]. by rewrite <- app_assoc.
      * intros (groups & (vs' & groups' & Hvs & Hall & ->)%Forall2_cons_inv_l
                  & ->).
        exists groups'. split; [done|].
        assert (vs' = vs) as -> by congruence.
        cbn [concat]. by rewrite app_assoc.
    + rewrite bind_raise. split; [done|].
      intros (groups & (vs' & groups' & Hvs & Hall & ->)%Forall2_cons_inv_l & _).
      congruence.
Qed.

Lemma augmented_groups_sublist data groups :
  Forall2 (fun entry vs => augment_prompts entry = Ok vs) data groups ->
  sublist data (concat groups) /\
  length data <= length (concat groups) <= 3 * length data.
Proof.
  induction 1 as [|e vs data groups He _ [IHsub IHlen]].
  - split; [constructor | simpl; lia].
  - destruct (augment_prompts_rest e vs He) as (rest & -> & Hrest & _).
    cbn [concat app]. split.
    + apply sublist_skip. by apply sublist_inserts_l.
    + rewrite !length_cons, !length_app.
      destruct Hrest as [->|Hlen]; simpl; lia.
Qed.

(** X13. The augmentation of a dataset keeps every record, in the order of
    the input, and puts the variants of a record right after it: the input
    is a sublist of the output, which holds at most three times as many
    records. *)
Theorem augment_all_keeps_records data out :
  augment_all data [] = Ok out ->
  exists groups,
    Forall2 (fun entry vs => augment_prompts entry = Ok vs) data groups /\
    out = concat groups /\
    sublist data out /\
    length data <= length out <= 3 * length data.
Proof.
  intros (groups & Hall & ->)%augment_all_ok. exists groups.
  split; [done|]. split; [done|]. by apply augmented_groups_sublist.
Qed.

Lemma augment_all_keeps_records_witness :
  exists out,
    augment_all scenario_example [] = Ok out /\
    sublist scenario_example out.
Proof.
  destruct (augment_all scenario_example []) as [out|] eqn:Hrun;
    [|vm_compute in Hrun; discriminate Hrun].
  destruct (augment_all_keeps_records scenario_example out Hrun)
    as (groups & _ & _ & Hsub & _).
  exists out. split; [reflexivity | exact Hsub].
Defined.

(** ** Statistics aggregator: sums and entries of the distributions *)

Lemma counts_sum_incr key (counts : gmap pykey nat) :
  counts_sum (incr key counts) = S (counts_sum counts).
Proof.
  unfold counts_sum, incr.
  assert (forall (m : gmap pykey nat) (j1 j2 : pykey) (z1 z2 y : nat),
    j1 <> j2 -> m !! j1 = Some z1 -> m !! j2 = Some z2 ->
    z1 + (z2 + y) = z2 + (z1 + y)) as Hcomm by (intros; lia).
  destruct (counts !! key) as [n|] eqn:Hkey; simpl.
  - rewrite <- (insert_delete_eq counts key (S n)).
    rewrite map_fold_insert_L; [|by eauto|by apply lookup_delete_eq].
    rewrite (map_fold_delete_L _ 0 key n counts); [lia | by eauto | done].
  - rewrite map_fold_insert_L; [lia | by eauto | done].
Qed.

Lemma add_counts_sums keys s :
  counts_sum (category_distribution (add_counts keys s))
    = S (counts_sum (category_distribution s)) /\
  counts_sum (age_distribution (add_counts keys s))
    = S (counts_sum (age_distribution s)) /\
  counts_sum (sex_distribution (add_counts keys s))
    = S (counts_sum (sex_distribution s)) /\
  counts_sum (procedure_types s)
    <= counts_sum (procedure_types (add_counts keys s))
    <= S (counts_sum (procedure_types s)).
Proof.
  destruct keys as [[[c a] x] p]. cbn.
  rewrite !counts_sum_incr. repeat split; try done.
  - destruct p; [rewrite counts_sum_incr|]; lia.
  - destruct p; [rewrite counts_sum_incr|]; lia.
Qed.

Lemma count_loop_sums l s s' :
  count_loop l s = Ok s' ->
  counts_sum (category_distribution s')
    = counts_sum (category_distribution s) + length l /\
  counts_sum (age_distribution s')
    = counts_sum (age_distribution s) + length l /\
  counts_sum (sex_distribution s')
    = counts_sum (sex_distribution s) + length l /\
  counts_sum (procedure_types s')
    <= counts_sum (procedure_types s) + length l.
Proof.
  revert s. induction l as [|e l IH]; intros s.
  - intros [= ->]. simpl. lia.
  - rewrite count_loop_cons. destruct (counted_keys e) as [keys|]; [|done].
    rewrite bind_ok. intros (Hc & Ha & Hx & Hp)%IH.
    pose proof (add_counts_sums keys s) as (Hc' & Ha' & Hx' & Hp').
    simpl length. lia.
Qed.

(** X14. In every statistics report the counts of the category
    distribution add up to [total_entries], and so do those of the age and
    of the sex distribution; the counts of the procedure types add up to at
    most [total_entries]. *)
Theorem compute_stats_sums formatted_data s :
  compute_stats formatted_data = Ok s ->
  total_entries s = length formatted_data /\
  counts_sum (category_distribution s) = total_entries s /\
  counts_sum (age_distribution s) = total_entries s /\
  counts_sum (sex_distribution s) = total_entries s /\
  counts_sum (procedure_types s) <= total_entries s.
Proof.
  unfold compute_stats.
  destruct (image_paths formatted_data) as [paths|]; [|done].
  rewrite bind_ok. intros Hrun.
  pose proof (count_loop_total_entries _ _ _ Hrun) as [Htotal _].
  apply count_loop_sums in Hrun as (Hc & Ha & Hx & Hp).
  rewrite Htotal. cbn in *. unfold counts_sum in *.
  rewrite map_fold_empty in *. lia.
Qed.

Lemma compute_stats_sums_witness :
  exists s,
    compute_stats
      [ JObj [("image_path", JStr "a.jpg");
              ("metadata", JObj (metadata_of "polyp" "50-59" "F" true))];
        JObj [("image_path", JStr "a.jpg");
              ("metadata", JObj (metadata_of "ulcer" "60-69" "M" false))] ]
      = Ok s /\
    counts_sum (category_distribution s) = 2.
Proof.
  destruct (compute_stats
      [ JObj [("image_path", JStr "a.jpg");
              ("metadata", JObj (metadata_of "polyp" "50-59" "F" true))];
        JObj [("image_path", JStr "a.jpg");
              ("metadata", JObj (metadata_of "ulcer" "60-69" "M" false))] ])
    as [s|] eqn:Hs; [|vm_compute in Hs; discriminate Hs].
  exists s. split; [reflexivity|].
  destruct (compute_stats_sums _ s Hs) as (Htotal & Hc & _).
  rewrite Hc, Htotal. reflexivity.
Defined.

Lemma count_entry_of_incr k key (counts : gmap pykey nat) n :
  counts !! key = count_entry_of n ->
  incr k counts !! key
  = count_entry_of (n + (if bool_decide (k = key) then 1 else 0)).
Proof.
  intros Hkey. unfold incr. case_bool_decide as Hk.
  - subst. rewrite lookup_insert_eq, Hkey.
    destruct n; simpl; [done|]. f_equal. lia.
  - rewrite lookup_insert_ne, Hkey, Nat.add_0_r; done.
Qed.

Lemma counted_keys_category entry c a x p :
  counted_keys entry = Ok (c, a, x, p) -> category_key entry = Ok c.
Proof.
  unfold counted_keys, category_key.
  destruct (getitem entry "metadata") as [meta|]; bind_step.
  destruct (getitem meta "category") as [cv|]; bind_step.
  destruct (hash_key cv) as [ck|]; bind_step.
  destruct (getitem meta "age_range") as [av|]; bind_step.
  destruct (hash_key av) as [ak|]; bind_step.
  destruct (getitem meta "sex") as [xv|]; bind_step.
  destruct (hash_key xv) as [xk|]; bind_step.
  destruct (dict_get meta "procedure_type") as [pv|]; bind_step.
  destruct (truthy pv).
  - destruct (getitem meta "procedure_type") as [pv'|]; bind_step.
    destruct (hash_key pv') as [pk|]; bind_step. by intros [= -> _ _ _].
  - rewrite bind_ok. by intros [= -> _ _ _].
Qed.

Lemma count_loop_category l s s' key n :
  count_loop l s = Ok s' ->
  category_distribution s !! key = count_entry_of n ->
  category_distribution s' !! key
  = count_entry_of (n + length (List.filter (in_category key) l)).
Proof.
  revert s n. induction l as [|e l IH]; intros s n.
  - intros [= ->] Hn. by rewrite Nat.add_0_r.
  - rewrite count_loop_cons.
    destruct (counted_keys e) as [[[[c a] x] p]|] eqn:Hkeys; [|done].
    rewrite bind_ok. intros Hrun Hn.
    rewrite (IH _ _ Hrun (count_entry_of_incr c key _ n Hn)).
    cbn [List.filter].
    rewrite (in_category_key _ _ _ (counted_keys_category _ _ _ _ _ Hkeys)).
    case_bool_decide; simpl; f_equal; lia.
Qed.

(** X15. The category distribution of a report has an entry exactly for
    the categories that occur among the records, and the entry of a
    category is the number of its records: no category is listed with the
    count 0. *)
Theorem compute_stats_category_counts formatted_data s key :
  compute_stats formatted_data = Ok s ->
  category_distribution s !! key
  = count_entry_of (length (List.filter (in_category key) formatted_data)).
Proof.
  unfold compute_stats.
  destruct (image_paths formatted_data) as [paths|]; [|done].
  rewrite bind_ok. intros Hrun.
  by rewrite (count_loop_category _ _ _ key 0 Hrun).
Qed.

Lemma compute_stats_category_counts_witness :
  exists s,
    compute_stats
      [ JObj [("image_path", JStr "a.jpg");
              ("metadata", JObj (metadata_of "polyp" "50-59" "F" true))] ]
      = Ok s /\
    category_distribution s !! KStr "polyp" = Some 1 /\
    category_distribution s !! KStr "ulcer" = None.
Proof.
  destruct (compute_stats
      [ JObj [("image_path", JStr "a.jpg");
              ("metadata", JObj (metadata_of "polyp" "50-59" "F" true))] ])
    as [s|] eqn:Hs; [|vm_compute in Hs; discriminate Hs].
  exists s. split; [reflexivity|].
  rewrite !(compute_stats_category_counts _ s _ Hs). split; reflexivity.
Defined.

(** ** Pipeline: augmentation and the statistics *)

Lemma formatted_keys entry formatted :
  format_for_training entry = Ok formatted ->
  image_key formatted = image_key entry /\
  counted_keys formatted = counted_keys entry.
Proof.
  intros (d & i & p & r & m & -> & Hi & _ & _ & Hm & ->)%format_for_training_inv.
  unfold image_key, counted_keys.
  by rewrite (getitem_obj _ _ _ Hi), (getitem_obj _ _ _ Hm).
Qed.

Lemma image_paths_app l1 l2 :
  image_paths (l1 ++ l2)
  = image_paths l1 ≫= fun p1 => image_paths l2 ≫= fun p2 => Ok (p1 ∪ p2).
Proof.
  induction l1 as [|e l1 IH].
  - cbn [app image_paths]. rewrite bind_ok.
    destruct (image_paths l2) as [p2|]; [|done].
    rewrite bind_ok. f_equal. set_solver.
  - cbn [app]. rewrite !image_paths_cons, IH.
    destruct (image_key e) as [k|]; [|done]. rewrite !bind_ok.
    destruct (image_paths l1) as [p1|]; [|done]. rewrite !bind_ok.
    destruct (image_paths l2) as [p2|]; [|done]. rewrite !bind_ok.
    f_equal. set_solver.
Qed.

Lemma image_paths_same_key k l :
  Forall (fun v => image_key v = Ok k) l ->
  exists paths, image_paths l = Ok paths /\ paths ⊆ {[k]}.
Proof.
  induction 1 as [|v l Hv _ (paths & IH & Hsub)].
  - exists ∅. split; [done | set_solver].
  - exists ({[k]} ∪ paths).
    rewrite image_paths_cons, Hv, bind_ok, IH, bind_ok.
    split; [done | set_solver].
Qed.

Lemma image_paths_variants entry variants :
  augment_prompts entry = Ok variants ->
  image_paths variants = image_paths [entry].
Proof.
  intros (rest & -> & _ & Hrest)%augment_prompts_rest.
  rewrite !image_paths_cons.
  destruct (image_key entry) as [k|] eqn:Hk; [|done]. rewrite !bind_ok.
  destruct (image_paths_same_key k rest) as (paths & -> & Hsub).
  { eapply Forall_impl; [exact Hrest|]. intros v Hv. simpl in Hv.
    unfold image_key in *. by rewrite Hv. }
  cbn [image_paths]. rewrite !bind_ok. f_equal. set_solver.
Qed.

Lemma image_paths_augmented data groups :
  Forall2 (fun entry vs => augment_prompts entry = Ok vs) data groups ->
  image_paths (concat groups) = image_paths data.
Proof.
  induction 1 as [|e vs data groups He _ IH]; [done|].
  cbn [concat]. rewrite image_paths_app, (image_paths_variants _ _ He), IH.
  rewrite !image_paths_cons.
  destruct (image_key e) as [k|]; [|done]. cbn [image_paths].
  rewrite !bind_ok.
  destruct (image_paths data) as [paths|]; [|done]. rewrite !bind_ok.
  f_equal. set_solver.
Qed.

Lemma image_paths_formatted data formatted :
  Forall2 (fun entry f => format_for_training entry = Ok f) data formatted ->
  image_paths formatted = image_paths data.
Proof.
  induction 1 as [|e f data formatted Hf _ IH]; [done|].
  rewrite !image_paths_cons, IH.
  by destruct (formatted_keys _ _ Hf) as [-> _].
Qed.

Lemma count_loop_counts l s s' :
  count_loop l s = Ok s' ->
  Forall (fun e => is_ok (counted_keys e) = true) l.
Proof.
  revert s. induction l as [|e l IH]; intros s; [constructor|].
  rewrite count_loop_cons.
  destruct (counted_keys e) as [keys|] eqn:Hkeys; [|done].
  rewrite bind_ok. intros Hrun%IH. constructor; [by rewrite Hkeys | done].
Qed.

Lemma formatted_counted data formatted :
  Forall2 (fun entry f => format_for_training entry = Ok f) data formatted ->
  Forall (fun e => is_ok (counted_keys e) = true) formatted <->
  Forall (fun e => is_ok (counted_keys e) = true) data.
Proof.
  induction 1 as [|e f data formatted Hf _ IH]; [done|].
  rewrite !Forall_cons, IH.
  by destruct (formatted_keys _ _ Hf) as [_ ->].
Qed.

Lemma format_all_sublist data data' formatted' :
  sublist data data' ->
  format_all data' = Ok formatted' ->
  exists formatted,
    format_all data = Ok formatted /\ sublist formatted formatted'.
Proof.
  intros Hsub. revert formatted'.
  induction Hsub as [|e data data' _ IH|e data data' _ IH]; intros formatted'.
  - intros [= <-]. by exists [].
  - cbn [format_all]. destruct (format_for_training e) as [f|]; [|done].
    rewrite bind_ok.
    destruct (format_all data') as [rest'|] eqn:Hrest'; [|done].
    destruct (IH _ eq_refl) as (rest & -> & Hrest). intros [= <-].
    exists (f :: rest). split; [done | by constructor].
  - cbn [format_all]. destruct (format_for_training e) as [f|]; [|done].
    rewrite bind_ok.
    destruct (format_all data') as [rest'|] eqn:Hrest'; [|done].
    destruct (IH _ eq_refl) as (rest & -> & Hrest). intros [= <-].
    exists rest. split; [done | by constructor].
Qed.

Lemma Forall_sublist {A} (P : A -> Prop) (l l' : list A) :
  sublist l l' -> Forall P l' -> Forall P l.
Proof.
  intros Hsub Hall. apply Forall_forall. intros x Hx.
  apply (proj1 (Forall_forall _ _) Hall).
  by apply (elem_of_submseteq l l' x Hx), sublist_submseteq.
Qed.

Lemma compute_stats_shuffled formatted g s :
  compute_stats (random_shuffle formatted g).1 = Ok s ->
  exists paths,
    image_paths formatted = Ok paths /\
    unique_images s = size paths /\
    total_entries s = length formatted /\
    Forall (fun e => is_ok (counted_keys e) = true) formatted.
Proof.
  intros Hs.
  pose proof (compute_stats_permutation _ _
                (random_shuffle_permutation formatted g)) as Hperm.
  rewrite Hs in Hperm. unfold compute_stats in Hperm.
  destruct (image_paths formatted) as [paths|]; [|done].
  rewrite bind_ok in Hperm. exists paths.
  destruct (count_loop formatted _) as [s'|] eqn:Hrun; [|done].
  injection Hperm as ->.
  pose proof (count_loop_total_entries _ _ _ Hrun) as [-> ->].
  repeat split; try done. by apply (count_loop_counts _ _ _ Hrun).
Qed.

Lemma compute_stats_returns formatted paths g :
  image_paths formatted = Ok paths ->
  Forall (fun e => is_ok (counted_keys e) = true) formatted ->
  exists s,
    compute_stats (random_shuffle formatted g).1 = Ok s /\
    unique_images s = size paths /\
    total_entries s = length formatted.
Proof.
  intros Hpaths Hall.
  pose proof (compute_stats_permutation _ _
                (random_shuffle_permutation formatted g)) as Hperm.
  unfold compute_stats at 2 in Hperm. rewrite Hpaths, bind_ok in Hperm.
  destruct (count_loop_returns formatted
    {| total_entries := length formatted; unique_images := size paths;
       category_distribution := ∅; age_distribution := ∅;
       sex_distribution := ∅; procedure_types := ∅ |} Hall) as (s & Hrun).
  rewrite Hrun in Hperm.
  destruct (compute_stats (random_shuffle formatted g).1) as [s'|]; [|done].
  injection Hperm as ->. exists s. split; [done|].
  by pose proof (count_loop_total_entries _ _ _ Hrun) as [-> ->].
Qed.

Lemma encodable_all l :
  forallb encodable l = true <-> Forall (fun e => encodable e = true) l.
Proof.
  split.
  - induction l as [|e l IH]; [constructor|].
    cbn [forallb]. intros [He Hl]%andb_prop. constructor; [done | by apply IH].
  - induction 1 as [|e l He _ IH]; [done|]. cbn [forallb]. by rewrite He, IH.
Qed.

Lemma encodable_shuffled formatted g :
  forallb encodable (random_shuffle formatted g).1 = true <->
  Forall (fun e => encodable e = true) formatted.
Proof.
  rewrite encodable_all.
  by rewrite (random_shuffle_permutation formatted g).
Qed.

Section AugmentedPipeline.

Variable json_loads : string -> result json.
Variable setsize : Z -> Z.
Variable fuel : nat.

(** X16. Augmentation adds no image and loses none: when the run with
    augmentation returns, the run without it on the same file returns too
    and reports the same [unique_images]; its [total_entries] is the number
    of lines, and the augmented run reports between one and three times as
    many entries. *)
Theorem prepare_dataset_augment_same_images text cap w total unique w' :
  prepare_dataset json_loads setsize fuel text true false cap w
    = (Ok (total, unique), w') ->
  exists total0 w0,
    prepare_dataset json_loads setsize fuel text false false cap w
      = (Ok (total0, unique), w0) /\
    total0 = length (file_lines text) /\
    total0 <= total <= 3 * total0.
Proof.
  destruct w as [g files]. rewrite !prepare_dataset_stages.
  destruct (load_jsonl json_loads text) as [data|] eqn:Hload; [|done].
  destruct (augment_all data []) as [out|] eqn:Hout; [|done].
  destruct (format_all out) as [formatted|] eqn:Hformat; [|done].
  cbv zeta.
  destruct (forallb encodable (random_shuffle formatted g).1) eqn:Hencodable;
    [|done].
  destruct (compute_stats (random_shuffle formatted g).1) as [s|] eqn:Hs;
    [|done].
  intros [= <- <- <-].
  apply augment_all_ok in Hout as (groups & Hgroups & ->). cbn [app] in *.
  destruct (augmented_groups_sublist _ _ Hgroups) as [Hsub Hlen].
  destruct (format_all_sublist _ _ _ Hsub Hformat)
    as (formatted0 & Hformat0 & Hsub0).
  rewrite Hformat0.
  apply encodable_shuffled in Hencodable.
  apply (Forall_sublist _ _ _ Hsub0) in Hencodable.
  apply (encodable_shuffled formatted0 g) in Hencodable. rewrite Hencodable.
  apply format_all_ok in Hformat, Hformat0.
  apply compute_stats_shuffled in Hs as (paths & Hpaths & -> & -> & Hall).
  rewrite (image_paths_formatted _ _ Hformat),
    (image_paths_augmented _ _ Hgroups),
    <- (image_paths_formatted _ _ Hformat0) in Hpaths.
  apply (formatted_counted _ _ Hformat) in Hall.
  apply (Forall_sublist _ _ _ Hsub) in Hall.
  apply (formatted_counted _ _ Hformat0) in Hall.
  destruct (compute_stats_returns _ _ g Hpaths Hall) as (s0 & -> & -> & ->).
  eexists _, _. split; [done|].
  apply (load_jsonl_lines_ok json_loads) in Hload.
  rewrite <- (Forall2_length _ _ _ Hformat0), <- (Forall2_length _ _ _ Hformat),
    (Forall2_length _ _ _ Hload). done.
Qed.

End AugmentedPipeline.

Lemma prepare_dataset_augment_same_images_witness :
  exists total0 w0,
    prepare_dataset decode_json table_setsize 0 (jsonl_text scenario_example)
      false false None still_world = (Ok (total0, 4), w0) /\
    total0 = 4.
Proof.
  destruct (prepare_dataset_augment_same_images decode_json table_setsize 0
              (jsonl_text scenario_example) None still_world 8 4
              (prepare_dataset decode_json table_setsize 0 (jsonl_text scenario_example)
                 true false None still_world).2)
    as (total0 & w0 & Hrun & Htotal & _).
  - vm_compute. reflexivity.
  - exists total0, w0. split; [exact Hrun|]. rewrite Htotal. vm_compute.
    reflexivity.
Defined.

(** ** Pipeline: balancing without a cap *)

Lemma counted_category_ok entry :
  is_ok (counted_keys entry) = true -> is_ok (category_key entry) = true.
Proof.
  destruct (counted_keys entry) as [[[[c a] x] p]|] eqn:Hkeys; [|done].
  by rewrite (counted_keys_category _ _ _ _ _ Hkeys).
Qed.

Lemma balance_dataset_no_cap setsize fuel data cap g :
  cap = None \/ cap = Some 0%Z ->
  balance_dataset setsize fuel data cap g
  = (match group_by_category data [] with
     | Ok _ => Ok data
     | Raise e => Raise e
     end, g).
Proof.
  intros [-> | ->]; unfold balance_dataset;
    by destruct (group_by_category data []).
Qed.

Section UncappedPipeline.

Variable json_loads : string -> result json.
Variable setsize : Z -> Z.
Variable fuel : nat.

Lemma prepare_dataset_counted text augment cap g files r w' data :
  load_jsonl json_loads text = Ok data ->
  prepare_dataset json_loads setsize fuel text augment false cap
    {| random := g; written := files |} = (Ok r, w') ->
  Forall (fun e => is_ok (counted_keys e) = true) data.
Proof.
  intros Hload. rewrite prepare_dataset_stages, Hload.
  destruct augment.
  - destruct (augment_all data []) as [out|] eqn:Hout; [|done].
    destruct (format_all out) as [formatted|] eqn:Hformat; [|done].
    cbv zeta.
    destruct (forallb encodable (random_shuffle formatted g).1); [|done].
    destruct (compute_stats (random_shuffle formatted g).1) as [s|] eqn:Hs;
      [|done].
    intros _.
    apply augment_all_ok in Hout as (groups & Hgroups & ->). cbn [app] in *.
    destruct (augmented_groups_sublist _ _ Hgroups) as [Hsub _].
    apply format_all_ok in Hformat.
    apply compute_stats_shuffled in Hs as (_ & _ & _ & _ & Hall).
    apply (formatted_counted _ _ Hformat) in Hall.
    by apply (Forall_sublist _ _ _ Hsub).
  - destruct (format_all data) as [formatted|] eqn:Hformat; [|done].
    cbv zeta.
    destruct (forallb encodable (random_shuffle formatted g).1); [|done].
    destruct (compute_stats (random_shuffle formatted g).1) as [s|] eqn:Hs;
      [|done].
    intros _. apply format_all_ok in Hformat.
    apply compute_stats_shuffled in Hs as (_ & _ & _ & _ & Hall).
    by apply (formatted_counted _ _ Hformat).
Qed.

(** X17. Balancing without a cap, or with the cap 0, changes no run that
    returns: with the balance flag on, the run returns exactly when the run
    without the flag does, with the same result, the same files and the
    same state of the random source. *)
Theorem prepare_dataset_balance_without_cap text augment cap w r w' :
  cap = None \/ cap = Some 0%Z ->
  prepare_dataset json_loads setsize fuel text augment true cap w
    = (Ok r, w') <->
  prepare_dataset json_loads setsize fuel text augment false cap w
    = (Ok r, w').
Proof.
  intros Hcap. destruct w as [g files].
  destruct (load_jsonl json_loads text) as [data|] eqn:Hload.
  - destruct (group_by_category data []) as [groups|err] eqn:Hgroups.
    + rewrite !prepare_dataset_stages, Hload.
      by rewrite (balance_dataset_no_cap _ _ _ _ _ Hcap), Hgroups.
    + split.
      * rewrite prepare_dataset_stages, Hload.
        by rewrite (balance_dataset_no_cap _ _ _ _ _ Hcap), Hgroups.
      * intros Hall%(prepare_dataset_counted _ _ _ _ _ _ _ _ Hload).
        destruct (group_by_category_grouped data [] []) as (groups & Hrun & _);
          [|apply grouped_nil|congruence].
        eapply Forall_impl; [exact Hall|]. apply counted_category_ok.
  - rewrite !prepare_dataset_stages, Hload. done.
Qed.

End UncappedPipeline.

Lemma prepare_dataset_balance_without_cap_witness :
  prepare_dataset decode_json table_setsize 0 (jsonl_text scenario_example)
    true true (Some 0%Z) still_world
  = prepare_dataset decode_json table_setsize 0 (jsonl_text scenario_example)
      true false (Some 0%Z) still_world.
Proof.
  destruct (prepare_dataset decode_json table_setsize 0 (jsonl_text scenario_example)
              true false (Some 0%Z) still_world) as [[r|] w'] eqn:Hrun;
    [|vm_compute in Hrun; discriminate Hrun].
  apply (prepare_dataset_balance_without_cap decode_json table_setsize 0); [by right|].
  exact Hrun.
Defined.

(** ** Record loader: the lines of a file *)

Lemma last_char_cons c s : s <> "" -> last_char (String c s) = last_char s.
Proof. by destruct s. Qed.

Lemma unterminated_cons c a text :
  unterminated (String c (String a text)) = unterminated (String a text).
Proof. done. Qed.

Lemma universal_newlines_cons c text :
  exists a rest, universal_newlines (String c text) = String a rest.
Proof.
  cbn [universal_newlines].
  destruct (Ascii.eqb c carriage_return); [|by eauto].
  destruct text as [|c' text]; [by eauto|].
  destruct (Ascii.eqb c' newline); by eauto.
Qed.

Lemma universal_newlines_step c a text :
  universal_newlines (String c (String a text))
  = if Ascii.eqb c carriage_return then
      if Ascii.eqb a newline then String newline (universal_newlines text)
      else String newline (universal_newlines (String a text))
    else String c (universal_newlines (String a text)).
Proof. reflexivity. Qed.

(** A line feed added to a text whose last line has none: the text read
    is the same, when the text ends with a carriage return, or the text
    read with the line feed added. *)
Lemma universal_newlines_final_both text :
  (unterminated text = true ->
   universal_newlines (text +:+ String newline "") = universal_newlines text \/
   universal_newlines (text +:+ String newline "")
   = universal_newlines text +:+ String newline "" /\
   unterminated (universal_newlines text) = true) /\
  (forall c,
   unterminated (String c text) = true ->
   universal_newlines (String c text +:+ String newline "")
   = universal_newlines (String c text) \/
   universal_newlines (String c text +:+ String newline "")
   = universal_newlines (String c text) +:+ String newline "" /\
   unterminated (universal_newlines (String c text)) = true).
Proof.
  induction text as [|a text [IH1 IH2]].
  - split; [done|]. intros c. unfold unterminated. cbn [last_char].
    intros Hc%negb_true_iff. rewrite append_cons.
    cbn [String.append universal_newlines].
    destruct (Ascii.eqb c carriage_return) eqn:Hcr.
    + by left.
    + right. split; [done|]. unfold unterminated. cbn [last_char].
      by rewrite Hc.
  - split; [apply IH2|]. intros c. rewrite unterminated_cons. intros Hun.
    assert (forall x,
      String x (universal_newlines (String a (text +:+ String newline "")))
      = String x (universal_newlines (String a text)) \/
      String x (universal_newlines (String a (text +:+ String newline "")))
      = String x (universal_newlines (String a text)) +:+ String newline "" /\
      unterminated (String x (universal_newlines (String a text))) = true)
      as Hstep.
    { intros x. rewrite <- (append_cons a).
      destruct (IH2 a Hun) as [Hsame | [Hmore Hlast]].
      - left. by rewrite Hsame.
      - right. rewrite Hmore, append_cons. split; [done|].
        destruct (universal_newlines_cons a text) as (b & rest & Heq).
        rewrite Heq in *. by rewrite unterminated_cons. }
    rewrite !append_cons, !universal_newlines_step.
    destruct (Ascii.eqb c carriage_return); [|apply Hstep].
    destruct (Ascii.eqb a newline) eqn:Ha; [|apply Hstep].
    apply Ascii.eqb_eq in Ha as ->.
    destruct text as [|b text]; [done|].
    rewrite unterminated_cons in Hun.
    destruct (IH1 Hun) as [Hsame | [Hmore Hlast]].
    + left. by rewrite Hsame.
    + right. rewrite Hmore, append_cons. split; [done|].
      destruct (universal_newlines_cons b text) as (b' & rest & Heq).
      rewrite Heq in *. by rewrite unterminated_cons.
Qed.

Lemma split_lines_final_newline text :
  unterminated text = true ->
  exists lines last,
    split_lines text = lines ++ [last] /\
    split_lines (text +:+ String newline "")
    = lines ++ [last +:+ String newline ""].
Proof.
  induction text as [|c text IH]; [done|].
  destruct text as [|a text].
  - unfold unterminated. cbn [last_char]. intros Hc%negb_true_iff.
    exists [], (String c ""). rewrite !append_cons. cbn [split_lines].
    rewrite Hc. done.
  - rewrite unterminated_cons. intros (lines & last & Hlines & Hlines')%IH.
    rewrite append_cons. cbn [split_lines] in *.
    cbn [split_lines]. rewrite Hlines, Hlines'.
    destruct (Ascii.eqb c newline).
    + by exists (String c "" :: lines), last.
    + destruct lines as [|l0 lines]; cbn [app].
      * exists [], (String c last). by rewrite append_cons.
      * by exists (String c l0 :: lines), last.
Qed.

Lemma chars_newline s :
  chars (s +:+ String newline "") = chars s ++ [String newline ""].
Proof.
  induction s as [|c s IH]; [done|].
  rewrite append_cons. cbn [chars]. rewrite IH.
  destruct (chars s) as [|ch rest]; [done|]. cbn [app].
  by destruct (begins_with_continuation ch).
Qed.

Lemma lstrip_newline cs :
  lstrip (cs ++ [String newline ""])
  = match lstrip cs with
    | [] => []
    | r => r ++ [String newline ""]
    end.
Proof.
  induction cs as [|ch cs IH]; [done|].
  cbn [app lstrip]. by destruct (is_space_char ch).
Qed.

Lemma rstrip_newline cs : rstrip (cs ++ [String newline ""]) = rstrip cs.
Proof.
  induction cs as [|ch cs IH]; [done|].
  cbn [app rstrip]. by rewrite IH.
Qed.

Lemma strip_newline s : strip (s +:+ String newline "") = strip s.
Proof.
  unfold strip. rewrite chars_newline, lstrip_newline.
  destruct (lstrip (chars s)) as [|ch r]; [done|]. by rewrite rstrip_newline.
Qed.

Lemma universal_newlines_both text :
  universal_newlines (universal_newlines text) = universal_newlines text /\
  forall c,
    universal_newlines (universal_newlines (String c text))
    = universal_newlines (String c text).
Proof.
  induction text as [|a text [IH1 IH2]].
  - split; [done|]. intros c. cbn [universal_newlines].
    destruct (Ascii.eqb c carriage_return) eqn:Hc; [done|].
    cbn [universal_newlines]. by rewrite Hc.
  - split; [apply IH2|]. intros c. rewrite universal_newlines_step.
    assert (forall x,
      Ascii.eqb x carriage_return = false ->
      universal_newlines (String x (universal_newlines (String a text)))
      = String x (universal_newlines (String a text))) as Hstep.
    { intros x Hx.
      destruct (universal_newlines_cons a text) as (b & rest & Heq).
      pose proof (IH2 a) as Hfix. rewrite Heq in *.
      by rewrite universal_newlines_step, Hx, Hfix. }
    destruct (Ascii.eqb c carriage_return) eqn:Hc; [|by apply Hstep].
    destruct (Ascii.eqb a newline); [|by apply Hstep].
    destruct text as [|b text]; [done|].
    destruct (universal_newlines_cons b text) as (b' & rest & Heq).
    rewrite Heq in *. rewrite universal_newlines_step.
    change (Ascii.eqb newline carriage_return) with false. cbv iota.
    by rewrite IH1.
Qed.

Section LoaderExtras.

Variable json_loads : string -> result json.

Lemma load_loop_stripped lines lines' data :
  map strip lines = map strip lines' ->
  load_loop json_loads lines data = load_loop json_loads lines' data.
Proof.
  revert lines' data. induction lines as [|l lines IH]; intros [|l' lines'] data;
    try done.
  cbn [map load_loop]. intros [= -> Hrest].
  destruct (json_loads (strip l')) as [r|]; [|done].
  rewrite !bind_ok. by apply IH.
Qed.

(** X18. The loader reads the three conventions for the end of a line
    alike: a file loads as the same file with every carriage return and
    line feed, and every other carriage return, rewritten to a line
    feed. *)
Theorem load_jsonl_universal_newlines text :
  load_jsonl json_loads (universal_newlines text) = load_jsonl json_loads text.
Proof.
  unfold load_jsonl, file_lines.
  by rewrite (proj1 (universal_newlines_both text)).
Qed.

(** X19. The line feed at the end of the file does not matter: a file
    whose last line is not terminated loads as the same file with the line
    feed added. *)
Theorem load_jsonl_final_newline text :
  unterminated text = true ->
  load_jsonl json_loads (text +:+ String newline "")
  = load_jsonl json_loads text.
Proof.
  intros Hun. unfold load_jsonl, file_lines.
  destruct (proj1 (universal_newlines_final_both text) Hun)
    as [-> | [-> Hlast]]; [done|].
  destruct (split_lines_final_newline _ Hlast)
    as (lines & last & Hlines & Hlines').
  rewrite Hlines, Hlines'. apply load_loop_stripped.
  rewrite !map_app. cbn [map]. by rewrite strip_newline.
Qed.

End LoaderExtras.

Lemma load_jsonl_final_newline_witness :
  load_jsonl decode_json ("{}" +:+ String newline "")
  = load_jsonl decode_json "{}".
Proof.
  apply (load_jsonl_final_newline decode_json "{}"). reflexivity.
Defined.
(** ** Pipeline: the cap and the category distribution *)

Lemma group_by_category_ok data acc groups :
  group_by_category data acc = Ok groups ->
  Forall (fun entry => is_ok (category_key entry) = true) data.
Proof.
  revert acc. induction data as [|e data IH]; intros acc; [constructor|].
  destruct (category_key e) as [k|err] eqn:Hk.
  - rewrite (group_by_category_eval _ _ _ _ Hk). intros Hrun%IH.
    constructor; [by rewrite Hk | done].
  - by rewrite (group_by_category_fails _ _ _ _ Hk).
Qed.

Lemma balance_dataset_kept setsize fuel data cap g balanced g' :
  (0 < cap)%Z ->
  balance_dataset setsize fuel data (Some cap) g = (Ok balanced, g') ->
  forall key,
    kept_of cap (List.filter (in_category key) data)
      (List.filter (in_category key) balanced).
Proof.
  intros Hcap. unfold balance_dataset.
  destruct (group_by_category data []) as [groups|] eqn:Hgroups; [|done].
  pose proof (group_by_category_ok _ _ _ Hgroups) as Hall.
  destruct (group_by_category_grouped data [] [] Hall grouped_nil)
    as (groups' & Hrun & Hgrouped).
  assert (groups' = groups) as -> by congruence.
  cbn [cap_set].
  assert ((cap =? 0)%Z = false) as -> by (apply Z.eqb_neq; lia).
  intros (kept & -> & Hkept & _)%balance_loop_keeps; [|done].
  cbn [app]. intros key.
  destruct Hgrouped as (Hnodup & _ & Hentries & Hfresh).
  destruct (filter_concat_kept data cap key groups kept Hkept Hnodup Hentries)
    as [Hout Hin].
  destruct (decide (key ∈ map fst groups)) as [Hkey|Hkey]; [by apply Hin|].
  simpl in Hfresh. rewrite (Hfresh key Hkey), (Hout Hkey).
  unfold kept_of. change (Z.of_nat (length (@nil json))) with 0%Z.
  by assert ((cap <? 0)%Z = false) as -> by (apply Z.ltb_ge; lia).
Qed.

Lemma kept_of_length cap entries kept :
  (0 < cap)%Z -> kept_of cap entries kept ->
  (Z.of_nat (length kept) <= cap)%Z.
Proof.
  intros Hcap. unfold kept_of.
  destruct (cap <? Z.of_nat (length entries))%Z eqn:Hover.
  - intros [-> _]. lia.
  - intros ->. by apply Z.ltb_ge.
Qed.

Lemma variants_in_category key entry variants :
  augment_prompts entry = Ok variants ->
  length (List.filter (in_category key) variants)
  <= 3 * length (List.filter (in_category key) [entry]).
Proof.
  intros (rest & -> & Hlen & Hrest)%augment_prompts_rest.
  assert (Forall (fun v => in_category key v = in_category key entry) rest)
    as Hsame.
  { eapply Forall_impl; [exact Hrest|]. intros v Hv. simpl in Hv.
    unfold in_category, category_key. by rewrite Hv. }
  cbn [List.filter].
  destruct (in_category key entry) eqn:Hin.
  - assert (length (List.filter (in_category key) rest) <= length rest)
      by apply List.filter_length_le.
    destruct Hlen as [->|Hlen]; simpl in *; lia.
  - assert (List.filter (in_category key) rest = []) as ->; [|simpl; lia].
    clear Hlen Hrest. induction Hsame as [|v rest Hv _ IH]; [done|].
    cbn [List.filter]. by rewrite Hv.
Qed.

Lemma augmented_in_category key data groups :
  Forall2 (fun entry vs => augment_prompts entry = Ok vs) data groups ->
  length (List.filter (in_category key) (concat groups))
  <= 3 * length (List.filter (in_category key) data).
Proof.
  induction 1 as [|e vs data groups He _ IH]; [done|].
  cbn [concat]. rewrite List.filter_app, length_app.
  pose proof (variants_in_category key _ _ He) as Hvs.
  change (e :: data) with ([e] ++ data).
  rewrite (List.filter_app _ [e] data), length_app. lia.
Qed.

Lemma formatted_category key entry formatted :
  format_for_training entry = Ok formatted ->
  in_category key formatted = in_category key entry.
Proof.
  intros (d & i & p & r & m & -> & _ & _ & _ & Hm & ->)%format_for_training_inv.
  unfold in_category, category_key. by rewrite (getitem_obj _ _ _ Hm).
Qed.

Lemma formatted_in_category key data formatted :
  Forall2 (fun entry f => format_for_training entry = Ok f) data formatted ->
  length (List.filter (in_category key) formatted)
  = length (List.filter (in_category key) data).
Proof.
  induction 1 as [|e f data formatted Hf _ IH]; [done|].
  cbn [List.filter]. rewrite (formatted_category key _ _ Hf).
  destruct (in_category key e); simpl; by rewrite IH.
Qed.

Section CappedPipeline.

Variable json_loads : string -> result json.
Variable setsize : Z -> Z.
Variable fuel : nat.

(** X20. The cap holds in the statistics of a balanced run: with balancing
    on and a positive cap, a run that returns has written a report in which
    no category counts more than [max_per_category] entries, or more than
    three times the cap when the run also augments, the records being
    augmented after they are balanced. *)
Theorem prepare_dataset_cap_in_report text augment cap w r w' :
  (0 < cap)%Z ->
  prepare_dataset json_loads setsize fuel text augment true (Some cap) w
    = (Ok r, w') ->
  exists shuffled s,
    written w' = written w ++ [WriteFormatted shuffled; WriteStats s] /\
    forall key n,
      category_distribution s !! key = Some n ->
      (Z.of_nat n <= (if augment then 3 else 1) * cap)%Z.
Proof.
  intros Hcap. destruct w as [g files]. rewrite prepare_dataset_stages.
  destruct (load_jsonl json_loads text) as [data|]; [|done].
  destruct (balance_dataset setsize fuel data (Some cap) g)
    as [[data1|] g1] eqn:Hbalance; [|done].
  assert (forall key,
    (Z.of_nat (length (List.filter (in_category key) data1)) <= cap)%Z)
    as Hcapped.
  { intros key.
    by apply (kept_of_length cap _ _ Hcap
                (balance_dataset_kept _ _ _ _ _ _ _ Hcap Hbalance key)). }
  destruct (if augment then augment_all data1 [] else Ok data1)
    as [data2|] eqn:Haugment; [|done].
  destruct (format_all data2) as [formatted|] eqn:Hformat; [|done].
  cbv zeta.
  destruct (forallb encodable (random_shuffle formatted g1).1); [|done].
  destruct (compute_stats (random_shuffle formatted g1).1) as [s|] eqn:Hs;
    [|done].
  intros [= <- <-]. eexists _, s. split; [done|]. intros key n Hn.
  pose proof (compute_stats_permutation _ _
                (random_shuffle_permutation formatted g1)) as Hperm.
  rewrite Hs in Hperm. unfold compute_stats in Hperm.
  destruct (image_paths formatted) as [paths|]; [|done].
  rewrite bind_ok in Hperm.
  destruct (count_loop formatted _) as [s'|] eqn:Hrun; [|done].
  injection Hperm as ->.
  rewrite (count_loop_category _ _ _ key 0 Hrun eq_refl) in Hn.
  apply format_all_ok in Hformat.
  rewrite Nat.add_0_l, (formatted_in_category key _ _ Hformat) in Hn.
  assert (n = length (List.filter (in_category key) data2)) as ->.
  { destruct (length (List.filter (in_category key) data2)); simpl in Hn;
      congruence. }
  specialize (Hcapped key). destruct augment.
  - apply augment_all_ok in Haugment as (groups & Hgroups & ->).
    cbn [app]. pose proof (augmented_in_category key _ _ Hgroups). lia.
  - injection Haugment as <-. lia.
Qed.

End CappedPipeline.

Lemma prepare_dataset_cap_in_report_witness :
  exists shuffled s,
    written (prepare_dataset decode_json table_setsize 0 (jsonl_text scenario_example)
               true true (Some 1%Z) still_world).2
    = [WriteFormatted shuffled; WriteStats s] /\
    category_distribution s !! KStr "polyp" = Some 3.
Proof.
  destruct (prepare_dataset decode_json table_setsize 0 (jsonl_text scenario_example)
              true true (Some 1%Z) still_world) as [[r|] w'] eqn:Hrun;
    [|vm_compute in Hrun; discriminate Hrun].
  destruct (prepare_dataset_cap_in_report decode_json _ _ _ true 1%Z _ r w'
              ltac:(lia) Hrun) as (shuffled & s & Hwritten & _).
  exists shuffled, s. split; [exact Hwritten|].
  assert (w' = (prepare_dataset decode_json table_setsize 0 (jsonl_text scenario_example)
                  true true (Some 1%Z) still_world).2) as Hw
    by (by rewrite Hrun).
  rewrite Hw in Hwritten. vm_compute in Hwritten.
  injection Hwritten as _ <-. vm_compute. reflexivity.
Defined.


(** ** Category balancer: a stream on which the sampling has no end *)

Lemma redraw_same_draw tries n selected c :
  c mod n ∈ selected ->
  (redraw tries n selected (c mod n) (fun _ => c)).1 = None.
Proof.
  intros Hin. induction tries as [|tries IH]; cbn [redraw].
  - by rewrite bool_decide_eq_true_2.
  - rewrite bool_decide_eq_true_2 by done. unfold randbelow. exact IH.
Qed.

Lemma sample_set_same_draw {A} fuel k n (population : list A) chosen c :
  2 <= k -> n = length population -> 0 < n ->
  (sample_set fuel k n population ∅ chosen (fun _ => c)).1 = Raise Unfinished.
Proof.
  intros Hk -> Hn. destruct k as [|[|k]]; [lia..|].
  cbn [sample_set]. unfold randbelow at 1.
  rewrite redraw_new by set_solver.
  assert (c mod length population < length population) as Hlt
    by (apply Nat.mod_upper_bound; lia).
  destruct (lookup_lt_is_Some_2 population _ Hlt) as [x ->].
  cbn [sample_set]. unfold randbelow at 1.
  pose proof (redraw_same_draw fuel (length population)
                ({[c mod length population]} ∪ ∅) c) as Hredraw.
  destruct (redraw fuel (length population) _ _ _) as [[j|] g2];
    [|done].
  assert (c mod length population
          ∈ ({[c mod length population]} ∪ ∅ : gset nat)) as Hin
    by set_solver.
  by specialize (Hredraw Hin).
Qed.

Lemma filter_in_category_same key k data :
  Forall (fun entry => category_key entry = Ok key) data ->
  List.filter (in_category k) data = if bool_decide (key = k) then data else [].
Proof.
  induction 1 as [|e data He _ IH]; [by case_bool_decide|].
  cbn [List.filter]. rewrite (in_category_key _ _ _ He), IH.
  by case_bool_decide.
Qed.

(** X21. The loop [while j in selected] of [random.sample] has no bound of
    its own: on a stream that gives the same draw every time, the sample of
    two or more records of a category with more than [setsize] records has
    no end, however long the loop is followed, and the balancer with it. *)
Theorem balance_dataset_same_draw setsize fuel data key cap c :
  Forall (fun entry => category_key entry = Ok key) data ->
  (2 <= cap < Z.of_nat (length data))%Z ->
  (setsize cap < Z.of_nat (length data))%Z ->
  (balance_dataset setsize fuel data (Some cap) (fun _ => c)).1
  = Raise Unfinished.
Proof.
  intros Hkey Hcap Hset.
  assert (Forall (fun entry => is_ok (category_key entry) = true) data) as Hall.
  { eapply Forall_impl; [exact Hkey|]. intros e He. simpl in He.
    by rewrite He. }
  destruct (group_by_category_grouped data [] [] Hall grouped_nil)
    as (groups & Hrun & Hnodup & Hnonempty & Hentries & Hfresh).
  assert (data <> []) as Hdata by (intros ->; simpl in *; lia).
  assert (forall group, group ∈ groups -> group = (key, data)) as Hgroup.
  { intros [k es] Hin.
    pose proof (proj1 (Forall_forall _ _) Hentries _ Hin) as Hes.
    pose proof (proj1 (Forall_forall _ _) Hnonempty _ Hin) as Hne.
    simpl in Hes, Hne. rewrite (filter_in_category_same key k data Hkey) in Hes.
    case_bool_decide; by subst. }
  assert (groups = [(key, data)]) as ->.
  { destruct groups as [|g1 groups].
    - simpl in Hfresh. specialize (Hfresh key (not_elem_of_nil _)).
      rewrite (filter_in_category_same key key data Hkey) in Hfresh.
      by rewrite bool_decide_eq_true_2 in Hfresh.
    - rewrite (Hgroup g1) in * by apply list_elem_of_here.
      destruct groups as [|g2 groups]; [done|].
      rewrite (Hgroup g2) in Hnodup
        by (apply list_elem_of_further, list_elem_of_here).
      cbn [map fst] in Hnodup. apply NoDup_cons in Hnodup as [Hnotin _].
      destruct Hnotin. apply list_elem_of_here. }
  unfold balance_dataset. rewrite Hrun. cbn [cap_set].
  assert ((cap =? 0)%Z = false) as -> by (apply Z.eqb_neq; lia).
  cbn [balance_loop].
  assert ((cap <? Z.of_nat (length data))%Z = true) as ->
    by (apply Z.ltb_lt; lia).
  unfold random_sample.
  assert (((cap <? 0) || (Z.of_nat (length data) <? cap))%Z = false) as ->.
  { apply orb_false_intro; apply Z.ltb_ge; lia. }
  assert ((Z.of_nat (length data) <=? setsize cap)%Z = false) as ->
    by (apply Z.leb_gt; lia).
  pose proof (sample_set_same_draw fuel (Z.to_nat cap) (length data) data [] c)
    as Hsample.
  destruct (sample_set fuel _ _ _ _ _ _) as [[sampled|e] g'].
  - simpl in Hsample. discriminate Hsample; [lia | done | lia].
  - simpl in *. apply Hsample; [lia | done | lia].
Qed.

Lemma balance_dataset_same_draw_witness :
  (balance_dataset table_setsize 1000
     (replicate 22
        (raw_record "a.jpg" "p" "r" (metadata_of "polyp" "50-59" "F" true)))
     (Some 2%Z) (fun _ => 0)).1
  = Raise Unfinished.
Proof.
  apply (balance_dataset_same_draw table_setsize 1000 _ (KStr "polyp")).
  - cbn [replicate]. repeat constructor.
  - rewrite length_replicate. lia.
  - rewrite length_replicate. change (table_setsize 2) with 21%Z. lia.
Defined.
